(** * dgit: object retrieval, checkout-index, ls-files and checkout

    A shallow embedding of the Go sources
      - git/objects.go        (GetObject, GitBlobObject)
      - checkoutindex.go      (CheckoutIndex)
      - the ls-files source   (findUntrackedFilesFromDir, LsFiles, lsByPath)
      - git/checkout.go       (CheckoutCommit)
    and the properties of the specification that are settled on them.

    Go values are modelled as follows: [[]byte] is [list byte], [string]
    is [string] (a sequence of bytes), [int] is [Z] restricted to 64 bits
    where the library clamps, [error] is the error's message, and a
    function that can return an error or panic returns an [outcome]. *)

From Stdlib Require Import ZArith Lia List String Ascii Bool.
From Stdlib.Strings Require Import Byte.
From Stdlib Require Import Sorting.Sorted.
From stdpp Require Import base decidable option list strings gmap.

Local Open Scope string_scope.
Local Open Scope Z_scope.
Local Open Scope list_scope.

(** ** Common Go-level types *)

Definition bytes := list byte.

#[global] Instance byte_eq_dec : EqDecision byte := Byte.byte_eq_dec.

(** A Go [error] value is identified with its message. *)
Definition error := string.

(** What a call can do: return a value, return a non-nil error, or
    panic (which, unrecovered, terminates the process). *)
Inductive outcome (A : Type) : Type :=
| Ret (a : A)
| Fail (e : error)
| Panic (payload : string).
Arguments Ret {A} a.
Arguments Fail {A} e.
Arguments Panic {A} payload.

Definition obind {A B} (m : outcome A) (k : A -> outcome B) : outcome B :=
  match m with
  | Ret a => k a
  | Fail e => Fail e
  | Panic p => Panic p
  end.

Definition terminates_process {A} (o : outcome A) : Prop :=
  match o with Panic _ => True | _ => False end.

Definition is_error {A} (o : outcome A) : Prop :=
  match o with Fail _ => True | _ => False end.

(** [Sha1] is [[20]byte] in the source. *)
Definition Sha1 := bytes.

Definition bytes_of_string (s : string) : bytes := list_byte_of_string s.

(** The line feed that ends a printed line. *)
Definition nl : string := String "010"%char EmptyString.

(** ** git/objects.go *)

Module Objects.

(** *** strconv.Atoi

    The Go library function, on a byte string: an optional sign, then
    one or more decimal digits.  On a syntax error the value is 0; on
    overflow of the 64-bit [int] the value is clamped.  The boolean is
    [true] when the returned error is nil. *)

Definition int_max : Z := 2 ^ 63 - 1.
Definition int_min : Z := - 2 ^ 63.

Definition byteZ (b : byte) : Z := Z.of_N (Byte.to_N b).

Definition is_digit (b : byte) : bool :=
  (48 <=? byteZ b) && (byteZ b <=? 57).

Fixpoint digits_value (acc : Z) (s : bytes) : option Z :=
  match s with
  | [] => Some acc
  | ch :: s' =>
      if is_digit ch then digits_value (acc * 10 + (byteZ ch - 48)) s'
      else None
  end.

Definition Atoi (s : bytes) : Z * bool :=
  let '(neg, ds) :=
    match s with
    | ch :: s' =>
        if Z.eqb (byteZ ch) 45 then (true, s')
        else if Z.eqb (byteZ ch) 43 then (false, s')
        else (false, s)
    | [] => (false, [])
    end in
  match ds with
  | [] => (0, false)
  | _ =>
      match digits_value 0 ds with
      | None => (0, false)
      | Some un =>
          if negb neg && (int_max <? un) then (int_max, false)
          else if neg && (- int_min <? un) then (int_min, false)
          else (if neg then - un else un, true)
      end
  end.

(** *** GitBlobObject *)

Record GitBlobObject := mkBlob { size : Z; content : bytes }.

Definition GetType (_ : GitBlobObject) : string := "blob".

(** [GetContent] panics when the length of the content is not the
    recorded size. *)
Definition GetContent (b : GitBlobObject) : outcome bytes :=
  if Z.eqb (Z.of_nat (length (content b))) (size b) then Ret (content b)
  else Panic "Content of blob does not match size.".

Definition GetSize (b : GitBlobObject) : Z := size b.

(** *** The object directory as GetObject sees it

    [HaveObject] belongs to another source file; its three results
    (found, packed, err) are part of the store.  The object file is
    described by what opening and inflating it yields. *)

Inductive ObjectFile :=
| NoSuchFile                      (* os.Open fails *)
| ZlibHeaderError (e : error)     (* zlib.NewReader fails *)
| ZlibReadError (e : error)       (* ioutil.ReadAll fails *)
| Inflated (b : bytes).           (* the decompressed stream *)

Record ObjectStore := mkStore {
  HaveObject : Sha1 -> bool * bool * option error;
  objfile : Sha1 -> ObjectFile
}.

Definition InvalidObject : error := "Invalid object".
Definition PackedUnsupported : error :=
  "GetObject does not yet support packed objects".

(** Index of the first zero byte: the [range] loop with its [break]. *)
Fixpoint first_zero (idx : nat) (b : bytes) : option nat :=
  match b with
  | [] => None
  | val :: b' =>
      if Z.eqb (byteZ val) 0 then Some idx else first_zero (S idx) b'
  end.

(** [b[lo:hi]] for [lo <= hi <= len(b)]. *)
Definition slice (lo hi : nat) (b : bytes) : bytes :=
  take (hi - lo) (drop lo b).

(** The body of the ["blob "] branch: [size] and [content] keep their
    zero values when no zero byte is found; a failed conversion is only
    printed, and [size] takes whatever [Atoi] returned. *)
Definition parse_blob (b : bytes) : GitBlobObject :=
  match first_zero 0 b with
  | Some idx => mkBlob (fst (Atoi (slice 5 idx b))) (drop (S idx) b)
  | None => mkBlob 0 []
  end.

(** [string(b[0:5]) == "blob "].  For a stream shorter than five bytes
    the slice expression reaches into the spare capacity of the buffer
    of [ioutil.ReadAll]; that is taken not to spell the tag. *)
Definition has_blob_tag (b : bytes) : bool :=
  bool_decide (take 5 b = bytes_of_string "blob ").

(** [GetObject]; the lines it prints on the way are left out. *)
Definition GetObject (st : ObjectStore) (sha1 : Sha1) : outcome GitBlobObject :=
  let '(_, packed, err) := HaveObject st sha1 in
  if packed then Fail PackedUnsupported
  else
    match err with
    | Some e => Panic e
    | None =>
        match objfile st sha1 with
        | NoSuchFile => Panic "Couldn't open object file."
        | ZlibHeaderError e => Fail e
        | ZlibReadError e => Fail e
        | Inflated b =>
            if has_blob_tag b then Ret (parse_blob b)
            else Fail InvalidObject
        end
    end.

End Objects.

(** ** The working directory

    The files below the working directory form a tree.  A path handed
    to the operating system is resolved from the root of that tree
    (the process runs in the working directory); empty and ["."]
    components are skipped, and a path that is absolute or has a
    [".."] component lies outside the tree. *)

Module FS.

Record Time := mkTime { Unix : Z; Nanosecond : Z }.

#[warnings="-register-all"]
Inductive node :=
| File (data : bytes) (mode : Z) (mtime : Time)
| Dir (entries : list (string * node)).

Definition is_slash (c : ascii) : bool := Ascii.eqb c "/"%char.

Fixpoint split_path (s : string) : list string :=
  match s with
  | EmptyString => [EmptyString]
  | String c s' =>
      if is_slash c then EmptyString :: split_path s'
      else match split_path s' with
           | h :: t => String c h :: t
           | [] => [String c EmptyString]
           end
  end.

Definition skipped_component (c : string) : bool :=
  String.eqb c "" || String.eqb c ".".

Definition is_absolute (p : string) : bool :=
  match p with
  | String c _ => is_slash c
  | EmptyString => false
  end.

Definition components (p : string) : option (list string) :=
  let cs := List.filter (fun c => negb (skipped_component c)) (split_path p) in
  if is_absolute p || existsb (String.eqb "..") cs then None else Some cs.

Fixpoint assoc {A} (name : string) (es : list (string * A)) : option A :=
  match es with
  | [] => None
  | (n, x) :: es' => if String.eqb n name then Some x else assoc name es'
  end.

(** Replace the first entry called [name], or add one at the end. *)
Fixpoint set_entry {A} (name : string) (x : A) (es : list (string * A))
  : list (string * A) :=
  match es with
  | [] => [(name, x)]
  | (n, y) :: es' =>
      if String.eqb n name then (n, x) :: es'
      else (n, y) :: set_entry name x es'
  end.

Definition del_entry {A} (name : string) (es : list (string * A))
  : list (string * A) :=
  List.filter (fun e => negb (String.eqb (fst e) name)) es.

Definition put_entry {A} (name : string) (r : option A)
  (es : list (string * A)) : list (string * A) :=
  match r with
  | Some x => set_entry name x es
  | None => del_entry name es
  end.

Fixpoint walk (cs : list string) (n : node) : option node :=
  match cs with
  | [] => Some n
  | c :: cs' =>
      match n with
      | Dir es =>
          match assoc c es with
          | Some ch => walk cs' ch
          | None => None
          end
      | File _ _ _ => None
      end
  end.

(** Change what the directory that holds the last component has under
    that name: [g] receives the present entry and answers with the new
    one ([Some None] removes it), or [None] when the call fails. *)
Fixpoint alter_path (cs : list string)
  (g : option node -> option (option node)) (n : node) : option node :=
  match cs with
  | [] => None
  | c :: cs' =>
      match n with
      | File _ _ _ => None
      | Dir es =>
          match cs' with
          | [] =>
              match g (assoc c es) with
              | Some r => Some (Dir (put_entry c r es))
              | None => None
              end
          | _ :: _ =>
              match assoc c es with
              | Some ch =>
                  match alter_path cs' g ch with
                  | Some ch' => Some (Dir (set_entry c ch' es))
                  | None => None
                  end
              | None => None
              end
          end
      end
  end.

Definition resolve (t : node) (p : string) : option node :=
  match components p with
  | Some cs => walk cs t
  | None => None
  end.

Definition alter (t : node) (p : string)
  (g : option node -> option (option node)) : option node :=
  match components p with
  | Some cs => alter_path cs g t
  | None => None
  end.

(** [File.Exists] and [File.IsDir]. *)
Definition Exists (t : node) (p : string) : bool :=
  match resolve t p with Some _ => true | None => false end.

Definition IsDir (t : node) (p : string) : bool :=
  match resolve t p with Some (Dir _) => true | _ => false end.

Record FileInfo := mkInfo { fi_isdir : bool; fi_mode : Z; ModTime : Time }.

Definition dir_time : Time := mkTime 0 0.

(** [File.Stat]: [None] stands for the error. *)
Definition Stat (t : node) (p : string) : option FileInfo :=
  match resolve t p with
  | Some (File _ m mt) => Some (mkInfo false m mt)
  | Some (Dir _) => Some (mkInfo true 0 dir_time)
  | None => None
  end.

Definition ReadFile (t : node) (p : string) : option bytes :=
  match resolve t p with
  | Some (File d _ _) => Some d
  | _ => None
  end.

(** What the system keeps of an [os.FileMode] when a file is created
    or its mode is set, and what [Stat] gives back: the nine
    permission bits and the bits [ModeSetuid] (bit 23), [ModeSetgid]
    (bit 22) and [ModeSticky] (bit 20).  A mode as git records it, for
    instance octal 100644, is cut down to its permission bits, octal
    644. *)
Definition ModePerm : Z := 511.

Definition kept_bits : Z := ModePerm + 2 ^ 23 + 2 ^ 22 + 2 ^ 20.

Definition syscallMode (perm : Z) : Z := Z.land perm kept_bits.

(** The mode of a file that is created with [perm] under the file
    mode creation mask [umask] of the process. *)
Definition created_mode (perm umask : Z) : Z :=
  Z.land (syscallMode perm) (Z.lnot (Z.land umask ModePerm)).

(** [ioutil.WriteFile]: creates the file with [perm] (before the
    mask), or truncates an existing file and keeps its mode; fails on
    a directory and when the directory that should hold the file is
    missing. *)
Definition WriteFile (t : node) (p : string) (data : bytes) (perm : Z)
  (umask : Z) (now : Time) : option node :=
  alter t p (fun cur =>
    match cur with
    | None => Some (Some (File data (created_mode perm umask) now))
    | Some (File _ m _) => Some (Some (File data m now))
    | Some (Dir _) => None
    end).

(** [os.Chmod]; the callers drop its error, so a failed call leaves
    the tree as it is. *)
Definition Chmod (t : node) (p : string) (perm : Z) : node :=
  match alter t p (fun cur =>
          match cur with
          | Some (File d _ mt) => Some (Some (File d (syscallMode perm) mt))
          | _ => None
          end) with
  | Some t' => t'
  | None => t
  end.

(** [os.Remove]: a file or an empty directory. *)
Definition Remove (t : node) (p : string) : option node :=
  alter t p (fun cur =>
    match cur with
    | Some (File _ _ _) => Some None
    | Some (Dir []) => Some None
    | _ => None
    end).

(** [os.RemoveAll]: removes the path and everything below it; a path
    that does not exist is not an error. *)
Definition RemoveAll (t : node) (p : string) : node :=
  match alter t p (fun cur =>
          match cur with
          | Some _ => Some None
          | None => None
          end) with
  | Some t' => t'
  | None => t
  end.

End FS.

(** ** The index and the state the commands run in *)

(** Modelled from the spec: [IndexEntry] is declared in another
    source file; the fields are the ones the
    sources read and write ([PathName], [Sha1], [Mode], [Mtime],
    [Mtimenano], [Stage()], [SkipWorktree()]) and the size of the data
    model. *)
Record IndexEntry := mkEntry {
  PathName : string;
  Sha1_of : Sha1;
  Mode : Z;
  Fsize : Z;
  Mtime : Z;
  Mtimenano : Z;
  Stage : Z;
  SkipWorktree : bool
}.

#[global] Instance IndexEntry_eq_dec : EqDecision IndexEntry.
Proof. solve_decision. Defined.

(** [Index.Objects] is a slice of pointers to entries; the model
    threads the slice through the loops that assign to its entries. *)
Definition Index := list IndexEntry.

Definition uint32 (x : Z) : Z := x mod 2 ^ 32.

Definition set_mtime (e : IndexEntry) (t : FS.Time) : IndexEntry :=
  mkEntry (PathName e) (Sha1_of e) (Mode e) (Fsize e)
    (uint32 (FS.Unix t)) (uint32 (FS.Nanosecond t))
    (Stage e) (SkipWorktree e).

(** The state a command runs in.  The files of the git directory are
    kept by name, apart from the working directory.  [gitdir_writable]
    and [write_limit] are the two ways the environment can make saving
    the index fail: the file cannot be created, or the writer accepts
    only so many bytes.  [umask] is the file mode creation mask of
    the process, and [remove_error] the error with which the system
    refuses to remove a path of the working directory (a read-only
    file system, a directory without write permission), if it does. *)
Record World := mkWorld {
  store : Objects.ObjectStore;
  tree : FS.node;
  gitfiles : gmap string bytes;
  refs : gmap string string;
  now : FS.Time;
  gitdir_writable : bool;
  write_limit : option nat;
  stderr : list string;
  umask : Z;
  remove_error : string -> option error
}.

Definition with_tree (w : World) (t : FS.node) : World :=
  mkWorld (store w) t (gitfiles w) (refs w) (now w)
    (gitdir_writable w) (write_limit w) (stderr w)
    (umask w) (remove_error w).

Definition with_gitfiles (w : World) (g : gmap string bytes) : World :=
  mkWorld (store w) (tree w) g (refs w) (now w)
    (gitdir_writable w) (write_limit w) (stderr w)
    (umask w) (remove_error w).

Definition with_refs (w : World) (r : gmap string string) : World :=
  mkWorld (store w) (tree w) (gitfiles w) r (now w)
    (gitdir_writable w) (write_limit w) (stderr w)
    (umask w) (remove_error w).

Definition eprint (w : World) (line : string) : World :=
  mkWorld (store w) (tree w) (gitfiles w) (refs w) (now w)
    (gitdir_writable w) (write_limit w) (stderr w ++ [line])
    (umask w) (remove_error w).

(** A command: from a state to what the call does and the state it
    leaves, also when it fails or panics. *)
Definition M (A : Type) : Type := World -> outcome A * World.

Definition ret {A} (a : A) : M A := fun w => (Ret a, w).
Definition fail {A} (e : error) : M A := fun w => (Fail e, w).
Definition bind {A B} (m : M A) (k : A -> M B) : M B :=
  fun w =>
    match m w with
    | (Ret a, w') => k a w'
    | (Fail e, w') => (Fail e, w')
    | (Panic p, w') => (Panic p, w')
    end.
Definition lift {A} (o : outcome A) : M A := fun w => (o, w).
Definition reading {A} (f : World -> A) : M A := fun w => (Ret (f w), w).
Definition modify (f : World -> World) : M unit := fun w => (Ret tt, f w).

Declare Scope cmd_scope.
Delimit Scope cmd_scope with cmd.
Notation "x <- m ;; k" := (bind m (fun x => k))
  (at level 100, m at next level, right associativity) : cmd_scope.
Notation "m ;;; k" := (bind m (fun _ => k))
  (at level 100, right associativity) : cmd_scope.

(** [IgnorePattern], as [LsFiles] builds it. *)
Record IgnorePattern := mkPattern {
  Pattern : string;
  Source : string;
  LineNum : Z;
  Scope : string
}.

(** The client ([WorkDir], [GitDir]) and the parts of the repository's
    own code that the modelled functions call and that live in other
    source files.  [filepath.Abs] depends on the directory the process
    runs in and is kept with them. *)
Record Repo := mkRepo {
  WorkDir : string;
  GitDir : string;
  (* filepath.Abs *)
  Abs : string -> outcome string;
  (* File.MatchGlob *)
  MatchGlob : string -> string -> bool;
  (* IgnorePattern.Matches *)
  Matches : IgnorePattern -> string -> bool -> bool;
  (* ParseIgnorePatterns(c, file, scope), which reads the file *)
  ParseIgnorePatterns : World -> string -> string -> outcome (list IgnorePattern);
  (* File.IndexPath: a path of the command line as a path of the index *)
  IndexPath_of : string -> outcome string;
  (* IndexPath.FilePath: a path of the index as a path for the system *)
  FilePath_of : string -> outcome string;
  (* what ReadIndex parses and what WriteIndex serializes *)
  decode_index : bytes -> outcome Index;
  encode_index : Index -> bytes;
  (* HashFile("blob", f), on the bytes of the file *)
  hash_blob : bytes -> Sha1
}.

Definition index_file : string := "index".

(** [c.GitDir.ReadIndex()]. *)
Definition ReadIndex (R : Repo) : M Index :=
  fun w =>
    match gitfiles w !! index_file with
    | Some b => (decode_index R b, w)
    | None => (Fail "open index: no such file or directory", w)
    end.

(** Modelled from the spec: the "new file in the persisted-state
    directory" that a save of the file [name] is serialized to; it
    stands beside [name]. *)
Definition new_file (name : string) : string := name +:+ ".new".

(** Modelled from the spec: [GitDir.Create] is in another source file.
    A save serializes the entries "to a new file in the
    persisted-state directory, which then becomes the authoritative
    index" (write-new-then-replace): the handle a caller gets for
    [name] is one on a new, empty file of the git directory, and the
    file called [name] is not touched. *)
Definition GitDir_Create (name : string) : M string :=
  fun w =>
    if gitdir_writable w
    then (Ret (new_file name),
          with_gitfiles w (<[new_file name := []]> (gitfiles w)))
    else (Fail ("open " +:+ name +:+ ": permission denied"), w).

(** Modelled from the spec: the serialization of [Index.WriteIndex],
    which is in another source file, writes [data] to the new file
    behind the handle; the bytes the writer accepts are appended to
    that file, and the write fails when the limit cuts it ("a failure
    partway through serialization"). *)
Definition write_handle (h : string) (data : bytes) : M unit :=
  fun w =>
    let old := default [] (gitfiles w !! h) in
    match write_limit w with
    | Some k =>
        if Nat.ltb k (length data)
        then (Fail "write index: no space left on device",
              with_gitfiles w (<[h := (old ++ take k data)%list]> (gitfiles w)))
        else (Ret tt, with_gitfiles w (<[h := (old ++ data)%list]> (gitfiles w)))
    | None => (Ret tt, with_gitfiles w (<[h := (old ++ data)%list]> (gitfiles w)))
    end.

(** Modelled from the spec: the new file behind the handle "then
    becomes the authoritative index" (write-new-then-replace): it
    takes the place of the index file. *)
Definition replace_index (h : string) : M unit :=
  modify (fun w =>
    match gitfiles w !! h with
    | Some b => with_gitfiles w (<[index_file := b]> (delete h (gitfiles w)))
    | None => w
    end).

(** Modelled from the spec: [Index.WriteIndex] is in another source
    file; it serializes the entries to the new file it is given, and
    the new file "then becomes the authoritative index"; "a failure
    partway through serialization must leave the previously-committed
    index file untouched", so that the replacement happens only after
    a complete serialization. *)
Definition WriteIndex (R : Repo) (idx : Index) (h : string) : M unit :=
  (write_handle h (encode_index R idx) ;;; replace_index h)%cmd.

(** The save both commands end with:
    [f, err := c.GitDir.Create("index"); ...; idx.WriteIndex(f)]. *)
Definition save_index (R : Repo) (idx : Index) : M unit :=
  (f <- GitDir_Create index_file ;; WriteIndex R idx f)%cmd.

(** ** checkoutindex.go *)

Module Checkoutindex.

(** [Stage], [Temp], [Stdin] and [NullTerminate] are declared and never
    read by [CheckoutIndex]. *)
Record CheckoutIndexOptions := mkOpts {
  UpdateStat : bool;
  Quiet : bool;
  Force : bool;
  All : bool;
  NoCreate : bool;
  Prefix : string
}.

(** [obj, err := c.GetObject(sha1)]: the two results as a sum; a panic
    of the call is a panic of the command. *)
Definition GetObject (sha1 : Sha1) : M (Objects.GitBlobObject + error) :=
  fun w =>
    match Objects.GetObject (store w) sha1 with
    | Ret obj => (Ret (inl obj), w)
    | Fail e => (Ret (inr e), w)
    | Panic p => (Panic p, w)
    end.

Definition WriteFile (f : string) (data : bytes) (perm : Z) : M unit :=
  fun w =>
    match FS.WriteFile (tree w) f data perm (umask w) (now w) with
    | Some t => (Ret tt, with_tree w t)
    | None => (Fail ("open " +:+ f +:+ ": cannot write"), w)
    end.

Definition Chmod (f : string) (perm : Z) : M unit :=
  modify (fun w => with_tree w (FS.Chmod (tree w) f perm)).

Definition Stat (f : string) : M FS.FileInfo :=
  fun w =>
    match FS.Stat (tree w) f with
    | Some fi => (Ret fi, w)
    | None => (Fail ("stat " +:+ f +:+ ": no such file or directory"), w)
    end.

Definition diagnostic (quiet : bool) (line : string) : M unit :=
  if quiet then ret tt else modify (fun w => eprint w line).

Section WithRepo.
Context (R : Repo).

(** The body of the inner loop, for one entry and one requested file.
    The result is the entry as the iteration leaves it; a [continue]
    leaves it as it was. *)
Definition checkout_file (opts : CheckoutIndexOptions)
  (entry : IndexEntry) (file : string) : M IndexEntry :=
  match IndexPath_of R file with
  | Panic p => lift (Panic p)
  | Fail err => (diagnostic (Quiet opts) (err +:+ nl) ;;; ret entry)%cmd
  | Ret indexpath =>
      if negb (String.eqb (PathName entry) indexpath) then ret entry
      else
        let f := Prefix opts +:+ file in
        (fetched <- GetObject (Sha1_of entry) ;;
         present <- reading (fun w => FS.Exists (tree w) f) ;;
         if present && negb (Force opts) then
           (diagnostic (Quiet opts)
              (indexpath +:+ " already exists, no checkout" +:+ nl) ;;;
            ret entry)
         else
           match fetched with
           | inr err => fail err
           | inl obj =>
               ((if NoCreate opts then ret tt
                 else
                   (data <- lift (Objects.GetContent obj) ;;
                    WriteFile f data (Mode entry) ;;;
                    Chmod file (Mode entry))) ;;;
                if UpdateStat opts && String.eqb (Prefix opts) "" then
                  (fstat <- Stat f ;;
                   ret (set_mtime entry (FS.ModTime fstat)))
                else ret entry)
           end)%cmd
  end.

(** [for _, file := range files]. *)
Fixpoint loop_files (opts : CheckoutIndexOptions) (entry : IndexEntry)
  (files : list string) : M IndexEntry :=
  match files with
  | [] => ret entry
  | file :: rest =>
      (entry' <- checkout_file opts entry file ;;
       loop_files opts entry' rest)%cmd
  end.

(** [for _, entry := range idx.Objects]. *)
Fixpoint loop_entries (opts : CheckoutIndexOptions) (objects : Index)
  (files : list string) : M Index :=
  match objects with
  | [] => ret []
  | entry :: rest =>
      (entry' <- loop_files opts entry files ;;
       rest' <- loop_entries opts rest files ;;
       ret (entry' :: rest'))%cmd
  end.

Definition requested (opts : CheckoutIndexOptions) (idx : Index)
  (files : list string) : list string :=
  if All opts then (files ++ map PathName idx)%list else files.

Definition CheckoutIndex (opts : CheckoutIndexOptions)
  (files : list string) : M unit :=
  if negb (Nat.eqb (length files) 0) && All opts
  then fail "Can not mix --all and named files"
  else
    (idx <- ReadIndex R ;;
     idx' <- loop_entries opts idx (requested opts idx files) ;;
     if UpdateStat opts then save_index R idx' else ret tt)%cmd.

End WithRepo.

End Checkoutindex.

(** ** The ls-files source: findUntrackedFilesFromDir, LsFiles, lsByPath *)

Module Lsfiles.

(** [strings.HasPrefix] and [strings.TrimPrefix]. *)
Definition HasPrefix (s pre : string) : bool := String.prefix pre s.

Fixpoint drop_string (n : nat) (s : string) : string :=
  match n, s with
  | O, _ => s
  | S n', String _ s' => drop_string n' s'
  | S _, EmptyString => EmptyString
  end.

Definition TrimPrefix (s pre : string) : string :=
  if HasPrefix s pre then drop_string (String.length pre) s else s.

(** The options [LsFiles] reads.  [Killed] is left out: the model
    covers the calls that leave it unset, which skip the block it
    guards.  [Ignored], [Stage] and [Status] are never read. *)
Record LsFilesOptions := mkLsOpts {
  Cached : bool;
  Deleted : bool;
  Modified : bool;
  Others : bool;
  Unmerged : bool;
  Directory : bool;
  NoEmptyDirectory : bool;
  ExcludeStandard : bool;
  ExcludePatterns : list string;
  ExcludeFiles : list string;
  ExcludePerDirectory : list string;
  ErrorUnmatch : bool
}.

Record LsFilesResult := mkResult {
  entry_of : IndexEntry;
  StatusCode : ascii
}.

(** [&IndexEntry{PathName: p}]: every other field has its zero value. *)
Definition zero_sha1 : Sha1 := repeat x00 20.

Definition entry_for (p : string) : IndexEntry :=
  mkEntry p zero_sha1 0 0 0 0 0 false.

Definition join (parent fname : string) : string :=
  parent +:+ "/" +:+ fname.

(** [parent + "/" + fname], or [fname] alone under an empty parent. *)
Definition under (parent fname : string) : string :=
  if String.eqb parent "" then fname else join parent fname.

Section WithRepo.
Context (R : Repo).

(** The loop over [ignorePatterns] in the scanner: the entry is left
    out ([continue files]) as soon as one pattern matches. *)
Definition ignored (ignorePatterns : list IgnorePattern)
  (parent fname : string) (isdir : bool) : bool :=
  existsb (fun pattern => Matches R pattern (under parent fname) isdir)
    ignorePatterns.

(** The loop over [opts.ExcludePerDirectory]; [n] is the directory
    that [dir] names. *)
Fixpoint add_dir_excludes (excludes : list string) (dir : string)
  (n : FS.node) (ignorePatterns : list IgnorePattern)
  : M (list IgnorePattern) :=
  match excludes with
  | [] => ret ignorePatterns
  | ignorefile :: rest =>
      let ignoreInDir := under dir ignorefile in
      match FS.resolve n ignorefile with
      | Some _ =>
          (modify (fun w => eprint w ("Adding excludes from " +:+ ignoreInDir)) ;;;
           parsed <- reading (fun w => ParseIgnorePatterns R w ignoreInDir dir) ;;
           match parsed with
           | Ret patterns =>
               add_dir_excludes rest dir n (ignorePatterns ++ patterns)
           | Fail _ => add_dir_excludes rest dir n ignorePatterns
           | Panic p => lift (Panic p)
           end)%cmd
      | None => add_dir_excludes rest dir n ignorePatterns
      end
  end.

(** [for path := range tracked]: does a tracked path start with
    [indexPath]? *)
Definition dirHasTracked (tracked : gset string) (indexPath : string) : bool :=
  existsb (fun path => HasPrefix path indexPath) (elements tracked).

(** [IndexPath(c)] where the scanner panics on its error. *)
Definition must_IndexPath (p : string) : M string :=
  match IndexPath_of R p with
  | Ret ip => ret ip
  | Fail err => lift (Panic err)
  | Panic p' => lift (Panic p')
  end.

(** A directory entry that holds no tracked path, when the scanner
    does not recurse. *)
Definition collapsed_dir (opts : LsFilesOptions) (fname indexPath : string)
  : M (list IndexEntry) :=
  if Directory opts then
    (empty <- reading (fun w =>
                match FS.resolve (tree w) fname with
                | Some (FS.Dir []) => true
                | _ => false
                end) ;;
     if NoEmptyDirectory opts && empty then ret []
     else ret [entry_for (indexPath +:+ "/")])%cmd
  else ret [entry_for indexPath].

(** A file entry. *)
Definition scan_file (root parent fname : string) (tracked : gset string)
  : M (list IndexEntry) :=
  let filePath := TrimPrefix (under parent fname) root in
  (_ <- must_IndexPath filePath ;;
   if bool_decide (filePath ∈ tracked) then ret []
   else ret [entry_for filePath])%cmd.

(** [findUntrackedFilesFromDir]; [n] is the directory that [dir] names,
    whose entries [ioutil.ReadDir] lists in the order of the tree. *)
Fixpoint findUntrackedFilesFromDir (opts : LsFilesOptions)
  (root parent dir : string) (n : FS.node) (tracked : gset string)
  (recursedir : bool) (ignorePatterns : list IgnorePattern) {struct n}
  : M (list IndexEntry) :=
  match n with
  | FS.File _ _ _ => ret []
  | FS.Dir files =>
      (ignorePatterns' <-
         add_dir_excludes (ExcludePerDirectory opts) dir n ignorePatterns ;;
       (fix loop (files : list (string * FS.node)) : M (list IndexEntry) :=
          match files with
          | [] => ret []
          | (fname, child) :: rest =>
              (here <-
                 (if String.eqb fname ".git" then ret []
                  else
                    match child with
                    | FS.Dir _ =>
                        if ignored ignorePatterns' parent fname true then ret []
                        else
                          let recurse :=
                            findUntrackedFilesFromDir opts root
                              (under parent fname) (under dir fname) child
                              tracked recursedir ignorePatterns' in
                          if recursedir then recurse
                          else
                            (indexPath <- must_IndexPath (join parent fname) ;;
                             if dirHasTracked tracked indexPath then recurse
                             else collapsed_dir opts fname indexPath)
                    | FS.File _ _ _ =>
                        if ignored ignorePatterns' parent fname false then ret []
                        else scan_file root parent fname tracked
                    end) ;;
               more <- loop rest ;;
               ret (here ++ more))
          end) files)%cmd
  end.

(** The filter on explicitly requested paths.  [glob] tells the loop
    over the index entries, which also tries [MatchGlob], from the
    loop over the untracked files, which does not. *)
Fixpoint explicit_match (glob : bool) (f : string) (files : list string)
  : outcome bool :=
  match files with
  | [] => Ret false
  | explicit :: rest =>
      obind (Abs R explicit) (fun eAbs =>
      obind (Abs R f) (fun fAbs =>
        if String.eqb fAbs eAbs || HasPrefix fAbs (eAbs +:+ "/") then Ret true
        else if glob && MatchGlob R f explicit then Ret true
        else explicit_match glob f rest))
  end.

Definition selected (glob : bool) (f : string) (files : list string)
  : outcome bool :=
  if HasPrefix f "../" || negb (Nat.eqb (length files) 0)
  then explicit_match glob f files
  else Ret true.

(** [HashFile("blob", f)]. *)
Definition HashFile (f : string) : M Sha1 :=
  fun w =>
    match FS.ReadFile (tree w) f with
    | Some data => (Ret (hash_blob R data), w)
    | None => (Fail ("open " +:+ f +:+ ": cannot read"), w)
    end.

(** What the loop over the index appends for an entry that passed the
    filter. *)
Definition classify (opt : LsFilesOptions) (entry : IndexEntry) (f : string)
  : M (list LsFilesResult) :=
  fun w =>
    if Cached opt then
      (Ret [mkResult entry (if SkipWorktree entry then "S" else "H")%char], w)
    else if Deleted opt && negb (FS.Exists (tree w) f) then
      (Ret [mkResult entry "R"%char], w)
    else if Unmerged opt && negb (Z.eqb (Stage entry) 0) then
      (Ret [mkResult entry "M"%char], w)
    else if Modified opt then
      if FS.IsDir (tree w) f then (Ret [mkResult entry "C"%char], w)
      else
        match FS.Stat (tree w) f with
        | None => (Ret [mkResult entry "C"%char], w)
        | Some _ =>
            (hash <- HashFile f ;;
             if bool_decide (hash = Sha1_of entry) then ret []
             else ret [mkResult entry "C"%char])%cmd w
        end
    else (Ret [], w).

Fixpoint index_loop (opt : LsFilesOptions) (files : list string)
  (objects : Index) : M (list LsFilesResult) :=
  match objects with
  | [] => ret []
  | entry :: rest =>
      (f <- lift (FilePath_of R (PathName entry)) ;;
       keep <- lift (selected true f files) ;;
       here <- (if keep then classify opt entry f else ret []) ;;
       more <- index_loop opt files rest ;;
       ret (here ++ more))%cmd
  end.

(** The check of [ErrorUnmatch]. *)
Fixpoint error_unmatch (filesInIndex : gset string) (files : list string)
  : outcome unit :=
  match files with
  | [] => Ret tt
  | file :: rest =>
      obind (IndexPath_of R file) (fun indexPath =>
        if bool_decide (indexPath ∈ filesInIndex) then
          error_unmatch filesInIndex rest
        else Fail ("error: pathspec '" +:+ file +:+
                   "' did not match any file(s) known to git"))
  end.

Fixpoint parse_exclude_files (excludeFiles : list string)
  : M (list IgnorePattern) :=
  match excludeFiles with
  | [] => ret []
  | file :: rest =>
      (parsed <- reading (fun w => ParseIgnorePatterns R w file "") ;;
       patterns <- lift parsed ;;
       more <- parse_exclude_files rest ;;
       ret (patterns ++ more))%cmd
  end.

Fixpoint others_loop (files : list string) (others : list IndexEntry)
  : outcome (list LsFilesResult) :=
  match others with
  | [] => Ret []
  | file :: rest =>
      obind (FilePath_of R (PathName file)) (fun f =>
      obind (selected false f files) (fun keep =>
      obind (others_loop files rest) (fun more =>
        Ret ((if keep then [mkResult file "?"%char] else []) ++ more))))
  end.

(** [lsByPath.Less]. *)
Fixpoint bytes_less (i j : string) : bool :=
  match i with
  | EmptyString => true
  | String a i' =>
      match j with
      | EmptyString => false
      | String b j' =>
          if N.ltb (N_of_ascii a) (N_of_ascii b) then true
          else if N.ltb (N_of_ascii b) (N_of_ascii a) then false
          else bytes_less i' j'
      end
  end.

Definition Less (a b : LsFilesResult) : bool :=
  if String.eqb (PathName (entry_of a)) (PathName (entry_of b))
  then Z.ltb (Stage (entry_of a)) (Stage (entry_of b))
  else bytes_less (PathName (entry_of a)) (PathName (entry_of b)).

(** [sort.Sort(lsByPath(fs))], as an insertion sort: the library's
    sort may order two results of equal path and stage differently. *)
Fixpoint insert_sorted (x : LsFilesResult) (l : list LsFilesResult)
  : list LsFilesResult :=
  match l with
  | [] => [x]
  | y :: l' => if Less y x then y :: insert_sorted x l' else x :: y :: l'
  end.

Definition sort_results (fs : list LsFilesResult) : list LsFilesResult :=
  foldr insert_sorted [] fs.

Definition LsFiles (opt : LsFilesOptions) (files : list string)
  : M (list LsFilesResult) :=
  (index <- ReadIndex R ;;
   fs <- index_loop opt files index ;;
   let filesInIndex : gset string :=
     if Others opt || ErrorUnmatch opt
     then list_to_set (map PathName index) else ∅ in
   (if ErrorUnmatch opt then lift (error_unmatch filesInIndex files)
    else ret tt) ;;;
   if Others opt then
     let wd := WorkDir R in
     let excludeFiles :=
       if ExcludeStandard opt
       then (ExcludeFiles opt ++ [GitDir R +:+ "/info/exclude"])%list
       else ExcludeFiles opt in
     let perDirectory :=
       if ExcludeStandard opt
       then (ExcludePerDirectory opt ++ [".gitignore"])%list
       else ExcludePerDirectory opt in
     let opt' :=
       mkLsOpts (Cached opt) (Deleted opt) (Modified opt) (Others opt)
         (Unmerged opt) (Directory opt) (NoEmptyDirectory opt)
         (ExcludeStandard opt) (ExcludePatterns opt) excludeFiles
         perDirectory (ErrorUnmatch opt) in
     (fromFiles <- parse_exclude_files excludeFiles ;;
      let ignorePatterns :=
        (fromFiles ++
         map (fun pattern => mkPattern pattern "" 1 "") (ExcludePatterns opt))%list in
      root <- reading tree ;;
      others <- findUntrackedFilesFromDir opt' (wd +:+ "/") wd wd root
                  filesInIndex (negb (Directory opt)) ignorePatterns ;;
      unknown <- lift (others_loop files others) ;;
      ret (sort_results (fs ++ unknown)))
   else ret (sort_results fs))%cmd.

End WithRepo.

End Lsfiles.

(** ** git/checkout.go: CheckoutCommit *)

Module Checkout.

(** The options [CheckoutCommit] reads; the others are marked "Not
    implemented" in the source and never read. *)
Record CheckoutOptions := mkCoOpts {
  Force : bool;
  Branch : string;
  ForceBranch : bool;
  Detach : bool;
  IgnoreSkipWorktreeBits : bool
}.

(** The dynamic types a [Commitish] is inspected for. *)
Inductive Commitish :=
| IsRefSpec (name : string)
| IsBranch (name : string)
| IsCommitID (id : Sha1).

Record ReadTreeOptions := mkRtOpts {
  Reset : bool;
  Update : bool;
  NoSparseCheckout : bool
}.

(** Of a diff entry: [Name], [Dst.FileMode], [Dst.Sha1], [DstSize]. *)
Record HashDiff := mkDiff {
  Name : string;
  DstMode : Z;
  DstSha1 : Sha1;
  DstSize : Z
}.

Definition DetachedHead : error := "In Detached HEAD state".

(** The collaborators of [CheckoutCommit] that live in other source
    files.  The ones that only inspect the repository are functions of
    the state; the ones that change it are commands. *)
Record Collaborators := mkCollab {
  SymbolicRefGet : string -> World -> outcome Commitish;
  GetHeadCommit : World -> outcome Commitish;
  CommitID_of : Commitish -> World -> outcome Sha1;
  LsTree : Sha1 -> World -> outcome (list IndexEntry);
  DiffIndex : Sha1 -> World -> outcome (list HashDiff);
  DiffFiles : World -> outcome (list HashDiff);
  ReadTree : ReadTreeOptions -> Sha1 -> M Index;
  AddStage : Index -> string -> Z -> Sha1 -> Z -> Z -> outcome Index;
  CreateBranch : string -> Sha1 -> M unit;
  SymbolicRefUpdate : string -> string -> string -> M unit;
  UpdateRef : Commitish -> string -> Sha1 -> string -> M unit;
  BranchName : string -> string;
  show_id : Sha1 -> string
}.

(** [RefSpec.File(c).Exists()]. *)
Definition ref_exists (name : string) (w : World) : bool :=
  bool_decide (is_Some (refs w !! name)).

(** Modelled from the spec: [Index.GetMap] is in another source file;
    it is the "mapping path -> entry (stage-0 view, used by fast "is
    this path tracked" checks)": the entries of stage 0 by their path,
    of which a path has at most one.  [Contains] asks whether a path
    has one. *)
Definition GetMap (idx : Index) : gmap string IndexEntry :=
  list_to_map
    (map (fun e => (PathName e, e))
       (List.filter (fun e => Z.eqb (Stage e) 0) idx)).

Definition Contains (m : gmap string IndexEntry) (p : string) : bool :=
  bool_decide (is_Some (m !! p)).

Definition untracked_error (names : list string) : error :=
  "error: The following untracked working tree files would be overwritten by checkout:
" +:+ String.concat "" (map (fun n => String "009"%char n +:+ "
") names) +:+
  "Please move or remove them before you switch branches.
Aborting".

Definition modified_error (mfiles : list string) : error :=
  "error: Your local changes to the following files would be overwritten by checkout.
" +:+ String "009"%char (String.concat (String "010"%char (String "009"%char "")) mfiles) +:+ "
Please commit your changes or discard them before switching branches.".

Fixpoint mapM {A B} (f : A -> outcome B) (l : list A) : outcome (list B) :=
  match l with
  | [] => Ret []
  | x :: l' =>
      obind (f x) (fun y => obind (mapM f l') (fun ys => Ret (y :: ys)))
  end.

Section WithRepo.
Context (R : Repo) (C : Collaborators).

(** Modelled from the spec: [IndexPath.IsClean] is in another source
    file; the path is clean when its content on disk still has the
    recorded digest. *)
Definition IsClean (p : string) (sha1 : Sha1) (w : World) : bool :=
  match FilePath_of R p with
  | Ret f =>
      match FS.ReadFile (tree w) f with
      | Some data => bool_decide (hash_blob R data = sha1)
      | None => false
      end
  | _ => false
  end.

(** [os.Remove(f)]. *)
Definition Remove (f : string) : M unit :=
  fun w =>
    match remove_error w f with
    | Some e => (Fail e, w)
    | None =>
        match FS.Remove (tree w) f with
        | Some t => (Ret tt, with_tree w t)
        | None => (Fail ("remove " +:+ f +:+ ": cannot remove"), w)
        end
    end.

(** [os.RemoveAll(f)]: the error is the one of the system, which
    refuses the removal before anything is removed. *)
Definition RemoveAll (f : string) : M unit :=
  fun w =>
    match remove_error w f with
    | Some e => (Fail e, w)
    | None => (Ret tt, with_tree w (FS.RemoveAll (tree w) f))
    end.

(** The first safety check: the files of the target tree that are on
    disk and not in the index. *)
Definition check_untracked (cid : Sha1) : M unit :=
  (lstree <- reading (LsTree C cid) ;;
   lstree <- lift lstree ;;
   newfiles <- lift (mapM (fun entry => FilePath_of R (PathName entry)) lstree) ;;
   untracked <- Lsfiles.LsFiles R
                  (Lsfiles.mkLsOpts false false false true false false false
                     false [] [] [] false) newfiles ;;
   if negb (Nat.eqb (length untracked) 0) then
     fail (untracked_error
             (map (fun f => PathName (Lsfiles.entry_of f)) untracked))
   else ret tt)%cmd.

(** The second safety check: tracked files modified on disk. *)
Definition check_modified : M unit :=
  (modifieddiffs <- reading (DiffFiles C) ;;
   modifieddiffs <- lift modifieddiffs ;;
   if negb (Nat.eqb (length modifieddiffs) 0) then
     (mfiles <- lift (mapM (fun m => FilePath_of R (Name m)) modifieddiffs) ;;
      fail (modified_error mfiles))
   else ret tt)%cmd.

(** The body of the loop labelled [newfiles], for one entry of the
    index read from the target tree.  The state of the loop is the new
    index and [checkoutfiles].  The body of the loop over [stageddiffs]
    ends in [continue newfiles] on every path, so that only its first
    element is ever visited. *)
Definition mark_entry (opts : CheckoutOptions) (stageddiffs : list HashDiff)
  (obj : IndexEntry) (st : Index * list string) : M (Index * list string) :=
  let '(idx, checkoutfiles) := st in
  (f <- lift (FilePath_of R (PathName obj)) ;;
   if SkipWorktree obj && negb (IgnoreSkipWorktreeBits opts) then
     (present <- reading (fun w => FS.Exists (tree w) f) ;;
      (if present then Remove f else ret tt) ;;;
      ret (idx, checkoutfiles))
   else if negb (Force opts) then
     match stageddiffs with
     | staged :: _ =>
         (idx' <- lift (AddStage C idx (Name staged) (DstMode staged)
                          (DstSha1 staged) 0 (uint32 (DstSize staged))) ;;
          ret (idx', checkoutfiles))
     | [] => ret (idx, checkoutfiles ++ [f])
     end
   else ret (idx, checkoutfiles))%cmd.

(** [for _, obj := range idx.Objects]: the range is over the entries
    the index has when the loop starts. *)
Fixpoint mark_loop (opts : CheckoutOptions) (stageddiffs : list HashDiff)
  (objects : list IndexEntry) (st : Index * list string)
  : M (Index * list string) :=
  match objects with
  | [] => ret st
  | obj :: rest =>
      (st' <- mark_entry opts stageddiffs obj st ;;
       mark_loop opts stageddiffs rest st')%cmd
  end.

(** "Delete any old files". *)
Definition delete_old_entry (newidxmap : gmap string IndexEntry)
  (obj : IndexEntry) : M unit :=
  if negb (Contains newidxmap (PathName obj)) then
    (clean <- reading (IsClean (PathName obj) (Sha1_of obj)) ;;
     if clean then
       (f <- lift (FilePath_of R (PathName obj)) ;; RemoveAll f)
     else ret tt)%cmd
  else ret tt.

Fixpoint delete_old (newidxmap : gmap string IndexEntry)
  (objects : list IndexEntry) : M unit :=
  match objects with
  | [] => ret tt
  | obj :: rest =>
      (delete_old_entry newidxmap obj ;;; delete_old newidxmap rest)%cmd
  end.

Definition moving (origB target : string) : string :=
  "checkout: moving from " +:+ origB +:+ " to " +:+ target +:+ " (dgit)".

(** The move of HEAD that ends the command. *)
Definition move_head (opts : CheckoutOptions) (commit head : Commitish)
  (cid : Sha1) : M unit :=
  (origB <- reading (fun w =>
              match head with
              | IsRefSpec h => BranchName C h
              | _ =>
                  match CommitID_of C head w with
                  | Ret h => show_id C h
                  | _ => ""
                  end
              end) ;;
   if negb (String.eqb (Branch opts) "") then
     (CreateBranch C (Branch opts) cid ;;;
      SymbolicRefUpdate C "HEAD" ("refs/heads/" +:+ Branch opts)
        (moving origB (Branch opts)))
   else
     match commit with
     | IsBranch b =>
         if negb (Detach opts) then
           SymbolicRefUpdate C "HEAD" b (moving origB (BranchName C b))
         else UpdateRef C head "HEAD" cid (moving origB (show_id C cid))
     | _ => UpdateRef C head "HEAD" cid (moving origB (show_id C cid))
     end)%cmd.

Definition CheckoutCommit (opts : CheckoutOptions) (commit : Commitish)
  : M unit :=
  (exists_ <- reading (ref_exists ("refs/heads/" +:+ Branch opts)) ;;
   if negb (String.eqb (Branch opts) "") && exists_ && negb (ForceBranch opts)
   then fail ("Branch " +:+ Branch opts +:+ " already exists.")
   else
     (got <- reading (SymbolicRefGet C "HEAD") ;;
      head <- match got with
              | Ret h => ret h
              | Fail e =>
                  if String.eqb e DetachedHead
                  then (h <- reading (GetHeadCommit C) ;; lift h)
                  else fail e
              | Panic p => lift (Panic p)
              end ;;
      cid <- reading (CommitID_of C commit) ;;
      cid <- lift cid ;;
      (if negb (Force opts) then check_untracked cid else ret tt) ;;;
      let readtreeopts :=
        mkRtOpts true (Force opts) (IgnoreSkipWorktreeBits opts) in
      headtree <- reading (CommitID_of C head) ;;
      headtree <- lift headtree ;;
      stageddiffs <- reading (DiffIndex C headtree) ;;
      stageddiffs <- lift stageddiffs ;;
      (if negb (Force opts) then check_modified else ret tt) ;;;
      origidx <- ReadIndex R ;;
      idx <- ReadTree C readtreeopts cid ;;
      marked <- mark_loop opts stageddiffs idx (idx, []) ;;
      let '(idx, checkoutfiles) := marked in
      save_index R idx ;;;
      delete_old (GetMap idx) origidx ;;;
      Checkoutindex.CheckoutIndex R
        (Checkoutindex.mkOpts true false true false false "") checkoutfiles ;;;
      move_head opts commit head cid))%cmd.

End WithRepo.

End Checkout.

(** ** Concrete repositories used to evaluate the models *)

Module Examples.

Definition sha_a : Sha1 := bytes_of_string "aaaaaaaaaaaaaaaaaaaa".
Definition sha_b : Sha1 := bytes_of_string "bbbbbbbbbbbbbbbbbbbb".

(** A stream that declares five bytes and carries three. *)
Definition short_stream : bytes :=
  bytes_of_string "blob 5" ++ x00 :: bytes_of_string "abc".

Definition good_stream : bytes :=
  bytes_of_string "blob 3" ++ x00 :: bytes_of_string "abc".

(** [sha_a] is stored loose with [short_stream]; nothing else is
    stored. *)
Definition short_store : Objects.ObjectStore :=
  Objects.mkStore
    (fun s => (bool_decide (s = sha_a), false, None))
    (fun s => if bool_decide (s = sha_a) then Objects.Inflated short_stream
              else Objects.NoSuchFile).

(** [sha_b] is only in a pack. *)
Definition packed_store : Objects.ObjectStore :=
  Objects.mkStore
    (fun s => (bool_decide (s = sha_b), bool_decide (s = sha_b), None))
    (fun s => Objects.NoSuchFile).

(** A small serialization of the index: for each entry its path, a
    zero byte and the low byte of its modification time. *)
Definition low_byte (z : Z) : byte :=
  default x00 (Byte.of_N (Z.to_N (z mod 256))).

Definition toy_encode (idx : Index) : bytes :=
  concat (map (fun e => bytes_of_string (PathName e)
                          ++ [x00; low_byte (Mtime e)]) idx).

(** The repository of the examples: paths of the index are paths of
    the command line and of the system, the index file decodes to
    [idx] when it holds the encoding of [idx], and the hash of a
    blob is the first twenty bytes of its content. *)
Definition toy_repo (idx : Index)
  (matches : IgnorePattern -> string -> bool -> bool) : Repo :=
  mkRepo "/repo" "/repo/.git"
    (fun p => Ret ("/repo/" +:+ p))
    (fun _ _ => false)
    matches
    (fun _ _ _ => Ret [])
    (fun p => Ret p)
    (fun p => Ret p)
    (fun b => if bool_decide (b = toy_encode idx) then Ret idx
              else Fail "corrupt index")
    toy_encode
    (fun data => take 20 data).

Definition no_match (_ : IgnorePattern) (_ : string) (_ : bool) : bool := false.

Definition readme : IndexEntry := mkEntry "README" sha_a 420 3 0 0 0 false.

(** [sha_a] holds the three bytes of README; [sha_b] has an object
    file that does not inflate. *)
Definition good_store : Objects.ObjectStore :=
  Objects.mkStore
    (fun s => (true, false, None))
    (fun s => if bool_decide (s = sha_a) then Objects.Inflated good_stream
              else Objects.ZlibHeaderError "zlib: invalid header").

Definition world_of (st : Objects.ObjectStore) (t : FS.node) (idx : Index)
  (limit : option nat) : World :=
  mkWorld st t {[ index_file := toy_encode idx ]} ∅ (FS.mkTime 1000 5)
    true limit [] 18 (fun _ => None).

Definition empty_dir : FS.node := FS.Dir [].

Definition update_stat_opts : Checkoutindex.CheckoutIndexOptions :=
  Checkoutindex.mkOpts true false true false false "".



(** An entry whose object cannot be fetched, and a working directory
    in which its file is present. *)
Definition broken : IndexEntry := mkEntry "README" sha_b 420 3 0 0 0 false.

Definition readme_dir : FS.node :=
  FS.Dir [("README", FS.File (bytes_of_string "xyz") 420 (FS.mkTime 7 0))].

Definition plain_opts : Checkoutindex.CheckoutIndexOptions :=
  Checkoutindex.mkOpts false false false false false "".

Definition broken_world : World :=
  world_of good_store readme_dir [broken] None.

(** The same checkout as [checkout_run] when the writer of the index
    accepts three bytes. *)
Definition cut_world : World :=
  world_of good_store empty_dir [readme] (Some 3%nat).

Definition cut_run : outcome unit * World :=
  Checkoutindex.CheckoutIndex (toy_repo [readme] no_match)
    update_stat_opts ["README"] cut_world.

(** Modelled from the spec: [IgnorePattern.Matches] is in another
    source file.  A pattern is a glob in which [*] stands for any
    run of characters; a leading [!] marks a pattern that re-includes
    and a trailing [/] one that matches directories only. *)
Fixpoint glob (pat : string) : string -> bool :=
  match pat with
  | EmptyString => fun s => String.eqb s ""
  | String c pat' =>
      if Ascii.eqb c "*"%char then
        fix star (s : string) : bool :=
          glob pat' s ||
          match s with
          | EmptyString => false
          | String _ s' => star s'
          end
      else
        fun s =>
          match s with
          | String d s' => Ascii.eqb c d && glob pat' s'
          | EmptyString => false
          end
  end.

Definition negated (p : IgnorePattern) : bool :=
  Lsfiles.HasPrefix (Pattern p) "!".

Fixpoint strip_slash (s : string) : string * bool :=
  match s with
  | EmptyString => (EmptyString, false)
  | String c EmptyString =>
      if Ascii.eqb c "/"%char then (EmptyString, true)
      else (String c EmptyString, false)
  | String c s' => let '(body, d) := strip_slash s' in (String c body, d)
  end.

Definition glob_matches (p : IgnorePattern) (name : string) (isdir : bool)
  : bool :=
  let body := if negated p then Lsfiles.drop_string 1 (Pattern p)
              else Pattern p in
  let '(g, dironly) := strip_slash body in
  (negb dironly || isdir) && glob g name.

Definition star_log : IgnorePattern := mkPattern "*.log" "" 1 "".
Definition not_keep_log : IgnorePattern := mkPattern "!keep.log" "" 1 "".

(** A tracked file whose bytes hash to the recorded digest while its
    modification time is not the recorded one. *)
Definition abc_entry : IndexEntry :=
  mkEntry "README" (bytes_of_string "abc") 420 3 0 0 0 false.

Definition abc_dir : FS.node :=
  FS.Dir [("README", FS.File (bytes_of_string "abc") 420 (FS.mkTime 99 0))].

Definition abc_world : World := world_of good_store abc_dir [abc_entry] None.

Definition modified_opts : Lsfiles.LsFilesOptions :=
  Lsfiles.mkLsOpts false false true false false false false false [] [] [] false.

Definition modified_run : outcome (list Lsfiles.LsFilesResult) * World :=
  Lsfiles.LsFiles (toy_repo [abc_entry] no_match) modified_opts [] abc_world.

(** Modelled from the spec: [Index.AddStage] is in another source
    file; it replaces the entry of the same path and stage or inserts
    the new one at its place in the order of the index. *)
Definition entry_before (a b : IndexEntry) : bool :=
  if String.eqb (PathName a) (PathName b) then Z.ltb (Stage a) (Stage b)
  else Lsfiles.bytes_less (PathName a) (PathName b).

Fixpoint upsert (e : IndexEntry) (idx : Index) : Index :=
  match idx with
  | [] => [e]
  | x :: rest =>
      if String.eqb (PathName x) (PathName e) && Z.eqb (Stage x) (Stage e)
      then e :: rest
      else if entry_before e x then e :: x :: rest
      else x :: upsert e rest
  end.

(** Collaborators for the examples: HEAD is the branch master, every
    commit-ish resolves to [sha_b], whose tree is [lstree]; the staged
    changes are [staged] and no tracked file is modified. *)
Definition toy_collab (lstree : list IndexEntry)
  (staged : list Checkout.HashDiff) : Checkout.Collaborators :=
  Checkout.mkCollab
    (fun _ _ => Ret (Checkout.IsRefSpec "refs/heads/master"))
    (fun _ => Ret (Checkout.IsCommitID sha_a))
    (fun _ _ => Ret sha_b)
    (fun _ _ => Ret lstree)
    (fun _ _ => Ret staged)
    (fun _ => Ret [])
    (fun _ _ => ret lstree)
    (fun idx name mode sha1 stage size =>
       Ret (upsert (mkEntry name sha1 mode size 0 0 stage false) idx))
    (fun name cid =>
       modify (fun w => with_refs w (<["refs/heads/" +:+ name := "commit"]> (refs w))))
    (fun name target _ =>
       modify (fun w => with_refs w (<[name := "ref: " +:+ target]> (refs w))))
    (fun _ name _ _ =>
       modify (fun w => with_refs w (<[name := "commit"]> (refs w))))
    (fun name => name)
    (fun _ => "commit").

Definition plain_checkout : Checkout.CheckoutOptions :=
  Checkout.mkCoOpts false "" false false false.

(** Scenario: the index has README; the working directory has README
    and an untracked notes.txt; the target tree has both. *)
Definition notes_dir : FS.node :=
  FS.Dir [("README", FS.File (bytes_of_string "abc") 420 (FS.mkTime 7 0));
          ("notes.txt", FS.File (bytes_of_string "mine") 420 (FS.mkTime 8 0))].


Definition notes_world : World := world_of good_store notes_dir [abc_entry] None.

(** Staged changes: the target tree has [a] and [b], and only [a] has
    a staged change. *)
Definition entry_a : IndexEntry := mkEntry "a" sha_a 420 3 0 0 0 false.
Definition entry_b : IndexEntry := mkEntry "b" sha_a 420 3 0 0 0 false.
Definition staged_a : Checkout.HashDiff := Checkout.mkDiff "a" 420 sha_b 3.

Definition staged_world : World :=
  world_of good_store empty_dir [entry_a; entry_b] None.

(** Old files: the old index has README, whose file still has the
    recorded digest, and NOTES, whose file was edited since; the new
    index has neither. *)
Definition notes_entry : IndexEntry :=
  mkEntry "NOTES" (bytes_of_string "old") 420 3 0 0 0 false.

Definition edited_dir : FS.node :=
  FS.Dir [("README", FS.File (bytes_of_string "abc") 420 (FS.mkTime 7 0));
          ("NOTES", FS.File (bytes_of_string "edited") 420 (FS.mkTime 8 0))].

Definition edited_world : World :=
  world_of good_store edited_dir [abc_entry; notes_entry] None.

(** [sha_a] is stored loose with a stream that has the tag and a
    length and stops there. *)
Definition unterminated_store : Objects.ObjectStore :=
  Objects.mkStore
    (fun s => (true, false, None))
    (fun s => Objects.Inflated (bytes_of_string "blob 5")).

(** README is requested while a README with other bytes is there. *)
Definition readme_world : World :=
  world_of good_store readme_dir [readme] None.

Definition no_create_opts : Checkoutindex.CheckoutIndexOptions :=
  Checkoutindex.mkOpts false false true false true "".

Definition quiet_opts : Checkoutindex.CheckoutIndexOptions :=
  Checkoutindex.mkOpts false true false false false "".

(** Listings: an index that has [b] before [a], a working directory
    that has [b] only. *)
Definition b_dir : FS.node :=
  FS.Dir [("b", FS.File (bytes_of_string "abc") 420 (FS.mkTime 7 0))].

Definition ba_world : World :=
  world_of good_store b_dir [entry_b; entry_a] None.

Definition cached_opts : Lsfiles.LsFilesOptions :=
  Lsfiles.mkLsOpts true false false false false false false false [] [] []
    false.

Definition deleted_opts : Lsfiles.LsFilesOptions :=
  Lsfiles.mkLsOpts false true false false false false false false [] [] []
    false.

Definition error_unmatch_opts : Lsfiles.LsFilesOptions :=
  Lsfiles.mkLsOpts true false false false false false false false [] [] []
    true.



(** A target tree in which [b] is kept out of the working directory. *)
Definition sparse_b : IndexEntry := mkEntry "b" sha_a 420 3 0 0 0 true.

Definition force_checkout : Checkout.CheckoutOptions :=
  Checkout.mkCoOpts true "" false false false.


(** README with the mode git records for a regular file, octal
    100644. *)
Definition regular : IndexEntry := mkEntry "README" sha_a 33188 3 0 0 0 false.

(** [sha_a] is stored as in [good_store]; [sha_b] has no object
    file. *)
Definition missing_store : Objects.ObjectStore :=
  Objects.mkStore
    (fun s => (bool_decide (s = sha_a), false, None))
    (fun s => if bool_decide (s = sha_a) then Objects.Inflated good_stream
              else Objects.NoSuchFile).

(** README is in the working directory, and the object of its entry
    is missing from the store. *)
Definition missing_world : World :=
  world_of missing_store readme_dir [broken] None.

Definition missing_run : outcome unit * World :=
  Checkoutindex.CheckoutIndex (toy_repo [broken] no_match)
    plain_opts ["README"] missing_world.

(** A directory with two logs and a README. *)
Definition logs_dir : FS.node :=
  FS.Dir [("keep.log", FS.File (bytes_of_string "k") 420 (FS.mkTime 1 0));
          ("README", FS.File (bytes_of_string "abc") 420 (FS.mkTime 2 0));
          ("debug.log", FS.File (bytes_of_string "d") 420 (FS.mkTime 3 0))].

Definition logs_world : World := world_of good_store logs_dir [] None.

End Examples.

(** The decimal rendering of a natural number, as the header of a
    stored object has it. *)
Definition digit_byte (d : Z) : byte :=
  default x00 (Byte.of_N (Z.to_N (48 + d))).

Fixpoint decimal_aux (fuel : nat) (n : Z) (acc : bytes) : bytes :=
  match fuel with
  | O => acc
  | S fuel' =>
      if n <? 10 then digit_byte n :: acc
      else decimal_aux fuel' (n / 10) (digit_byte (n mod 10) :: acc)
  end.

Definition decimal (n : Z) : bytes :=
  decimal_aux (S (Z.to_nat (Z.log2 n))) n [].

(** [ds] is a run of decimal digits that [Atoi]'s digit loop reads as
    [n]. *)
Definition is_decimal (n : Z) (ds : bytes) : Prop :=
  ds <> [] /\
  Forall (fun b => 48 <= Objects.byteZ b <= 57) ds /\
  forall acc rest,
    Objects.digits_value acc (ds ++ rest)
    = Objects.digits_value (acc * 10 ^ Z.of_nat (length ds) + n) rest.

(** The stream of a loose blob: the tag, the decimal length of the
    content, a zero byte, the content. *)
Definition blob_stream (body : bytes) : bytes :=
  bytes_of_string "blob " ++ decimal (Z.of_nat (length body)) ++ x00 :: body.


(** ** checkout.go: [CheckoutFiles] *)

Module Checkoutfiles.
Import Checkout.

Section WithRepo.
Context (R : Repo).
(** [LsTree] with a list of paths, [ReadTree] with [DryRun] and
    [CheckoutIndexUncommited] are in other source files. *)
Context (LsTreeFiles : Sha1 -> list string -> World -> outcome (list IndexEntry)).
Context (ReadTreeDry : Sha1 -> M Index).
Context (CheckoutIndexUncommited :
           Index -> Checkoutindex.CheckoutIndexOptions -> list string -> M unit).

(** The loop over [expandedfiles]; [files] is the slice it appends
    to.  The flag that is read is the one of the entry the index has
    for the path, the loop variable being shadowed by it. *)
Fixpoint expand (opts : CheckoutOptions) (imap : gmap string IndexEntry)
  (expandedfiles : list IndexEntry) (files : list string)
  : outcome (list string) :=
  match expandedfiles with
  | [] => Ret files
  | entry :: rest =>
      obind (FilePath_of R (PathName entry)) (fun f =>
        if IgnoreSkipWorktreeBits opts then expand opts imap rest (files ++ [f])
        else
          match imap !! PathName entry with
          | Some entry' =>
              if SkipWorktree entry' then expand opts imap rest files
              else expand opts imap rest (files ++ [f])
          | None => expand opts imap rest (files ++ [f])
          end)
  end.

Definition CheckoutFiles (opts : CheckoutOptions) (tree : Sha1)
  (files : list string) : M unit :=
  (index <- ReadIndex R ;;
   let imap := GetMap index in
   expandedfiles <- reading (LsTreeFiles tree files) ;;
   expandedfiles <- lift expandedfiles ;;
   files <- lift (expand opts imap expandedfiles []) ;;
   treeidx <- ReadTreeDry tree ;;
   CheckoutIndexUncommited treeidx
     (Checkoutindex.mkOpts true false true false false "") files)%cmd.

End WithRepo.

End Checkoutfiles.

(** Whether [CheckoutFiles] passes the path of an expanded entry on:
    always when the skip-worktree flags are ignored, otherwise unless
    the index has an entry for the path that carries the flag. *)
Definition passed_on (opts : Checkout.CheckoutOptions)
  (imap : gmap string IndexEntry) (entry : IndexEntry) : bool :=
  Checkout.IgnoreSkipWorktreeBits opts ||
  negb (from_option SkipWorktree false (imap !! PathName entry)).


(** ** Notions used in the statements *)

Ltac unfold_cmd :=
  unfold bind, ret, fail, lift, reading, modify in *.

(** The fields of an entry other than the two of the modification
    time. *)
Definition same_but_mtime (e e' : IndexEntry) : Prop :=
  PathName e' = PathName e /\ Sha1_of e' = Sha1_of e /\ Mode e' = Mode e /\
  Fsize e' = Fsize e /\ Stage e' = Stage e /\
  SkipWorktree e' = SkipWorktree e.

Section Notions.
Import Checkoutindex.
Context (R : Repo).

(** The iteration reaches the statements after the skip: the requested
    file names the entry, and the target is absent or the checkout is
    forced. *)
Definition proceeds (opts : CheckoutIndexOptions) (entry : IndexEntry)
  (file : string) (w : World) : Prop :=
  IndexPath_of R file = Ret (PathName entry) /\
  (FS.Exists (tree w) (Prefix opts +:+ file) && negb (Force opts)) = false.

(** The skip is taken. *)
Definition skipped (opts : CheckoutIndexOptions) (entry : IndexEntry)
  (file : string) (w : World) : Prop :=
  IndexPath_of R file = Ret (PathName entry) /\
  (FS.Exists (tree w) (Prefix opts +:+ file) && negb (Force opts)) = true.

(** The state the skip leaves: the diagnostic is printed unless
    [Quiet] is set. *)
Definition after_skip (opts : CheckoutIndexOptions) (entry : IndexEntry)
  (w : World) : World :=
  if Quiet opts then w
  else eprint w (PathName entry +:+ " already exists, no checkout" +:+ nl).

(** The evaluation of ignore patterns as the specification words it:
    the verdict is that of the last pattern that matches, a pattern
    that starts with [!] giving "not ignored", and "not ignored" when
    no pattern matches. *)
Definition spec_last_match_wins (patterns : list IgnorePattern)
  (candidate : string) (isdir : bool) : bool :=
  fold_left
    (fun verdict p =>
       if Matches R p candidate isdir
       then negb (Lsfiles.HasPrefix (Pattern p) "!") else verdict)
    patterns false.

(** The mode selector [modified] alone. *)
Definition modified_only (opt : Lsfiles.LsFilesOptions) : Prop :=
  Lsfiles.Modified opt = true /\ Lsfiles.Cached opt = false /\
  Lsfiles.Deleted opt = false /\ Lsfiles.Unmerged opt = false /\
  Lsfiles.Others opt = false /\ Lsfiles.ErrorUnmatch opt = false.



(** The options of the first safety check of commit-level checkout:
    [LsFilesOptions{Others: true}]. *)
Definition others_only : Lsfiles.LsFilesOptions :=
  Lsfiles.mkLsOpts false false false true false false false false [] [] []
    false.



(** What a run of path-scoped checkout keeps of the state it starts
    in, whatever the run does. *)
Definition checkout_keeps (opts : CheckoutIndexOptions) (w w' : World)
  : Prop :=
  store w' = store w /\ refs w' = refs w /\ now w' = now w /\
  gitdir_writable w' = gitdir_writable w /\
  write_limit w' = write_limit w /\
  (Quiet opts = true -> stderr w' = stderr w) /\
  (NoCreate opts = true -> tree w' = tree w) /\
  (Force opts = false ->
   forall q d, FS.ReadFile (tree w) q = Some d ->
               FS.ReadFile (tree w') q = Some d).


(** [x] may stand before [y] in a sorted result: [y] is not less than
    [x]. *)
Definition not_after (x y : Lsfiles.LsFilesResult) : Prop :=
  Lsfiles.Less y x = false.


(** The state is as it was, but for what was printed. *)
Definition only_prints (w w' : World) : Prop :=
  store w' = store w /\ tree w' = tree w /\ gitfiles w' = gitfiles w /\
  refs w' = refs w /\ now w' = now w /\
  gitdir_writable w' = gitdir_writable w /\ write_limit w' = write_limit w.

(** A command that at most prints, and whose entries, when it returns
    some, all satisfy [P]. *)
Definition prints_and_yields (P : IndexEntry -> Prop)
  (m : M (list IndexEntry)) : Prop :=
  forall w r w', m w = (r, w') ->
    only_prints w w' /\ forall l, r = Ret l -> Forall P l.


End Notions.

(** * Properties *)

(** ** Object retrieval *)

Section ObjectFacts.
Import Objects.

Lemma first_zero_app (pre post : bytes) (k : nat) :
  Forall (fun b => byteZ b <> 0) pre ->
  first_zero k (pre ++ x00 :: post) = Some (k + length pre)%nat.
Proof.
  intros Hpre. revert k.
  induction Hpre as [|b pre Hb _ IH]; intros k; simpl.
  - f_equal. lia.
  - destruct (Z.eqb_spec (byteZ b) 0) as [E|_]; [contradiction|].
    rewrite IH. f_equal. lia.
Qed.

Lemma blob_tag_nonzero :
  Forall (fun b => byteZ b <> 0) (bytes_of_string "blob ").
Proof. repeat constructor; discriminate. Qed.

(** What the ["blob "] branch makes of a well-formed stream: the size
    is the header's number, the content is what follows the zero. *)
Lemma parse_blob_stream (hdr body : bytes) :
  Forall (fun b => byteZ b <> 0) hdr ->
  parse_blob (bytes_of_string "blob " ++ hdr ++ x00 :: body)
  = mkBlob (fst (Atoi hdr)) body.
Proof.
  intros Hhdr. unfold parse_blob.
  rewrite (app_assoc _ hdr).
  rewrite first_zero_app by (apply Forall_app; split; [apply blob_tag_nonzero|done]).
  rewrite length_app. simpl length. simpl Nat.add.
  f_equal.
  - f_equal. f_equal. unfold slice. simpl.
    replace (length hdr - 0)%nat with (length hdr) by lia.
    rewrite drop_0, take_app_length. reflexivity.
  - change (S (S (S (S (S (S (length hdr)))))))
      with (5 + S (length hdr))%nat.
    rewrite <- (app_assoc _ hdr). simpl.
    replace (hdr ++ x00 :: body) with ((hdr ++ [x00]) ++ body)
      by (rewrite <- app_assoc; reflexivity).
    rewrite drop_app_length'; [reflexivity|].
    rewrite length_app. simpl. lia.
Qed.

Lemma has_blob_tag_stream (rest : bytes) :
  has_blob_tag (bytes_of_string "blob " ++ rest) = true.
Proof. reflexivity. Qed.

End ObjectFacts.

(** C2, as stated, fails: the stream of [sha_a] declares a size of 5
    and carries 3 bytes of content after the zero byte, and [GetObject]
    returns the object with both, without an error. *)
Lemma C2_counterexample :
  Objects.objfile Examples.short_store Examples.sha_a
    = Objects.Inflated
        (bytes_of_string "blob " ++ bytes_of_string "5" ++
         x00 :: bytes_of_string "abc") /\
  fst (Objects.Atoi (bytes_of_string "5"))
    <> Z.of_nat (length (bytes_of_string "abc")) /\
  Objects.GetObject Examples.short_store Examples.sha_a
    = Ret (Objects.mkBlob 5 (bytes_of_string "abc")) /\
  ~ is_error (Objects.GetObject Examples.short_store Examples.sha_a).
Proof.
  split; [reflexivity|]. split; [discriminate|].
  split; [reflexivity|]. intros H. exact H.
Qed.

(** C2, amended: for a loose blob whose declared size is not the number
    of content bytes after the zero byte, [GetObject] returns without
    error a blob that records the declared size and holds the bytes
    that are there; the mismatch is found when the content is asked
    for: [GetContent] panics and hands out no bytes. *)
Theorem C2_mismatch_panics_in_GetContent
  (st : Objects.ObjectStore) (sha1 : Sha1) (found : bool)
  (hdr body : bytes) :
  Objects.HaveObject st sha1 = (found, false, None) ->
  Objects.objfile st sha1
    = Objects.Inflated (bytes_of_string "blob " ++ hdr ++ x00 :: body) ->
  Forall (fun b => Objects.byteZ b <> 0) hdr ->
  fst (Objects.Atoi hdr) <> Z.of_nat (length body) ->
  let obj := Objects.mkBlob (fst (Objects.Atoi hdr)) body in
  Objects.GetObject st sha1 = Ret obj /\
  Objects.GetSize obj = fst (Objects.Atoi hdr) /\
  terminates_process (Objects.GetContent obj).
Proof.
  intros Hhave Hfile Hhdr Hne obj.
  split; [|split].
  - unfold Objects.GetObject. rewrite Hhave, Hfile.
    rewrite has_blob_tag_stream, parse_blob_stream by done. reflexivity.
  - reflexivity.
  - unfold Objects.GetContent, obj. simpl.
    destruct (Z.eqb_spec (Z.of_nat (length body)) (fst (Objects.Atoi hdr)))
      as [E|_]; [congruence|exact I].
Qed.

Lemma C2_mismatch_panics_in_GetContent_witness :
  Objects.HaveObject Examples.short_store Examples.sha_a = (true, false, None) /\
  Objects.GetObject Examples.short_store Examples.sha_a
    = Ret (Objects.mkBlob 5 (bytes_of_string "abc")) /\
  terminates_process
    (Objects.GetContent (Objects.mkBlob 5 (bytes_of_string "abc"))).
Proof.
  split; [reflexivity|].
  destruct (C2_mismatch_panics_in_GetContent Examples.short_store
              Examples.sha_a true (bytes_of_string "5")
              (bytes_of_string "abc")) as (H1 & _ & H3).
  - reflexivity.
  - reflexivity.
  - repeat constructor; discriminate.
  - discriminate.
  - split; [exact H1 | exact H3].
Defined.

(** C5, as stated, fails: a digest with no object file makes
    [GetObject] panic, which is not an error result and terminates the
    process. *)
Lemma C5_counterexample :
  Objects.objfile Examples.short_store Examples.sha_b = Objects.NoSuchFile /\
  Objects.GetObject Examples.short_store Examples.sha_b
    = Panic "Couldn't open object file." /\
  ~ is_error (Objects.GetObject Examples.short_store Examples.sha_b) /\
  terminates_process (Objects.GetObject Examples.short_store Examples.sha_b).
Proof.
  split; [reflexivity|]. split; [reflexivity|].
  split; [intros H; exact H | exact I].
Qed.

(** C5, amended: for a digest that [HaveObject] reports as packed,
    [GetObject] returns an explicit error of its own, different from
    [InvalidObject]; for a digest that is not packed and has no object
    file, or for which [HaveObject] itself fails, [GetObject] panics. *)
Theorem C5_packed_is_an_error_missing_panics
  (st : Objects.ObjectStore) (sha1 : Sha1)
  (found packed : bool) (err : option error) :
  Objects.HaveObject st sha1 = (found, packed, err) ->
  (packed = true \/ is_Some err \/ Objects.objfile st sha1 = Objects.NoSuchFile) ->
  (if packed
   then Objects.GetObject st sha1 = Fail Objects.PackedUnsupported
   else terminates_process (Objects.GetObject st sha1)) /\
  Objects.PackedUnsupported <> Objects.InvalidObject.
Proof.
  intros Hhave Hcase. split; [|discriminate].
  unfold Objects.GetObject. rewrite Hhave.
  destruct packed; [reflexivity|].
  destruct err as [e|]; [exact I|].
  destruct Hcase as [Hp|[[e He]|Hf]]; [discriminate|discriminate|].
  rewrite Hf. exact I.
Qed.

Lemma C5_packed_is_an_error_missing_panics_witness :
  Objects.GetObject Examples.packed_store Examples.sha_b
    = Fail Objects.PackedUnsupported /\
  terminates_process (Objects.GetObject Examples.packed_store Examples.sha_a).
Proof.
  split.
  - apply (C5_packed_is_an_error_missing_panics Examples.packed_store
             Examples.sha_b true true None); [reflexivity | left; reflexivity].
  - apply (C5_packed_is_an_error_missing_panics Examples.packed_store
             Examples.sha_a false false None);
      [reflexivity | right; right; reflexivity].
Defined.

(** ** Path-scoped checkout *)

Section CheckoutIndexFacts.
Import Checkoutindex.
Context (R : Repo).

Lemma same_but_mtime_refl e : same_but_mtime e e.
Proof. repeat split. Qed.

Lemma same_but_mtime_set e t : same_but_mtime e (set_mtime e t).
Proof. repeat split. Qed.

Lemma same_but_mtime_trans e1 e2 e3 :
  same_but_mtime e1 e2 -> same_but_mtime e2 e3 -> same_but_mtime e1 e3.
Proof.
  unfold same_but_mtime. intros (?&?&?&?&?&?) (?&?&?&?&?&?).
  repeat split; congruence.
Qed.

Lemma diagnostic_gitfiles q line w r w' :
  diagnostic q line w = (r, w') -> r = Ret tt /\ gitfiles w' = gitfiles w
  /\ tree w' = tree w /\ store w' = store w.
Proof.
  unfold diagnostic. destruct q; unfold_cmd; intros [= <- <-]; auto.
Qed.

Lemma checkout_file_result opts entry file w r w' :
  checkout_file R opts entry file w = (r, w') ->
  gitfiles w' = gitfiles w /\
  forall e', r = Ret e' ->
    (e' = entry /\
     ~ (proceeds R opts entry file w /\ UpdateStat opts = true /\ Prefix opts = ""))
    \/
    (proceeds R opts entry file w /\ UpdateStat opts = true /\ Prefix opts = "" /\
     exists fstat, FS.Stat (tree w') (Prefix opts +:+ file) = Some fstat /\
                   e' = set_mtime entry (FS.ModTime fstat)).
Proof.
  unfold checkout_file, proceeds.
  destruct (IndexPath_of R file) as [indexpath|err|p] eqn:Hip.
  - destruct (String.eqb_spec (PathName entry) indexpath) as [Heq|Hne]; simpl.
    + subst indexpath. unfold bind at 1. unfold Checkoutindex.GetObject at 1.
      destruct (Objects.GetObject (store w) (Sha1_of entry)) as [obj|e|p] eqn:Hget.
      * unfold bind at 1, reading at 1.
        destruct (FS.Exists (tree w) (Prefix opts +:+ file) && negb (Force opts)) eqn:Hskip.
        { intros H. unfold bind in H.
          destruct (diagnostic (Quiet opts) _ w) as [r0 w0] eqn:Hd.
          apply diagnostic_gitfiles in Hd as (-> & Hg & _). unfold ret in H.
          injection H as <- <-. split; [done|]. intros e' [= <-]. left.
          split; [done|]. intros ((_ & [=]) & _). }
        { intros H. unfold bind at 1 in H.
          destruct (NoCreate opts).
          - unfold ret at 1 in H.
            destruct (UpdateStat opts && String.eqb (Prefix opts) "") eqn:Hus.
            + apply andb_true_iff in Hus as [Hu Hp].
              apply String.eqb_eq in Hp.
              unfold bind, Stat, ret in H.
              destruct (FS.Stat (tree w) (Prefix opts +:+ file)) as [fi|] eqn:Hst.
              * injection H as <- <-. split; [done|]. intros e' [= <-]. right.
                repeat split; try done. eauto.
              * injection H as <- <-. split; [done|]. intros e' [=].
            + unfold ret in H. injection H as <- <-. split; [done|].
              intros e' [= <-]. left. split; [done|].
              intros (_ & Hu & Hp). rewrite Hu, Hp in Hus. discriminate.
          - unfold bind at 1, lift at 1 in H.
            destruct (Objects.GetContent obj) as [data|e|p] eqn:Hc;
              [|injection H as <- <-; split; [done|]; intros e' [=]..].
            unfold bind at 1, WriteFile at 1 in H.
            destruct (FS.WriteFile (tree w) _ data (Mode entry) (umask w) (now w)) as [t|] eqn:Hw;
              [|injection H as <- <-; split; [done|]; intros e' [=]].
            unfold Chmod at 1, modify at 1 in H.
            destruct (UpdateStat opts && String.eqb (Prefix opts) "") eqn:Hus.
            + apply andb_true_iff in Hus as [Hu Hp].
              apply String.eqb_eq in Hp.
              unfold bind, Stat, ret in H.
              match type of H with
              | context [FS.Stat ?t ?f] => destruct (FS.Stat t f) as [fi|] eqn:Hst
              end.
              * injection H as <- <-. split; [done|]. intros e' [= <-]. right.
                repeat split; try done. simpl. eauto.
              * injection H as <- <-. split; [done|]. intros e' [=].
            + unfold ret in H. injection H as <- <-. split; [done|].
              intros e' [= <-]. left. split; [done|].
              intros (_ & Hu & Hp). rewrite Hu, Hp in Hus. discriminate. }
      * unfold bind at 1, reading at 1.
        destruct (FS.Exists (tree w) (Prefix opts +:+ file) && negb (Force opts)) eqn:Hskip.
        { intros H. unfold bind in H.
          destruct (diagnostic (Quiet opts) _ w) as [r0 w0] eqn:Hd.
          apply diagnostic_gitfiles in Hd as (-> & Hg & _). unfold ret in H.
          injection H as <- <-. split; [done|]. intros e' [= <-]. left.
          split; [done|]. intros ((_ & [=]) & _). }
        { unfold fail. intros [= <- <-]. split; [done|]. intros e' [=]. }
      * intros [= <- <-]. split; [done|]. intros e' [=].
    + unfold ret. intros [= <- <-]. split; [done|]. intros e' [= <-]. left.
      split; [done|]. intros (([= Hx] & _) & _). congruence.
  - intros H. unfold bind in H.
    destruct (diagnostic (Quiet opts) _ w) as [r0 w0] eqn:Hd.
    apply diagnostic_gitfiles in Hd as (-> & Hg & _). unfold ret in H.
    injection H as <- <-. split; [done|]. intros e' [= <-]. left.
    split; [done|]. intros (([=] & _) & _).
  - unfold lift. intros [= <- <-]. split; [done|]. intros e' [=].
Qed.

Lemma loop_files_result opts entry files w r w' :
  loop_files R opts entry files w = (r, w') ->
  gitfiles w' = gitfiles w /\
  forall e', r = Ret e' ->
    same_but_mtime entry e' /\
    ((UpdateStat opts && String.eqb (Prefix opts) "") = false -> e' = entry).
Proof.
  revert entry w. induction files as [|file rest IH]; intros entry w; simpl.
  - unfold ret. intros [= <- <-]. split; [done|]. intros e' [= <-].
    split; [apply same_but_mtime_refl | done].
  - unfold bind.
    destruct (checkout_file R opts entry file w) as [r1 w1] eqn:Hcf.
    apply checkout_file_result in Hcf as [Hg Hcf].
    destruct r1 as [e1|e|p].
    + intros H. apply IH in H as [Hg' H]. split; [congruence|].
      intros e' ->. destruct (H e' eq_refl) as [Hs Hu].
      destruct (Hcf e1 eq_refl) as [[-> _]|(_ & Hus & Hp & fstat & _ & ->)].
      * split; [done|]. done.
      * split; [eapply same_but_mtime_trans; [apply same_but_mtime_set|done]|].
        rewrite Hus, Hp. discriminate.
    + intros [= <- <-]. split; [done|]. intros e' [=].
    + intros [= <- <-]. split; [done|]. intros e' [=].
Qed.

Lemma loop_entries_result opts idx files w r w' :
  loop_entries R opts idx files w = (r, w') ->
  gitfiles w' = gitfiles w /\
  forall idx', r = Ret idx' ->
    Forall2 same_but_mtime idx idx' /\
    ((UpdateStat opts && String.eqb (Prefix opts) "") = false -> idx' = idx).
Proof.
  revert w r w'. induction idx as [|entry rest IH]; intros w r w'; simpl.
  - unfold ret. intros [= <- <-]. split; [done|]. intros idx' [= <-].
    split; [constructor | done].
  - unfold bind at 1.
    destruct (loop_files R opts entry files w) as [r1 w1] eqn:Hlf.
    apply loop_files_result in Hlf as [Hg Hlf].
    destruct r1 as [e1|e|p];
      [|intros [= <- <-]; split; [done|]; intros ? [=]..].
    unfold bind at 1.
    destruct (loop_entries R opts rest files w1) as [r2 w2] eqn:Hle.
    apply IH in Hle as [Hg' Hle].
    destruct r2 as [rest'|e|p];
      [|intros [= <- <-]; split; [congruence|]; intros ? [=]..].
    unfold ret. intros [= <- <-]. split; [congruence|].
    intros idx' [= <-].
    destruct (Hlf e1 eq_refl) as [Hs Hu].
    destruct (Hle rest' eq_refl) as [Hs' Hu'].
    split; [constructor; done|].
    intros Hus. rewrite Hu, Hu' by done. done.
Qed.

Lemma ReadIndex_world w r w' :
  ReadIndex R w = (r, w') -> w' = w.
Proof.
  unfold ReadIndex. destruct (gitfiles w !! index_file); intros [= _ <-]; done.
Qed.

Lemma new_file_fresh : new_file index_file <> index_file.
Proof. discriminate. Qed.

(** What a save does to the index file: a save that succeeds leaves
    the whole serialization in it, and a save that does not succeed
    fails with an error and leaves it as it was. *)
Lemma save_index_result idx w r w' :
  save_index R idx w = (r, w') ->
  (r = Ret tt /\
   gitfiles w' !! index_file = Some (encode_index R idx)) \/
  ((exists e, r = Fail e) /\
   gitfiles w' !! index_file = gitfiles w !! index_file).
Proof.
  pose proof new_file_fresh as Hne.
  unfold save_index, WriteIndex. unfold bind at 1. unfold GitDir_Create.
  destruct (gitdir_writable w); [|intros [= <- <-]; right; eauto].
  unfold bind, write_handle, replace_index, modify.
  cbn [gitfiles with_gitfiles write_limit].
  rewrite lookup_insert_eq. cbn [default id app].
  destruct (write_limit w) as [k|].
  - destruct (Nat.ltb k (length (encode_index R idx))).
    + intros [= <- <-]. right. split; [eauto|]. cbn [gitfiles with_gitfiles].
      by rewrite !lookup_insert_ne.
    + cbn [gitfiles with_gitfiles]. rewrite lookup_insert_eq.
      intros [= <- <-]. left. split; [done|]. cbn [gitfiles with_gitfiles].
      by rewrite lookup_insert_eq.
  - cbn [gitfiles with_gitfiles]. rewrite lookup_insert_eq.
    intros [= <- <-]. left. split; [done|]. cbn [gitfiles with_gitfiles].
    by rewrite lookup_insert_eq.
Qed.



Lemma loop_files_app opts entry fpre files w :
  loop_files R opts entry (fpre ++ files) w
  = bind (loop_files R opts entry fpre)
      (fun e1 => loop_files R opts e1 files) w.
Proof.
  revert entry w. induction fpre as [|file fpre IH]; intros entry w; simpl.
  - reflexivity.
  - unfold bind.
    destruct (checkout_file R opts entry file w) as [[e1|e|p] w1];
      [rewrite IH; reflexivity | reflexivity..].
Qed.

Lemma loop_entries_abort opts pre entry0 post files w pre' w1 e w2 :
  loop_entries R opts pre files w = (Ret pre', w1) ->
  loop_files R opts entry0 files w1 = (Fail e, w2) ->
  loop_entries R opts (pre ++ entry0 :: post) files w = (Fail e, w2).
Proof.
  revert w pre'. induction pre as [|x pre IH]; intros w pre'; simpl.
  - unfold ret. intros [= _ <-] Hf. unfold bind at 1. by rewrite Hf.
  - intros H Hf. unfold bind in *.
    destruct (loop_files R opts x files w) as [[x1|?|?] wx]; [|discriminate..].
    destruct (loop_entries R opts pre files wx) as [[r1|?|?] wr] eqn:Hpre;
      [|discriminate..].
    unfold ret in H. injection H as _ <-.
    by rewrite (IH _ _ Hpre Hf).
Qed.

(** C10, amended: the fetch comes first, so that a fetch that panics
    (no object file, a lookup that fails) is a panic of the iteration
    even when the target exists without [Force], while the error a
    fetch returns is looked at only after the skip; for an entry whose
    target exists without [Force], a returned fetch error is dropped
    and the loop goes on with the next file; for an entry past the
    skip, the fetch error is what the whole command returns, in the
    state the iteration started in. *)
Theorem C10_fetch_error_checked_after_skip
  (opts : CheckoutIndexOptions) (entry : IndexEntry) (file : string)
  (w : World) :
  IndexPath_of R file = Ret (PathName entry) ->
  (forall p, Objects.GetObject (store w) (Sha1_of entry) = Panic p ->
     checkout_file R opts entry file w = (Panic p, w)) /\
  (forall e, Objects.GetObject (store w) (Sha1_of entry) = Fail e ->
     (skipped R opts entry file w ->
        checkout_file R opts entry file w = (Ret entry, after_skip opts entry w) /\
        forall rest,
          loop_files R opts entry (file :: rest) w
          = loop_files R opts entry rest (after_skip opts entry w)) /\
     (proceeds R opts entry file w ->
        checkout_file R opts entry file w = (Fail e, w) /\
        forall files0 w0 pre post fpre fpost pre' entry0 w1,
          (negb (Nat.eqb (length files0) 0) && All opts) = false ->
          ReadIndex R w0 = (Ret (pre ++ entry0 :: post), w0) ->
          requested opts (pre ++ entry0 :: post) files0 = fpre ++ file :: fpost ->
          loop_entries R opts pre (fpre ++ file :: fpost) w0 = (Ret pre', w1) ->
          loop_files R opts entry0 fpre w1 = (Ret entry, w) ->
          CheckoutIndex R opts files0 w0 = (Fail e, w))).
Proof.
  intros Hip.
  assert (Hcf : forall o,
    Objects.GetObject (store w) (Sha1_of entry) = o ->
    checkout_file R opts entry file w =
    match o with
    | Panic p => (Panic p, w)
    | Fail e =>
        if FS.Exists (tree w) (Prefix opts +:+ file) && negb (Force opts)
        then (Ret entry, after_skip opts entry w)
        else (Fail e, w)
    | Ret _ => checkout_file R opts entry file w
    end).
  { intros o Ho. destruct o as [obj|e|p]; [reflexivity|..];
      unfold checkout_file; rewrite Hip, String.eqb_refl; simpl;
      unfold bind at 1; unfold Checkoutindex.GetObject at 1; rewrite Ho;
      [|reflexivity].
    unfold bind at 1, reading at 1.
    destruct (FS.Exists (tree w) (Prefix opts +:+ file) && negb (Force opts)).
    - unfold bind, diagnostic, after_skip, modify, ret.
      destruct (Quiet opts); reflexivity.
    - reflexivity. }
  split.
  - intros p Hp. exact (Hcf _ Hp).
  - intros e He. specialize (Hcf _ He). simpl in Hcf. split.
    + intros [_ Hskip]. rewrite Hskip in Hcf. split; [exact Hcf|].
      intros rest. simpl. unfold bind at 1. rewrite Hcf. reflexivity.
    + intros [_ Hgo]. rewrite Hgo in Hcf. split; [exact Hcf|].
      intros files0 w0 pre post fpre fpost pre' entry0 w1 Hall Hri Hreq Hpre Hfpre.
      unfold CheckoutIndex. rewrite Hall. unfold bind at 1. rewrite Hri.
      unfold bind at 1. rewrite Hreq.
      erewrite loop_entries_abort; [reflexivity | exact Hpre |].
      rewrite loop_files_app. unfold bind at 1. rewrite Hfpre.
      simpl. unfold bind at 1. rewrite Hcf. reflexivity.
Qed.

End CheckoutIndexFacts.


Lemma C10_fetch_error_checked_after_skip_witness :
  IndexPath_of (Examples.toy_repo [Examples.broken] Examples.no_match) "README"
    = Ret (PathName Examples.broken) /\
  Checkoutindex.checkout_file
    (Examples.toy_repo [Examples.broken] Examples.no_match)
    Examples.plain_opts Examples.broken "README" Examples.broken_world
  = (Ret Examples.broken,
     after_skip Examples.plain_opts Examples.broken Examples.broken_world) /\
  Checkoutindex.checkout_file
    (Examples.toy_repo [Examples.broken] Examples.no_match)
    Examples.update_stat_opts Examples.broken "README" Examples.broken_world
  = (Fail "zlib: invalid header", Examples.broken_world) /\
  Checkoutindex.CheckoutIndex
    (Examples.toy_repo [Examples.broken] Examples.no_match)
    Examples.update_stat_opts ["README"] Examples.broken_world
  = (Fail "zlib: invalid header", Examples.broken_world).
Proof.
  split; [reflexivity|]. split; [|split].
  - destruct (C10_fetch_error_checked_after_skip
                (Examples.toy_repo [Examples.broken] Examples.no_match)
                Examples.plain_opts Examples.broken "README"
                Examples.broken_world eq_refl) as [_ H].
    destruct (H "zlib: invalid header" eq_refl) as [Hskip _].
    apply Hskip. split; reflexivity.
  - destruct (C10_fetch_error_checked_after_skip
                (Examples.toy_repo [Examples.broken] Examples.no_match)
                Examples.update_stat_opts Examples.broken "README"
                Examples.broken_world eq_refl) as [_ H].
    destruct (H "zlib: invalid header" eq_refl) as [_ Hgo].
    apply Hgo. split; reflexivity.
  - destruct (C10_fetch_error_checked_after_skip
                (Examples.toy_repo [Examples.broken] Examples.no_match)
                Examples.update_stat_opts Examples.broken "README"
                Examples.broken_world eq_refl) as [_ H].
    destruct (H "zlib: invalid header" eq_refl) as [_ Hgo].
    destruct Hgo as [_ Hall]; [split; reflexivity|].
    apply (Hall ["README"] Examples.broken_world [] [] [] [] []
             Examples.broken Examples.broken_world); reflexivity.
Defined.

(** C10, as stated, fails: README is in the working directory,
    [Force] is unset, so that the entry is one that is skipped, and
    the object of the entry has no file in the store.  The failure of
    the fetch is not discarded: it ends the whole command, before the
    skip is looked at. *)
Lemma C10_counterexample :
  let R := Examples.toy_repo [Examples.broken] Examples.no_match in
  skipped R Examples.plain_opts Examples.broken "README"
    Examples.missing_world /\
  Objects.GetObject (store Examples.missing_world) (Sha1_of Examples.broken)
    = Panic "Couldn't open object file." /\
  Examples.missing_run
    = (Panic "Couldn't open object file.", Examples.missing_world) /\
  terminates_process (fst Examples.missing_run).
Proof.
  intros R. split; [split; reflexivity|].
  split; [reflexivity|]. split; [vm_compute; reflexivity|].
  vm_compute. exact I.
Qed.

(** ** Saving the index *)

Section SaveFacts.
Import Checkoutindex.
Context (R : Repo).

(** C3: saving the index is atomic.  The entries are serialized to a
    new file; a save that succeeds leaves the whole new serialization
    in the index file, and a save that fails, be it partway through
    the serialization, fails with an error and leaves the index file
    exactly as it was, the bytes written so far being in the new file.
    So it is for the save that ends a path-scoped checkout: after any
    run the index file is as before or holds a whole serialization. *)
Theorem C3_save_is_atomic (idx : Index) (w : World) :
  let data := encode_index R idx in
  (forall r w',
     save_index R idx w = (r, w') ->
     (r = Ret tt /\ gitfiles w' !! index_file = Some data) \/
     ((exists e, r = Fail e) /\
      gitfiles w' !! index_file = gitfiles w !! index_file)) /\
  (forall k,
     gitdir_writable w = true -> write_limit w = Some k ->
     (k < length data)%nat ->
     exists w',
       save_index R idx w = (Fail "write index: no space left on device", w') /\
       gitfiles w' !! new_file index_file = Some (take k data) /\
       gitfiles w' !! index_file = gitfiles w !! index_file) /\
  (forall opts files r w',
     CheckoutIndex R opts files w = (r, w') ->
     gitfiles w' !! index_file = gitfiles w !! index_file \/
     (r = Ret tt /\
      exists idx', gitfiles w' !! index_file = Some (encode_index R idx'))).
Proof.
  intros data. split; [|split].
  - intros r w' H. exact (save_index_result R idx w r w' H).
  - intros k Hw Hk Hlt.
    unfold save_index, WriteIndex. unfold bind at 1. unfold GitDir_Create.
    rewrite Hw. unfold bind, write_handle.
    cbn [gitfiles with_gitfiles write_limit].
    rewrite lookup_insert_eq, Hk. cbn [default id app]. fold data.
    apply Nat.ltb_lt in Hlt. rewrite Hlt.
    eexists. split; [reflexivity|]. cbn [gitfiles with_gitfiles].
    split; [by rewrite lookup_insert_eq|].
    pose proof new_file_fresh. by rewrite !lookup_insert_ne.
  - intros opts files r w'. unfold CheckoutIndex.
    destruct (negb (Nat.eqb (length files) 0) && All opts);
      [intros [= _ <-]; by left|].
    unfold bind at 1.
    destruct (ReadIndex R w) as [ri wi] eqn:Hri.
    pose proof (ReadIndex_world R _ _ _ Hri) as ->.
    destruct ri as [index|e|p]; [|intros [= _ <-]; by left..].
    unfold bind at 1.
    destruct (loop_entries R opts index (requested opts index files) w)
      as [rl wl] eqn:Hl.
    apply loop_entries_result in Hl as [Hg _].
    destruct rl as [idx'|e|p]; [|intros [= _ <-]; left; by rewrite Hg..].
    destruct (UpdateStat opts).
    + intros Hsave.
      destruct (save_index_result R _ _ _ _ Hsave) as [[-> Hok]|[_ Hsame]].
      * right. split; [done|]. eauto.
      * left. by rewrite Hsame, Hg.
    + unfold ret. intros [= _ <-]. left. by rewrite Hg.
Qed.

End SaveFacts.

Lemma C3_save_is_atomic_witness :
  fst Examples.cut_run = Fail "write index: no space left on device" /\
  gitfiles (snd Examples.cut_run) !! index_file
    = Some (Examples.toy_encode [Examples.readme]).
Proof.
  split; [vm_compute; reflexivity|].
  destruct (C3_save_is_atomic
              (Examples.toy_repo [Examples.readme] Examples.no_match)
              [] Examples.cut_world) as (_ & _ & Hrun).
  destruct (Hrun Examples.update_stat_opts ["README"]
              (fst Examples.cut_run) (snd Examples.cut_run)
              (surjective_pairing Examples.cut_run)) as [Hsame|[Hok _]].
  - rewrite Hsame. reflexivity.
  - vm_compute in Hok. discriminate.
Defined.

(** ** Ignore patterns in the scanner *)

(** C4, as stated, fails: with the patterns [*.log] and [!keep.log] in
    that order the scanner leaves out [keep.log], which the last
    matching pattern would re-include; [debug.log] is left out.  The
    scan of a directory that holds the two logs and a README reports
    the README only. *)
Lemma C4_counterexample :
  let R := Examples.toy_repo [] Examples.glob_matches in
  let patterns := [Examples.star_log; Examples.not_keep_log] in
  Lsfiles.ignored R patterns "" "keep.log" false = true /\
  spec_last_match_wins R patterns "keep.log" false = false /\
  Lsfiles.ignored R patterns "" "debug.log" false = true /\
  Lsfiles.findUntrackedFilesFromDir R others_only "" "" "" Examples.logs_dir
    ∅ true patterns Examples.logs_world
  = (Ret [Lsfiles.entry_for "README"], Examples.logs_world).
Proof.
  split; [reflexivity|]. split; [reflexivity|]. split; [reflexivity|].
  vm_compute. reflexivity.
Qed.

Section IgnoreFacts.
Import Lsfiles.
Context (R : Repo).

Lemma bind_ext {A B} (m m' : M A) (k k' : A -> M B) (w : World) :
  m w = m' w ->
  (forall a w1, m w = (Ret a, w1) -> k a w1 = k' a w1) ->
  bind m k w = bind m' k' w.
Proof.
  intros Hm Hk. unfold bind. rewrite <- Hm.
  destruct (m w) as [[a|e|p] w1]; [by apply Hk | reflexivity..].
Qed.

(** An entry that contributes nothing. *)
Lemma bind_nothing_here {A} (m : M (list A)) (w : World) :
  bind (ret []) (fun here => bind m (fun more => ret (here ++ more))) w = m w.
Proof. unfold bind, ret. by destruct (m w) as [[more|e|p] w1]. Qed.

(** The per-directory exclude files are looked up by name. *)
Lemma add_dir_excludes_ext excludes dir n n' : forall patterns w,
  (forall ignorefile, In ignorefile excludes ->
     FS.resolve n ignorefile = FS.resolve n' ignorefile) ->
  add_dir_excludes R excludes dir n patterns w
  = add_dir_excludes R excludes dir n' patterns w.
Proof.
  induction excludes as [|ignorefile rest IH]; intros patterns w Hsame;
    cbn [add_dir_excludes]; [reflexivity|].
  rewrite <- (Hsame ignorefile (or_introl eq_refl)).
  assert (Hrest : forall i, In i rest -> FS.resolve n i = FS.resolve n' i)
    by (intros i Hi; apply Hsame; by right).
  destruct (FS.resolve n ignorefile); [|by apply IH].
  unfold bind, modify, reading.
  destruct (ParseIgnorePatterns R _ _ _); [by apply IH | by apply IH | reflexivity].
Qed.

(** The loop over the patterns stops at the first match. *)
Lemma ignored_iff patterns parent fname isdir :
  ignored R patterns parent fname isdir = true <->
  exists p, In p patterns /\ Matches R p (under parent fname) isdir = true.
Proof. unfold ignored. rewrite existsb_exists. reflexivity. Qed.

Lemma not_ignored patterns parent fname isdir :
  (forall p, In p patterns -> Matches R p (under parent fname) isdir = false) ->
  ignored R patterns parent fname isdir = false.
Proof.
  intros H. apply not_true_iff_false. intros Hi.
  apply ignored_iff in Hi as (p & Hin & Hm). rewrite (H p Hin) in Hm.
  discriminate.
Qed.

(** C4, amended: the scanner leaves an entry of a directory out
    exactly when at least one pattern of the accumulated list matches
    it, the directory flag of the entry being passed to each match and
    whatever follows that pattern in the list: the scan of the
    directory is then the scan of the directory without the entry.  An
    entry that no pattern matches is kept: if it is a file other than
    [.git] that is not tracked, every scan that returns reports it. *)
Theorem C4_scanner_leaves_out_iff_some_pattern_matches
  (opts : LsFilesOptions) (root parent dir : string)
  (pre post : list (string * FS.node)) (fname : string) (child : FS.node)
  (tracked : gset string) (recursedir : bool)
  (patterns acc : list IgnorePattern) (w w1 : World) :
  let n := FS.Dir (pre ++ (fname, child) :: post) in
  let isdir := match child with FS.Dir _ => true | FS.File _ _ _ => false end in
  let scan files :=
    findUntrackedFilesFromDir R opts root parent dir (FS.Dir files) tracked
      recursedir patterns in
  add_dir_excludes R (ExcludePerDirectory opts) dir n patterns w
    = (Ret acc, w1) ->
  ((exists p, In p acc /\ Matches R p (under parent fname) isdir = true) ->
   (forall ignorefile, In ignorefile (ExcludePerDirectory opts) ->
      FS.resolve n ignorefile = FS.resolve (FS.Dir (pre ++ post)) ignorefile) ->
   scan (pre ++ (fname, child) :: post) w = scan (pre ++ post) w) /\
  ((forall p, In p acc -> Matches R p (under parent fname) isdir = false) ->
   fname <> ".git" ->
   forall d m mt l w',
     child = FS.File d m mt ->
     TrimPrefix (under parent fname) root ∉ tracked ->
     scan (pre ++ (fname, child) :: post) w = (Ret l, w') ->
     In (entry_for (TrimPrefix (under parent fname) root)) l).
Proof.
  intros n isdir scan Hacc. split.
  - intros Hm Hsame. unfold scan. cbn [findUntrackedFilesFromDir].
    apply bind_ext; [by apply add_dir_excludes_ext|].
    fold n. rewrite Hacc. intros acc' w1' [= <- <-].
    apply ignored_iff in Hm. clear Hacc Hsame. clear n scan.
    generalize w1. clear w1.
    induction pre as [|[c ch] pre IH]; intros w1.
    + simpl. etransitivity; [|apply bind_nothing_here].
      apply bind_ext; [|reflexivity].
      destruct (String.eqb fname ".git"); [reflexivity|].
      subst isdir. destruct child; by rewrite Hm.
    + simpl. apply bind_ext; [reflexivity|]. intros here w2 _.
      apply bind_ext; [apply IH | reflexivity].
  - intros Hno Hgit d m mt l w' -> Hnt. unfold scan.
    cbn [findUntrackedFilesFromDir]. unfold bind at 1. fold n. rewrite Hacc.
    apply not_ignored in Hno. subst isdir. clear Hacc. clear n scan.
    generalize w1 l w'. clear w1 l w'.
    induction pre as [|[c ch] pre IH]; intros w1 l w'.
    + simpl. destruct (String.eqb_spec fname ".git") as [|_]; [contradiction|].
      rewrite Hno. unfold scan_file. unfold bind at 1. unfold bind at 1.
      unfold must_IndexPath.
      destruct (IndexPath_of R _) as [ip|e|p]; [|discriminate..].
      unfold ret at 1. rewrite bool_decide_eq_false_2 by done.
      unfold ret at 1. unfold bind at 1.
      match goal with |- context [match ?c with _ => _ end] =>
        destruct c as [[more|?|?] w2] end; [|discriminate..].
      unfold ret. intros [= <- _]. by left.
    + simpl. unfold bind at 1.
      match goal with |- context [match ?c w1 with _ => _ end] =>
        destruct (c w1) as [[here|?|?] w2] end; [|discriminate..].
      unfold bind at 1.
      match goal with |- context [match ?c w2 with _ => _ end] =>
        destruct (c w2) as [[more|?|?] w3] eqn:Hrest end; [|discriminate..].
      unfold ret. intros [= <- _]. apply in_or_app. right.
      exact (IH _ _ _ Hrest).
Qed.
End IgnoreFacts.

Lemma C4_scanner_leaves_out_iff_some_pattern_matches_witness :
  let R := Examples.toy_repo [] Examples.glob_matches in
  let patterns := [Examples.star_log; Examples.not_keep_log] in
  let keep := ("keep.log", FS.File (bytes_of_string "k") 420 (FS.mkTime 1 0)) in
  let readme := ("README", FS.File (bytes_of_string "abc") 420 (FS.mkTime 2 0)) in
  let debug := ("debug.log", FS.File (bytes_of_string "d") 420 (FS.mkTime 3 0)) in
  let scan files :=
    Lsfiles.findUntrackedFilesFromDir R others_only "" "" "" (FS.Dir files)
      ∅ true patterns in
  Lsfiles.add_dir_excludes R (Lsfiles.ExcludePerDirectory others_only) ""
    (FS.Dir [keep; readme; debug]) patterns Examples.logs_world
  = (Ret patterns, Examples.logs_world) /\
  scan [keep; readme; debug] Examples.logs_world
  = scan [readme; debug] Examples.logs_world /\
  scan [keep; readme; debug] Examples.logs_world
  = (Ret [Lsfiles.entry_for "README"], Examples.logs_world) /\
  In (Lsfiles.entry_for "README") [Lsfiles.entry_for "README"].
Proof.
  intros R patterns keep readme debug scan.
  assert (Hacc : Lsfiles.add_dir_excludes R
                   (Lsfiles.ExcludePerDirectory others_only) ""
                   (FS.Dir [keep; readme; debug]) patterns Examples.logs_world
                 = (Ret patterns, Examples.logs_world)) by reflexivity.
  split; [exact Hacc|]. split.
  - destruct (C4_scanner_leaves_out_iff_some_pattern_matches R others_only
                "" "" "" [] [readme; debug] "keep.log" (snd keep) ∅ true
                patterns patterns Examples.logs_world Examples.logs_world Hacc)
      as [Hout _].
    apply Hout.
    + exists Examples.star_log. split; [left; reflexivity | reflexivity].
    + intros ignorefile [].
  - split; [vm_compute; reflexivity|].
    destruct (C4_scanner_leaves_out_iff_some_pattern_matches R others_only
                "" "" "" [keep] [debug] "README" (snd readme) ∅ true
                patterns patterns Examples.logs_world Examples.logs_world Hacc)
      as [_ Hin].
    apply (Hin ltac:(intros p [<-|[<-|[]]]; reflexivity) ltac:(discriminate)
             (bytes_of_string "abc") 420 (FS.mkTime 2 0)
             [Lsfiles.entry_for "README"] Examples.logs_world eq_refl).
    + set_solver.
    + vm_compute. reflexivity.
Defined.

(** ** The modified classifier *)

Section LsfilesFacts.
Import Lsfiles.
Context (R : Repo).

Lemma classify_reads opt entry f w r w' :
  classify R opt entry f w = (r, w') ->
  w' = w /\ forall l x, r = Ret l -> In x l -> entry_of x = entry.
Proof.
  unfold classify, HashFile. unfold_cmd.
  destruct (Cached opt);
    [|destruct (Deleted opt && negb (FS.Exists (tree w) f));
      [|destruct (Unmerged opt && negb (Z.eqb (Stage entry) 0));
        [|destruct (Modified opt);
          [destruct (FS.IsDir (tree w) f);
            [|destruct (FS.Stat (tree w) f);
              [destruct (FS.ReadFile (tree w) f);
                [destruct (bool_decide (hash_blob R b = Sha1_of entry))|]|]]|]]]];
    intros [= <- <-]; (split; [reflexivity|]);
    intros l x [= <-]; simpl;
    first [intros [<-|[]]; reflexivity | intros []].
Qed.

Lemma classify_modified opt entry f w data mode mt :
  modified_only opt ->
  FS.resolve (tree w) f = Some (FS.File data mode mt) ->
  classify R opt entry f w
  = (Ret (if bool_decide (hash_blob R data = Sha1_of entry) then []
          else [mkResult entry "C"%char]), w).
Proof.
  intros (Hm & Hc & Hd & Hu & _) Hres.
  unfold classify, HashFile, FS.IsDir, FS.Stat, FS.ReadFile. unfold_cmd.
  rewrite Hm, Hc, Hd, Hu, Hres. simpl.
  destruct (bool_decide (hash_blob R data = Sha1_of entry)); reflexivity.
Qed.

Lemma index_loop_results opt files idx w fs w' :
  index_loop R opt files idx w = (Ret fs, w') ->
  w' = w /\
  forall x, In x fs <->
    exists entry f l,
      In entry idx /\ FilePath_of R (PathName entry) = Ret f /\
      selected R true f files = Ret true /\
      classify R opt entry f w = (Ret l, w) /\ In x l.
Proof.
  revert fs w'. induction idx as [|entry rest IH]; intros fs w'; simpl.
  - unfold ret. intros [= <- <-]. split; [done|]. intros x. split; [intros []|].
    intros (?&?&?&[]&_).
  - unfold bind at 1, lift at 1.
    destruct (FilePath_of R (PathName entry)) as [f|?|?] eqn:Hf;
      [|discriminate..].
    unfold bind at 1, lift at 1.
    destruct (selected R true f files) as [keep|?|?] eqn:Hsel;
      [|discriminate..].
    unfold bind at 1.
    destruct ((if keep then classify R opt entry f else ret []) w)
      as [rh wh] eqn:Hhere.
    assert (wh = w /\ forall x l, rh = Ret l ->
              (In x l <-> keep = true /\ exists l', classify R opt entry f w = (Ret l', w) /\ In x l'))
      as [-> Hh].
    { destruct keep.
      - pose proof (classify_reads _ _ _ _ _ _ Hhere) as [-> _].
        split; [done|]. intros x l ->. split.
        + intros Hx. split; [done|]. eauto.
        + intros (_ & l' & Hl' & Hx). rewrite Hhere in Hl'.
          by injection Hl' as <-.
      - unfold ret in Hhere. injection Hhere as <- <-.
        split; [done|]. intros x l [= <-]. split; [intros []|].
        intros ([=] & _). }
    destruct rh as [here|?|?]; [|discriminate..].
    unfold bind at 1.
    destruct (index_loop R opt files rest w) as [[more|?|?] wm] eqn:Hmore;
      [|discriminate..].
    destruct (IH more wm eq_refl) as [-> IHm].
    unfold ret. intros [= <- <-]. split; [done|]. intros x.
    rewrite in_app_iff, (Hh x here eq_refl), IHm. split.
    + intros [(-> & l' & Hl' & Hx)|(e & f' & l & Hin & ?)].
      * exists entry, f, l'. auto.
      * exists e, f', l. split; [right; done | done].
    + intros (e & f' & l & [<-|Hin] & Hf' & Hs' & Hc & Hx).
      * left. rewrite Hf in Hf'. injection Hf' as <-.
        rewrite Hsel in Hs'. injection Hs' as ->. eauto.
      * right. exists e, f', l. auto.
Qed.

Lemma insert_sorted_In x y l :
  In y (insert_sorted x l) <-> y = x \/ In y l.
Proof.
  induction l as [|z l IH]; simpl.
  - split; [intros [<-|[]]; auto | intros [->|[]]; auto].
  - destruct (Less z x); simpl; [rewrite IH|]; intuition auto.
Qed.

Lemma sort_results_In y l : In y (sort_results l) <-> In y l.
Proof.
  unfold sort_results. induction l as [|x l IH]; simpl; [done|].
  rewrite insert_sorted_In, IH. intuition auto.
Qed.

(** C8: in [modified] mode, for an entry of the index that passes the
    filter on requested paths and whose path is a file on disk, the
    result has the entry with code [C] exactly when the digest of the
    bytes on disk is not the digest the entry records; neither the
    modification time of the file nor the one the entry records has a
    part in it. *)
Theorem C8_modified_iff_digest_differs
  (opt : LsFilesOptions) (files : list string) (w w' : World) (idx : Index)
  (results : list LsFilesResult) (entry : IndexEntry) (f : string)
  (data : bytes) (mode : Z) (mt : FS.Time) :
  modified_only opt ->
  ReadIndex R w = (Ret idx, w) ->
  LsFiles R opt files w = (Ret results, w') ->
  In entry idx ->
  FilePath_of R (PathName entry) = Ret f ->
  selected R true f files = Ret true ->
  FS.resolve (tree w) f = Some (FS.File data mode mt) ->
  classify R opt entry f w
  = (Ret (if bool_decide (hash_blob R data = Sha1_of entry) then []
          else [mkResult entry "C"%char]), w) /\
  (In (mkResult entry "C"%char) results <->
   hash_blob R data <> Sha1_of entry).
Proof.
  intros Hmode Hri Hrun Hin Hf Hrel Hres.
  pose proof (classify_modified opt entry f w data mode mt Hmode Hres) as Hcl.
  split; [exact Hcl|].
  destruct Hmode as (_ & _ & _ & _ & Ho & He).
  unfold LsFiles in Hrun. unfold bind at 1 in Hrun. rewrite Hri in Hrun.
  unfold bind at 1 in Hrun.
  destruct (index_loop R opt files idx w) as [[fs|?|?] wl] eqn:Hloop;
    [|discriminate..].
  apply index_loop_results in Hloop as [-> Hfs].
  rewrite Ho, He in Hrun. simpl in Hrun. unfold_cmd.
  injection Hrun as <- <-.
  rewrite sort_results_In, Hfs. split.
  - intros (e & f' & l & Hine & Hf' & _ & Hc & Hx).
    destruct (classify_reads _ _ _ _ _ _ Hc) as [_ He'].
    specialize (He' l _ eq_refl Hx). simpl in He'. subst e.
    rewrite Hf in Hf'. injection Hf' as <-.
    rewrite Hcl in Hc. injection Hc as <-.
    destruct (bool_decide_reflect (hash_blob R data = Sha1_of entry));
      [destruct Hx | done].
  - intros Hne. exists entry, f, [mkResult entry "C"%char].
    split; [done|]. split; [done|]. split.
    + exact Hrel.
    + split; [|left; reflexivity].
      rewrite Hcl.
      destruct (bool_decide_reflect (hash_blob R data = Sha1_of entry));
        [contradiction | reflexivity].
Qed.

End LsfilesFacts.

Lemma C8_modified_iff_digest_differs_witness :
  modified_only Examples.modified_opts /\
  Examples.modified_run = (Ret [], Examples.abc_world) /\
  FS.resolve (tree Examples.abc_world) "README"
    = Some (FS.File (bytes_of_string "abc") 420 (FS.mkTime 99 0)) /\
  Mtime Examples.abc_entry <> FS.Unix (FS.mkTime 99 0) /\
  Lsfiles.classify (Examples.toy_repo [Examples.abc_entry] Examples.no_match)
    Examples.modified_opts Examples.abc_entry "README" Examples.abc_world
  = (Ret [], Examples.abc_world).
Proof.
  assert (Hmode : modified_only Examples.modified_opts)
    by (repeat split; reflexivity).
  assert (Hrun : Examples.modified_run = (Ret [], Examples.abc_world))
    by (vm_compute; reflexivity).
  assert (Hres : FS.resolve (tree Examples.abc_world) "README"
                 = Some (FS.File (bytes_of_string "abc") 420 (FS.mkTime 99 0)))
    by reflexivity.
  split; [exact Hmode|]. split; [exact Hrun|]. split; [exact Hres|].
  split; [discriminate|].
  destruct (C8_modified_iff_digest_differs
              (Examples.toy_repo [Examples.abc_entry] Examples.no_match)
              Examples.modified_opts [] Examples.abc_world Examples.abc_world
              [Examples.abc_entry] [] Examples.abc_entry "README"
              (bytes_of_string "abc") 420 (FS.mkTime 99 0)
              Hmode) as [Hcl _].
  - vm_compute. reflexivity.
  - exact Hrun.
  - left. reflexivity.
  - reflexivity.
  - reflexivity.
  - exact Hres.
  - exact Hcl.
Defined.

(** ** The working directory as a tree *)

Section TreeFacts.
Import FS.

Lemma assoc_set_entry_ne {A} (c c' : string) (x : A) es :
  c <> c' -> assoc c' (set_entry c x es) = assoc c' es.
Proof.
  intros Hne. induction es as [|[n y] es IH]; simpl.
  - destruct (String.eqb_spec c c'); [contradiction|reflexivity].
  - destruct (String.eqb_spec n c) as [->|Hn]; simpl.
    + destruct (String.eqb_spec c c'); [contradiction|reflexivity].
    + destruct (String.eqb_spec n c'); [reflexivity|exact IH].
Qed.

Lemma assoc_set_entry_eq {A} (c : string) (x : A) es :
  assoc c (set_entry c x es) = Some x.
Proof.
  induction es as [|[n y] es IH]; simpl.
  - by rewrite String.eqb_refl.
  - destruct (String.eqb_spec n c) as [->|Hn]; simpl.
    + by rewrite String.eqb_refl.
    + destruct (String.eqb_spec n c); [contradiction|exact IH].
Qed.

Lemma assoc_del_entry_ne {A} (c c' : string) (es : list (string * A)) :
  c <> c' -> assoc c' (del_entry c es) = assoc c' es.
Proof.
  intros Hne. unfold del_entry. induction es as [|[n y] es IH]; simpl; [done|].
  destruct (String.eqb_spec n c) as [->|Hn]; simpl.
  - destruct (String.eqb_spec c c'); [contradiction|exact IH].
  - destruct (String.eqb_spec n c'); [reflexivity|exact IH].
Qed.

Lemma assoc_put_entry_ne {A} (c c' : string) (r : option A) es :
  c <> c' -> assoc c' (put_entry c r es) = assoc c' es.
Proof.
  destruct r; simpl; [apply assoc_set_entry_ne | apply assoc_del_entry_ne].
Qed.

Lemma walk_file_nil cs d m mt n :
  walk cs (File d m mt) = Some n -> cs = [].
Proof. destruct cs; [done|discriminate]. Qed.

(** Changing the tree at the place of one file leaves every other file
    where it is. *)
Lemma walk_alter_other cf :
  forall t cq g t' d m mt d' m' mt',
    walk cf t = Some (File d m mt) ->
    walk cq t = Some (File d' m' mt') ->
    cf <> cq ->
    alter_path cf g t = Some t' ->
    walk cq t' = Some (File d' m' mt').
Proof.
  induction cf as [|c cf IH]; intros t cq g t' d m mt d' m' mt' Hf Hq Hne Ha.
  - discriminate.
  - destruct t as [|es]; [discriminate|]. simpl in Hf, Ha.
    destruct (assoc c es) as [ch|] eqn:Hc; [|discriminate].
    destruct cq as [|c' cq]; [discriminate|]. simpl in Hq.
    destruct (String.eqb_spec c c') as [<-|Hcc].
    + rewrite Hc in Hq.
      destruct cf as [|c2 cf].
      * simpl in Hf. injection Hf as ->.
        apply walk_file_nil in Hq. congruence.
      * destruct (alter_path (c2 :: cf) g ch) as [ch'|] eqn:Hch; [|discriminate].
        injection Ha as <-. simpl. rewrite assoc_set_entry_eq.
        eapply IH; [exact Hf | exact Hq | congruence | exact Hch].
    + destruct cf as [|c2 cf].
      * destruct (g (Some ch)) as [r|]; [|discriminate].
        injection Ha as <-. simpl. by rewrite assoc_put_entry_ne.
      * destruct (alter_path (c2 :: cf) g ch) as [ch'|]; [|discriminate].
        injection Ha as <-. simpl. by rewrite assoc_set_entry_ne.
Qed.

Lemma RemoveAll_other t f q d m mt d' m' mt' :
  resolve t f = Some (File d m mt) ->
  resolve t q = Some (File d' m' mt') ->
  components f <> components q ->
  resolve (RemoveAll t f) q = Some (File d' m' mt').
Proof.
  unfold RemoveAll, alter, resolve.
  destruct (components f) as [cf|]; [|discriminate].
  destruct (components q) as [cq|]; [|discriminate].
  intros Hf Hq Hne.
  destruct (alter_path cf _ t) as [t'|] eqn:Ha; [|exact Hq].
  eapply walk_alter_other; [exact Hf | exact Hq | congruence | exact Ha].
Qed.

End TreeFacts.

(** ** Commit-level checkout *)

Section DeleteOldFacts.
Import Checkout.
Context (R : Repo).

Lemma delete_old_entry_keeps newidxmap obj w r w' q data mode mt :
  delete_old_entry R newidxmap obj w = (r, w') ->
  FS.resolve (tree w) q = Some (FS.File data mode mt) ->
  FS.resolve (tree w') q = Some (FS.File data mode mt) \/
  exists f,
    Contains newidxmap (PathName obj) = false /\
    FilePath_of R (PathName obj) = Ret f /\
    FS.components f = FS.components q /\
    hash_blob R data = Sha1_of obj.
Proof.
  unfold delete_old_entry, IsClean, RemoveAll, FS.ReadFile. unfold_cmd.
  destruct (Contains newidxmap (PathName obj)) eqn:Hc; simpl.
  { intros [= <- <-] Hq. auto. }
  destruct (FilePath_of R (PathName obj)) as [f|?|?] eqn:Hf;
    [|intros [= <- <-] Hq; auto..].
  destruct (FS.resolve (tree w) f) as [[fd fm fmt|es]|] eqn:Hres;
    [|intros [= <- <-] Hq; auto..].
  destruct (bool_decide_reflect (hash_blob R fd = Sha1_of obj)) as [Hh|Hh];
    [|intros [= <- <-] Hq; auto].
  destruct (remove_error w f); [intros [= <- <-] Hq; auto|].
  intros [= <- <-] Hq. simpl.
  destruct (decide (FS.components f = FS.components q)) as [Heq|Hne].
  - right. exists f. repeat split; try done.
    unfold FS.resolve in Hres, Hq. rewrite Heq in Hres.
    rewrite Hres in Hq. injection Hq as <- _ _. exact Hh.
  - left. eapply RemoveAll_other; eauto.
Qed.

(** C7: a file of the working directory is either still there, with
    the same content, after the old files are deleted, or an entry of
    the old index that is absent from the new index names it and
    records the digest of the very content it had on disk; a file
    whose content no longer has the recorded digest is therefore never
    deleted by this step. *)
Theorem C7_deleted_only_when_content_matches
  (newidxmap : gmap string IndexEntry) (origidx : Index)
  (w w' : World) (r : outcome unit)
  (q : string) (data : bytes) (mode : Z) (mt : FS.Time) :
  delete_old R newidxmap origidx w = (r, w') ->
  FS.resolve (tree w) q = Some (FS.File data mode mt) ->
  FS.resolve (tree w') q = Some (FS.File data mode mt) \/
  exists obj f,
    In obj origidx /\
    Contains newidxmap (PathName obj) = false /\
    FilePath_of R (PathName obj) = Ret f /\
    FS.components f = FS.components q /\
    hash_blob R data = Sha1_of obj.
Proof.
  revert w. induction origidx as [|obj rest IH]; intros w; simpl.
  - unfold ret. intros [= <- <-] Hq. left. exact Hq.
  - unfold bind.
    destruct (delete_old_entry R newidxmap obj w) as [r1 w1] eqn:Hstep.
    intros Hrun Hq.
    destruct (delete_old_entry_keeps _ _ _ _ _ _ _ _ _ Hstep Hq)
      as [Hkeep|(f & Hc & Hf & Hcs & Hh)].
    + destruct r1 as [[]|e|p]; [|injection Hrun as _ <-; by left..].
      destruct (IH w1 Hrun Hkeep) as [Hk|(o & f & Hin & ?)].
      * left. exact Hk.
      * right. exists o, f. split; [right; exact Hin | done].
    + right. exists obj, f. split; [left; reflexivity | done].
Qed.

End DeleteOldFacts.

Section ScannerFacts.
Import Lsfiles.
Context (R : Repo).

Lemma node_ind' (P : FS.node -> Prop) :
  (forall d m t, P (FS.File d m t)) ->
  (forall es, Forall (fun e => P (snd e)) es -> P (FS.Dir es)) ->
  forall n, P n.
Proof.
  intros HF HD. fix IH 1. intros [d m t|es]; [apply HF|].
  apply HD. induction es as [|[c ch] es IHes]; constructor;
    [apply IH | apply IHes].
Qed.

Lemma append_cons (a : ascii) (s t : string) :
  String a s +:+ t = String a (s +:+ t).
Proof. reflexivity. Qed.

Lemma prefix_app (pre s : string) : String.prefix pre (pre +:+ s) = true.
Proof.
  induction pre as [|a pre IH]; [by destruct s|].
  rewrite append_cons. simpl.
  destruct (Ascii.ascii_dec a a); [exact IH|contradiction].
Qed.






Hypothesis IndexPath_total : forall p, exists ip, IndexPath_of R p = Ret ip.




Hypothesis FilePath_total : forall p, exists f, FilePath_of R p = Ret f.
Hypothesis Abs_total : forall p, exists a, Abs R p = Ret a.
Hypothesis WorkDir_nonempty : WorkDir R <> "".








Context (C : Checkout.Collaborators).



End ScannerFacts.


Lemma C7_deleted_only_when_content_matches_witness :
  let R := Examples.toy_repo [] Examples.no_match in
  let run :=
    Checkout.delete_old R ∅ [Examples.abc_entry; Examples.notes_entry]
      Examples.edited_world in
  FS.resolve (tree Examples.edited_world) "NOTES"
    = Some (FS.File (bytes_of_string "edited") 420 (FS.mkTime 8 0)) /\
  FS.resolve (tree (snd run)) "NOTES"
    = Some (FS.File (bytes_of_string "edited") 420 (FS.mkTime 8 0)) /\
  FS.resolve (tree (snd run)) "README" = None.
Proof.
  intros R run.
  assert (Hq : FS.resolve (tree Examples.edited_world) "NOTES"
               = Some (FS.File (bytes_of_string "edited") 420 (FS.mkTime 8 0)))
    by reflexivity.
  split; [exact Hq|]. split; [|vm_compute; reflexivity].
  destruct (C7_deleted_only_when_content_matches R ∅
              [Examples.abc_entry; Examples.notes_entry]
              Examples.edited_world (snd run) (fst run) "NOTES"
              (bytes_of_string "edited") 420 (FS.mkTime 8 0))
    as [Hkept|(obj & f & Hin & _ & _ & _ & Hhash)].
  - exact (surjective_pairing run).
  - exact Hq.
  - exact Hkept.
  - exfalso. destruct Hin as [<-|[<-|[]]]; vm_compute in Hhash; discriminate.
Defined.

Section MarkLoopFacts.
Import Checkout.
Context (R : Repo) (C : Collaborators).

(** Without [Force], as soon as the staged-vs-HEAD diff has one entry,
    of whatever path, the loop marks no entry at all. *)
Lemma mark_loop_with_staged_marks_nothing opts staged more objects :
  Force opts = false ->
  forall st w st' w',
    mark_loop R C opts (staged :: more) objects st w = (Ret st', w') ->
    snd st' = snd st.
Proof.
  intros Hforce. induction objects as [|obj rest IH]; intros st w st' w'; simpl.
  - unfold ret. intros [= <- <-]. reflexivity.
  - unfold bind at 1.
    destruct (mark_entry R C opts (staged :: more) obj st w) as [r1 w1] eqn:Hstep.
    destruct r1 as [st1|?|?]; [|discriminate..].
    intros Hrest. rewrite (IH _ _ _ _ Hrest). clear Hrest IH.
    unfold mark_entry in Hstep. destruct st as [idx files].
    unfold bind at 1, lift at 1 in Hstep.
    destruct (FilePath_of R (PathName obj)) as [f|?|?]; [|discriminate..].
    destruct (SkipWorktree obj && negb (IgnoreSkipWorktreeBits opts)).
    + unfold bind at 1, reading at 1 in Hstep. unfold bind at 1 in Hstep.
      destruct ((if FS.Exists (tree w) f then Remove f else ret tt) w)
        as [[[]|?|?] wr]; [|discriminate..].
      unfold ret in Hstep. by injection Hstep as <- <-.
    + rewrite Hforce in Hstep. simpl in Hstep.
      unfold bind, lift, ret in Hstep.
      destruct (AddStage C idx _ _ _ _ _) as [idx'|?|?]; [|discriminate..].
      by injection Hstep as <- <-.
Qed.

End MarkLoopFacts.

(** C1, the code at a failing input: the target tree has [a] and [b]
    and the only staged change is one of [a].  The loop re-applies
    that change for [a] and again for [b], and marks neither: after
    the whole checkout [b], for whose path no staged change exists, is
    not on disk, while the same checkout with no staged change at all
    writes it. *)
Lemma C1_staged_change_of_another_path_unmarks_entry :
  let R := Examples.toy_repo [Examples.entry_a; Examples.entry_b]
             Examples.no_match in
  let tree_idx := [Examples.entry_a; Examples.entry_b] in
  let C := Examples.toy_collab tree_idx [Examples.staged_a] in
  let C0 := Examples.toy_collab tree_idx [] in
  let target := Checkout.IsBranch "refs/heads/topic" in
  Forall (fun d => Checkout.Name d <> "b") [Examples.staged_a] /\
  Checkout.mark_loop R C Examples.plain_checkout [Examples.staged_a]
    tree_idx (tree_idx, []) Examples.staged_world
  = (Ret ([mkEntry "a" Examples.sha_b 420 3 0 0 0 false; Examples.entry_b],
          []),
     Examples.staged_world) /\
  fst (Checkout.CheckoutCommit R C Examples.plain_checkout target
         Examples.staged_world) = Ret tt /\
  FS.Exists
    (tree (snd (Checkout.CheckoutCommit R C Examples.plain_checkout target
                  Examples.staged_world))) "b" = false /\
  FS.Exists
    (tree (snd (Checkout.CheckoutCommit R C0 Examples.plain_checkout target
                  Examples.staged_world))) "b" = true.
Proof.
  intros R tree_idx C C0 target.
  split; [repeat constructor; discriminate|].
  repeat split; vm_compute; reflexivity.
Qed.

(** ** More on object retrieval *)

Section MoreObjectFacts.
Import Objects.

Lemma byteZ_digit_byte (d : Z) :
  0 <= d <= 9 -> byteZ (digit_byte d) = 48 + d.
Proof.
  intros Hd.
  assert (d = 0 \/ d = 1 \/ d = 2 \/ d = 3 \/ d = 4 \/ d = 5 \/ d = 6 \/
          d = 7 \/ d = 8 \/ d = 9) as Hcases by lia.
  repeat (destruct Hcases as [->|Hcases]; [reflexivity|]).
  subst d. reflexivity.
Qed.

Lemma digits_value_digit acc d rest :
  0 <= d <= 9 ->
  digits_value acc (digit_byte d :: rest) = digits_value (acc * 10 + d) rest.
Proof.
  intros Hd. simpl. unfold is_digit. rewrite byteZ_digit_byte by done.
  replace (48 <=? 48 + d) with true by (symmetry; apply Z.leb_le; lia).
  replace (48 + d <=? 57) with true by (symmetry; apply Z.leb_le; lia).
  simpl. f_equal. lia.
Qed.

Lemma decimal_aux_S fuel n acc :
  decimal_aux (S fuel) n acc
  = if n <? 10 then digit_byte n :: acc
    else decimal_aux fuel (n / 10) (digit_byte (n mod 10) :: acc).
Proof. reflexivity. Qed.

Lemma decimal_aux_spec fuel : forall n acc,
  0 <= n < 10 ^ Z.of_nat (S fuel) ->
  exists ds, decimal_aux (S fuel) n acc = ds ++ acc /\ is_decimal n ds.
Proof.
  induction fuel as [|fuel IH]; intros n acc Hn;
    rewrite decimal_aux_S; destruct (Z.ltb_spec n 10) as [Hlt|Hge].
  1,3: exists [digit_byte n]; (split; [reflexivity|]);
       (split; [discriminate|]); split;
       [ constructor; [|constructor]; rewrite byteZ_digit_byte by lia; lia
       | intros acc0 rest; simpl app; rewrite digits_value_digit by lia;
         f_equal; simpl length; lia ].
  - change (Z.of_nat 1) with 1 in Hn. lia.
  - assert (Hdiv : 0 <= n / 10 < 10 ^ Z.of_nat (S fuel)).
    { split; [apply Z.div_pos; lia|].
      apply Z.div_lt_upper_bound; [lia|].
      rewrite (Nat2Z.inj_succ (S fuel)), Z.pow_succ_r in Hn by lia. lia. }
    destruct (IH (n / 10) (digit_byte (n mod 10) :: acc) Hdiv)
      as (ds & Hds & Hne & Hall & Hval).
    assert (Hmod : 0 <= n mod 10 <= 9)
      by (pose proof (Z.mod_pos_bound n 10); lia).
    exists (ds ++ [digit_byte (n mod 10)]). split.
    { rewrite Hds, <- app_assoc. reflexivity. }
    split; [by destruct ds|]. split.
    + apply Forall_app. split; [exact Hall|].
      constructor; [|constructor]. rewrite byteZ_digit_byte by lia. lia.
    + intros acc0 rest. rewrite <- app_assoc. simpl app.
      rewrite Hval, digits_value_digit by lia. f_equal.
      rewrite length_app. simpl length.
      rewrite Nat2Z.inj_add, Z.pow_add_r by lia.
      change (Z.of_nat 1) with 1. rewrite Z.pow_1_r.
      pose proof (Z.div_mod n 10). lia.
Qed.

Lemma decimal_spec n : 0 <= n -> is_decimal n (decimal n).
Proof.
  intros Hn. unfold decimal.
  destruct (decimal_aux_spec (Z.to_nat (Z.log2 n)) n []) as (ds & Hds & H).
  - split; [done|].
    destruct (Z.eq_dec n 0) as [->|Hnz]; [reflexivity|].
    pose proof (Z.log2_spec n ltac:(lia)) as [_ Hlog].
    rewrite Nat2Z.inj_succ, Z2Nat.id by apply Z.log2_nonneg.
    eapply Z.lt_le_trans; [exact Hlog|].
    apply Z.pow_le_mono_l. pose proof (Z.log2_nonneg n). lia.
  - rewrite Hds, app_nil_r. exact H.
Qed.

(** [Atoi] reads a decimal rendering back, up to the largest [int]. *)
Lemma Atoi_decimal n : 0 <= n <= int_max -> Atoi (decimal n) = (n, true).
Proof.
  intros [Hn Hmax].
  destruct (decimal_spec n Hn) as (Hne & Hall & Hval).
  destruct (decimal n) as [|d0 tl] eqn:Hd; [contradiction|].
  apply Forall_cons in Hall as [Hd0 Hall'].
  unfold Atoi.
  destruct (Z.eqb_spec (byteZ d0) 45) as [E|_]; [lia|].
  destruct (Z.eqb_spec (byteZ d0) 43) as [E|_]; [lia|].
  specialize (Hval 0 []). rewrite app_nil_r in Hval. rewrite Hval.
  replace (0 * 10 ^ Z.of_nat (length (d0 :: tl)) + n) with n by lia.
  simpl digits_value. cbn [negb andb].
  destruct (Z.ltb_spec int_max n); [lia|reflexivity].
Qed.

Lemma decimal_nonzero n :
  0 <= n -> Forall (fun b => byteZ b <> 0) (decimal n).
Proof.
  intros Hn. destruct (decimal_spec n Hn) as (_ & Hall & _).
  eapply Forall_impl; [exact Hall|]. simpl. intros b Hb. lia.
Qed.

(** X1: a blob stored in the loose format, the tag, the decimal
    length, a zero byte and the content, is read back whole:
    [GetObject] returns an object whose size is the length and whose
    [GetContent] is the content. *)
Theorem X1_blob_stream_round_trip
  (st : ObjectStore) (sha1 : Sha1) (found : bool) (body : bytes) :
  HaveObject st sha1 = (found, false, None) ->
  objfile st sha1 = Inflated (blob_stream body) ->
  Z.of_nat (length body) <= int_max ->
  exists obj,
    GetObject st sha1 = Ret obj /\
    GetSize obj = Z.of_nat (length body) /\
    GetContent obj = Ret body.
Proof.
  intros Hhave Hfile Hlen.
  exists (mkBlob (Z.of_nat (length body)) body).
  split; [|split].
  - unfold GetObject. rewrite Hhave, Hfile. unfold blob_stream.
    rewrite has_blob_tag_stream, parse_blob_stream
      by (apply decimal_nonzero; lia).
    rewrite Atoi_decimal by lia. reflexivity.
  - reflexivity.
  - unfold GetContent. simpl. by rewrite Z.eqb_refl.
Qed.

Lemma first_zero_none (b : bytes) (k : nat) :
  Forall (fun x => byteZ x <> 0) b -> first_zero k b = None.
Proof.
  intros H. revert k. induction H as [|x b Hx _ IH]; intros k; simpl; [done|].
  destruct (Z.eqb_spec (byteZ x) 0); [contradiction|apply IH].
Qed.

(** X2: a stream that has the tag and no zero byte at all, a header
    cut short, is not refused: [GetObject] returns an empty blob of
    size 0, and [GetContent] returns no bytes without complaint. *)
Theorem X2_header_without_zero_is_an_empty_blob
  (st : ObjectStore) (sha1 : Sha1) (found : bool) (b : bytes) :
  HaveObject st sha1 = (found, false, None) ->
  objfile st sha1 = Inflated b ->
  has_blob_tag b = true ->
  Forall (fun x => byteZ x <> 0) b ->
  GetObject st sha1 = Ret (mkBlob 0 []) /\
  GetContent (mkBlob 0 []) = Ret [].
Proof.
  intros Hhave Hfile Htag Hnz. split; [|reflexivity].
  unfold GetObject. rewrite Hhave, Hfile, Htag.
  unfold parse_blob. by rewrite first_zero_none.
Qed.

(** X3: [GetObject] returns an object only for a digest that is not
    packed, whose lookup did not fail and whose file inflates to a
    stream that starts with the blob tag; the content of the object is
    then a tail of that stream. *)
Theorem X3_GetObject_returns_only_blobs
  (st : ObjectStore) (sha1 : Sha1) (obj : GitBlobObject) :
  GetObject st sha1 = Ret obj ->
  exists found b k,
    HaveObject st sha1 = (found, false, None) /\
    objfile st sha1 = Inflated b /\
    take 5 b = bytes_of_string "blob " /\
    content obj = drop k b.
Proof.
  unfold GetObject.
  destruct (HaveObject st sha1) as [[found packed] err].
  destruct packed; [discriminate|].
  destruct err; [discriminate|].
  destruct (objfile st sha1) as [|e|e|b]; try discriminate.
  destruct (has_blob_tag b) eqn:Htag; [|discriminate].
  intros [= <-]. unfold has_blob_tag in Htag.
  apply bool_decide_eq_true in Htag.
  unfold parse_blob. destruct (first_zero 0 b) as [idx|].
  - exists found, b, (S idx). done.
  - exists found, b, (length b). simpl. by rewrite drop_all.
Qed.

End MoreObjectFacts.

Lemma X1_blob_stream_round_trip_witness :
  Objects.HaveObject Examples.good_store Examples.sha_a = (true, false, None) /\
  Objects.objfile Examples.good_store Examples.sha_a
    = Objects.Inflated (blob_stream (bytes_of_string "abc")) /\
  exists obj,
    Objects.GetObject Examples.good_store Examples.sha_a = Ret obj /\
    Objects.GetSize obj = 3 /\
    Objects.GetContent obj = Ret (bytes_of_string "abc").
Proof.
  split; [reflexivity|]. split; [reflexivity|].
  apply (X1_blob_stream_round_trip Examples.good_store Examples.sha_a true
           (bytes_of_string "abc")); [reflexivity | reflexivity |].
  vm_compute. discriminate.
Defined.

(** ** More on the working directory *)

Section MoreTreeFacts.
Import FS.

Lemma assoc_del_entry_eq {A} (c : string) (es : list (string * A)) :
  assoc c (del_entry c es) = None.
Proof.
  unfold del_entry. induction es as [|[n y] es IH]; simpl; [done|].
  destruct (String.eqb_spec n c) as [->|Hn]; simpl; [exact IH|].
  destruct (String.eqb_spec n c); [contradiction|exact IH].
Qed.

Lemma assoc_put_entry_eq {A} (c : string) (r : option A) es :
  assoc c (put_entry c r es) = r.
Proof.
  destruct r; simpl; [apply assoc_set_entry_eq | apply assoc_del_entry_eq].
Qed.

Lemma walk_app cf k t :
  walk (cf ++ k) t = match walk cf t with Some n => walk k n | None => None end.
Proof.
  revert t. induction cf as [|c cf IH]; intros t; simpl; [done|].
  destruct t as [|es]; [done|]. destruct (assoc c es); [apply IH|done].
Qed.

(** What was changed is found at the place of the change. *)
Lemma walk_alter_same cf : forall t g t',
  alter_path cf g t = Some t' ->
  exists r, g (walk cf t) = Some r /\ walk cf t' = r.
Proof.
  induction cf as [|c cf IH]; intros t g t' Ha; [discriminate|].
  destruct t as [|es]; [discriminate|]. simpl in Ha.
  destruct cf as [|c2 cf].
  - destruct (g (assoc c es)) as [r|] eqn:Hg; [|discriminate].
    injection Ha as <-. exists r. simpl. rewrite assoc_put_entry_eq.
    split; [|by destruct r].
    destruct (assoc c es); exact Hg.
  - destruct (assoc c es) as [ch|] eqn:Hc; [|discriminate].
    destruct (alter_path (c2 :: cf) g ch) as [ch'|] eqn:Hch; [|discriminate].
    injection Ha as <-.
    destruct (IH ch g ch' Hch) as (r & Hg & Hw).
    exists r. split.
    + change (walk (c :: c2 :: cf) (Dir es))
        with (match assoc c es with
              | Some ch => walk (c2 :: cf) ch | None => None end).
      rewrite Hc. exact Hg.
    + change (walk (c :: c2 :: cf) (Dir (set_entry c ch' es)))
        with (match assoc c (set_entry c ch' es) with
              | Some ch => walk (c2 :: cf) ch | None => None end).
      rewrite assoc_set_entry_eq. exact Hw.
Qed.

(** A file that does not lie at or below the place of a change is
    where it was. *)
Lemma walk_alter_off_path cf : forall t cq g t' d m mt,
  walk cq t = Some (File d m mt) ->
  alter_path cf g t = Some t' ->
  (forall k, cq <> cf ++ k) ->
  walk cq t' = Some (File d m mt).
Proof.
  induction cf as [|c cf IH]; intros t cq g t' d m mt Hq Ha Hoff;
    [discriminate|].
  destruct t as [|es]; [discriminate|]. simpl in Ha.
  destruct cq as [|c' cq]; [discriminate|]. simpl in Hq.
  destruct (String.eqb_spec c c') as [<-|Hcc].
  - destruct (assoc c es) as [ch|] eqn:Hc; [|discriminate].
    destruct cf as [|c2 cf].
    + exfalso. apply (Hoff cq). reflexivity.
    + destruct (alter_path (c2 :: cf) g ch) as [ch'|] eqn:Hch; [|discriminate].
      injection Ha as <-. simpl. rewrite assoc_set_entry_eq.
      eapply IH; [exact Hq | exact Hch |].
      intros k ->. apply (Hoff k). reflexivity.
  - destruct cf as [|c2 cf].
    + destruct (g (assoc c es)) as [r|]; [|discriminate].
      injection Ha as <-. simpl. by rewrite assoc_put_entry_ne.
    + destruct (assoc c es) as [ch|]; [|discriminate].
      destruct (alter_path (c2 :: cf) g ch) as [ch'|]; [|discriminate].
      injection Ha as <-. simpl. by rewrite assoc_set_entry_ne.
Qed.

(** A change that turns a file into a file of the same bytes, and
    fails on anything else, keeps the bytes of every file. *)
Lemma walk_alter_same_bytes cf : forall t cq g t' d,
  (forall cur r, g cur = Some r ->
     exists d0 m0 mt0 m1 mt1,
       cur = Some (File d0 m0 mt0) /\ r = Some (File d0 m1 mt1)) ->
  alter_path cf g t = Some t' ->
  (exists m mt, walk cq t = Some (File d m mt)) <->
  (exists m mt, walk cq t' = Some (File d m mt)).
Proof.
  induction cf as [|c cf IH]; intros t cq g t' d Hg Ha; [discriminate|].
  destruct t as [|es]; [discriminate|]. simpl in Ha.
  destruct cf as [|c2 cf].
  - destruct (g (assoc c es)) as [r|] eqn:Hr; [|discriminate].
    injection Ha as <-.
    destruct (Hg _ _ Hr) as (d0 & m0 & mt0 & m1 & mt1 & Hcur & ->).
    destruct cq as [|c' cq]; [split; intros (?&?&[=])|]. simpl.
    destruct (String.eqb_spec c c') as [<-|Hcc].
    + rewrite assoc_set_entry_eq, Hcur.
      destruct cq as [|c3 cq]; simpl.
      * split; intros (m & mt & [= <- <- <-]); eauto.
      * split; intros (?&?&[=]).
    + by rewrite assoc_set_entry_ne.
  - destruct (assoc c es) as [ch|] eqn:Hc; [|discriminate].
    destruct (alter_path (c2 :: cf) g ch) as [ch'|] eqn:Hch; [|discriminate].
    injection Ha as <-.
    destruct cq as [|c' cq]; [split; intros (?&?&[=])|]. simpl.
    destruct (String.eqb_spec c c') as [<-|Hcc].
    + rewrite assoc_set_entry_eq, Hc. by apply IH with (g := g).
    + by rewrite assoc_set_entry_ne.
Qed.

Lemma ReadFile_Some t p d :
  ReadFile t p = Some d <-> exists m mt, resolve t p = Some (File d m mt).
Proof.
  unfold ReadFile. destruct (resolve t p) as [[d0 m0 mt0|es]|].
  - split; [intros [= <-]; eauto | intros (?&?&[= <- _ _]); done].
  - split; [discriminate | intros (?&?&[=])].
  - split; [discriminate | intros (?&?&[=])].
Qed.

(** [Chmod] changes no file's bytes. *)
Lemma ReadFile_Chmod t p perm q d :
  ReadFile (Chmod t p perm) q = Some d <-> ReadFile t q = Some d.
Proof.
  rewrite !ReadFile_Some. unfold Chmod, alter.
  destruct (components p) as [cf|]; [|done].
  destruct (alter_path cf _ t) as [t'|] eqn:Ha; [|done].
  unfold resolve. destruct (components q) as [cq|]; [|done].
  symmetry. eapply walk_alter_same_bytes; [|exact Ha].
  intros [[d0 m0 mt0|es]|] r; try discriminate.
  intros [= <-]. eauto 10.
Qed.

(** A file written where nothing was leaves the bytes of the files
    that were there. *)
Lemma ReadFile_WriteFile_new t f data perm um now' t' q d :
  Exists t f = false ->
  WriteFile t f data perm um now' = Some t' ->
  ReadFile t q = Some d -> ReadFile t' q = Some d.
Proof.
  rewrite !ReadFile_Some. unfold Exists, WriteFile, alter, resolve.
  destruct (components f) as [cf|]; [|discriminate].
  destruct (walk cf t) eqn:Hcf; [discriminate|]. intros _ Ha.
  destruct (components q) as [cq|]; [|done].
  intros (m & mt & Hq). exists m, mt.
  eapply walk_alter_off_path; [exact Hq | exact Ha |].
  intros k ->. rewrite walk_app, Hcf in Hq. discriminate.
Qed.

(** What [WriteFile] wrote is what [ReadFile] reads. *)
Lemma ReadFile_WriteFile_same t f data perm um now' t' :
  WriteFile t f data perm um now' = Some t' ->
  exists m, resolve t' f = Some (File data m now') /\
            (Exists t f = false -> m = created_mode perm um).
Proof.
  unfold WriteFile, Exists, alter, resolve.
  destruct (components f) as [cf|]; [|discriminate]. intros Ha.
  destruct (walk_alter_same cf t _ t' Ha) as (r & Hg & Hw).
  destruct (walk cf t) as [[d0 m0 mt0|es]|]; try discriminate;
    injection Hg as <-; eexists; (split; [exact Hw|]); done.
Qed.

(** After [Chmod] a file has the mode, and its bytes and time. *)
Lemma resolve_Chmod_same t p perm d m mt :
  components p <> Some [] ->
  resolve t p = Some (File d m mt) ->
  resolve (Chmod t p perm) p = Some (File d (syscallMode perm) mt).
Proof.
  unfold Chmod, alter, resolve.
  destruct (components p) as [cf|]; [|discriminate]. intros Hne Hp.
  assert (Hcf : cf <> []) by congruence. clear Hne.
  destruct (alter_path cf _ t) as [t'|] eqn:Ha.
  - destruct (walk_alter_same cf t _ t' Ha) as (r & Hg & Hw).
    rewrite Hp in Hg. injection Hg as <-. exact Hw.
  - exfalso. revert t Hp Ha Hcf. clear.
    induction cf as [|c cf IH]; intros t Hp Ha Hcf; [contradiction|].
    destruct t as [|es]; [discriminate|]. simpl in Hp, Ha.
    destruct (assoc c es) as [ch|] eqn:Hc; [|discriminate].
    destruct cf as [|c2 cf].
    + simpl in Hp. injection Hp as ->. discriminate.
    + destruct (alter_path (c2 :: cf) _ ch) eqn:Hch; [discriminate|].
      eapply IH; [exact Hp | exact Hch | discriminate].
Qed.

Lemma WriteFile_components t f data perm um now' t' :
  WriteFile t f data perm um now' = Some t' -> components f <> Some [].
Proof.
  unfold WriteFile, alter. destruct (components f) as [[|c cf]|];
    [discriminate | discriminate | discriminate].
Qed.

End MoreTreeFacts.

(** ** More on path-scoped checkout *)

Section MoreCheckoutIndexFacts.
Import Checkoutindex.
Context (R : Repo).

(** The three ways an iteration can leave the state: as it was, with
    one more line of diagnostics, or with the target written and the
    requested path's mode set. *)
Lemma checkout_file_world opts entry file w r w' :
  checkout_file R opts entry file w = (r, w') ->
  w' = w \/
  (Quiet opts = false /\ exists line, w' = eprint w line) \/
  (NoCreate opts = false /\ proceeds R opts entry file w /\
   exists obj data t1,
     Objects.GetObject (store w) (Sha1_of entry) = Ret obj /\
     Objects.GetContent obj = Ret data /\
     FS.WriteFile (tree w) (Prefix opts +:+ file) data (Mode entry) (umask w) (now w)
       = Some t1 /\
     w' = with_tree w (FS.Chmod t1 file (Mode entry))).
Proof.
  unfold checkout_file, proceeds.
  destruct (IndexPath_of R file) as [indexpath|err|p] eqn:Hip.
  - destruct (String.eqb_spec (PathName entry) indexpath) as [Heq|Hne]; simpl;
      [|unfold ret; intros [= _ <-]; auto].
    subst indexpath. unfold bind at 1. unfold Checkoutindex.GetObject at 1.
    destruct (Objects.GetObject (store w) (Sha1_of entry)) as [obj|e|p] eqn:Hget;
      [| |intros [= _ <-]; auto];
      unfold bind at 1, reading at 1;
      destruct (FS.Exists (tree w) (Prefix opts +:+ file) && negb (Force opts))
        eqn:Hskip;
      try (unfold bind, diagnostic, modify, ret, fail;
           destruct (Quiet opts) eqn:Hq; intros [= _ <-]; eauto 6; fail).
    intros H. unfold bind at 1 in H.
    destruct (NoCreate opts) eqn:Hnc.
    + unfold ret at 1 in H.
      destruct (UpdateStat opts && String.eqb (Prefix opts) "").
      * unfold bind, Stat, ret in H.
        destruct (FS.Stat (tree w) (Prefix opts +:+ file));
          injection H as _ <-; auto.
      * unfold ret in H. injection H as _ <-. auto.
    + unfold bind at 1, lift at 1 in H.
      destruct (Objects.GetContent obj) as [data|e|p] eqn:Hc;
        [|injection H as _ <-; auto..].
      unfold bind at 1, WriteFile at 1 in H.
      destruct (FS.WriteFile (tree w) _ data (Mode entry) (umask w) (now w)) as [t1|] eqn:Hw;
        [|injection H as _ <-; auto].
      unfold Chmod at 1, modify at 1 in H.
      assert (w' = with_tree w (FS.Chmod t1 file (Mode entry))) as ->.
      { destruct (UpdateStat opts && String.eqb (Prefix opts) "").
        - unfold bind, Stat, ret in H.
          match type of H with
          | context [FS.Stat ?t ?f] => destruct (FS.Stat t f)
          end; injection H as _ <-; reflexivity.
        - unfold ret in H. injection H as _ <-. reflexivity. }
      right. right. split; [done|]. split; [done|].
      exists obj, data, t1. done.
  - unfold bind, diagnostic, modify, ret.
    destruct (Quiet opts) eqn:Hq; intros [= _ <-]; eauto 6.
  - unfold lift. intros [= _ <-]. auto.
Qed.

Lemma checkout_keeps_refl opts w : checkout_keeps opts w w.
Proof. unfold checkout_keeps. repeat split; auto. Qed.

Lemma checkout_keeps_trans opts w1 w2 w3 :
  checkout_keeps opts w1 w2 -> checkout_keeps opts w2 w3 ->
  checkout_keeps opts w1 w3.
Proof.
  unfold checkout_keeps.
  intros (?&?&?&?&?&Hq&Hn&Hf) (?&?&?&?&?&Hq'&Hn'&Hf').
  repeat split; try congruence.
  - intros Hx. rewrite Hq', Hq by done. done.
  - intros Hx. rewrite Hn', Hn by done. done.
  - intros Hx q d Hr. apply Hf'; [done|]. by apply Hf.
Qed.

Lemma checkout_file_keeps opts entry file w r w' :
  checkout_file R opts entry file w = (r, w') -> checkout_keeps opts w w'.
Proof.
  intros H. apply checkout_file_world in H
    as [->|[(Hq & line & ->)|(Hnc & [_ Hgo] & obj & data & t1 & _ & _ & Hw & ->)]].
  - apply checkout_keeps_refl.
  - unfold checkout_keeps. simpl. repeat split; auto. congruence.
  - unfold checkout_keeps. simpl. repeat split; try congruence.
    intros Hf q d Hr. rewrite Hf, andb_true_r in Hgo.
    apply ReadFile_Chmod.
    eapply ReadFile_WriteFile_new; [exact Hgo | exact Hw | exact Hr].
Qed.

Lemma loop_files_keeps opts entry files w r w' :
  loop_files R opts entry files w = (r, w') -> checkout_keeps opts w w'.
Proof.
  revert entry w. induction files as [|file rest IH]; intros entry w; simpl.
  - unfold ret. intros [= _ <-]. apply checkout_keeps_refl.
  - unfold bind.
    destruct (checkout_file R opts entry file w) as [r1 w1] eqn:Hcf.
    apply checkout_file_keeps in Hcf.
    destruct r1 as [e1|e|p]; [|by intros [= _ <-]..].
    intros H. eapply checkout_keeps_trans; [exact Hcf|]. exact (IH _ _ H).
Qed.

Lemma loop_entries_keeps opts idx files w r w' :
  loop_entries R opts idx files w = (r, w') -> checkout_keeps opts w w'.
Proof.
  revert w r w'. induction idx as [|entry rest IH]; intros w r w'; simpl.
  - unfold ret. intros [= _ <-]. apply checkout_keeps_refl.
  - unfold bind at 1.
    destruct (loop_files R opts entry files w) as [r1 w1] eqn:Hlf.
    apply loop_files_keeps in Hlf.
    destruct r1 as [e1|e|p]; [|by intros [= _ <-]..].
    unfold bind at 1.
    destruct (loop_entries R opts rest files w1) as [r2 w2] eqn:Hle.
    apply IH in Hle.
    assert (checkout_keeps opts w w2)
      by (eapply checkout_keeps_trans; eauto).
    destruct r2; unfold ret; by intros [= _ <-].
Qed.

Lemma save_index_keeps idx w r w' :
  save_index R idx w = (r, w') ->
  store w' = store w /\ refs w' = refs w /\ now w' = now w /\
  gitdir_writable w' = gitdir_writable w /\
  write_limit w' = write_limit w /\ stderr w' = stderr w /\
  tree w' = tree w.
Proof.
  unfold save_index, WriteIndex. unfold bind at 1. unfold GitDir_Create.
  destruct (gitdir_writable w) eqn:Hw; [|intros [= _ <-]; repeat split; done].
  unfold bind, write_handle, replace_index, modify.
  cbn [gitfiles with_gitfiles write_limit].
  destruct (write_limit w) as [k|] eqn:Hl;
    [destruct (Nat.ltb k (length (encode_index R idx)))|];
    cbn [gitfiles with_gitfiles];
    try (rewrite lookup_insert_eq);
    intros [= _ <-]; cbn; repeat split; done.
Qed.

(** The whole command keeps what its iterations keep. *)
Lemma CheckoutIndex_keeps opts files w r w' :
  CheckoutIndex R opts files w = (r, w') ->
  checkout_keeps opts w w'.
Proof.
  unfold CheckoutIndex.
  destruct (negb (Nat.eqb (length files) 0) && All opts).
  { unfold fail. intros [= _ <-]. apply checkout_keeps_refl. }
  unfold bind at 1.
  destruct (ReadIndex R w) as [ri wi] eqn:Hri.
  pose proof (ReadIndex_world _ _ _ _ Hri) as ->.
  destruct ri as [idx|e|p];
    [|intros [= _ <-]; apply checkout_keeps_refl..].
  unfold bind at 1.
  destruct (loop_entries R opts idx (requested opts idx files) w)
    as [rl wl] eqn:Hl.
  pose proof (loop_entries_keeps _ _ _ _ _ _ Hl) as Hk.
  destruct rl as [idx'|e|p]; [|by intros [= _ <-]..].
  destruct (UpdateStat opts).
  - intros Hs. apply save_index_keeps in Hs
      as (?&?&?&?&?&Hse&Ht).
    eapply checkout_keeps_trans; [exact Hk|].
    unfold checkout_keeps. rewrite Ht. repeat split; auto.
  - unfold ret. by intros [= _ <-].
Qed.

(** X4: without [Force], path-scoped checkout does not change the bytes
    of any file that is in the working directory when it starts,
    whatever it is asked to check out and however the run ends. *)
Theorem X4_no_force_keeps_existing_bytes
  (opts : CheckoutIndexOptions) (files : list string) (w w' : World)
  (r : outcome unit) (q : string) (d : bytes) :
  Force opts = false ->
  CheckoutIndex R opts files w = (r, w') ->
  FS.ReadFile (tree w) q = Some d ->
  FS.ReadFile (tree w') q = Some d.
Proof.
  intros Hf Hrun. apply CheckoutIndex_keeps in Hrun as Hk.
  destruct Hk as (_&_&_&_&_&_&_&H). exact (H Hf q d).
Qed.

(** X5: with [NoCreate], path-scoped checkout leaves the whole working
    directory as it is, also under [Force]. *)
Theorem X5_no_create_keeps_working_directory
  (opts : CheckoutIndexOptions) (files : list string) (w w' : World)
  (r : outcome unit) :
  NoCreate opts = true ->
  CheckoutIndex R opts files w = (r, w') ->
  tree w' = tree w.
Proof.
  intros Hn Hrun. apply CheckoutIndex_keeps in Hrun as Hk.
  destruct Hk as (_&_&_&_&_&_&H&_). exact (H Hn).
Qed.

(** X6: with [Quiet], path-scoped checkout writes nothing to the
    standard error: neither the "already exists" lines nor the errors
    of path conversion. *)
Theorem X6_quiet_prints_nothing
  (opts : CheckoutIndexOptions) (files : list string) (w w' : World)
  (r : outcome unit) :
  Quiet opts = true ->
  CheckoutIndex R opts files w = (r, w') ->
  stderr w' = stderr w.
Proof.
  intros Hq Hrun. apply CheckoutIndex_keeps in Hrun as Hk.
  destruct Hk as (_&_&_&_&_&H&_&_). exact (H Hq).
Qed.

(** X8: an iteration that gets past the skip and returns, without
    [NoCreate], has fetched the entry's object and left its content in
    the target file, stamped with the time of the write; with an empty
    [Prefix] the file also has, of the entry's mode, the bits the
    system keeps: the permission bits of a mode such as octal 100644,
    whatever the creation mask is. *)
Theorem X8_written_file_holds_the_object
  (opts : CheckoutIndexOptions) (entry e' : IndexEntry) (file : string)
  (w w' : World) :
  proceeds R opts entry file w ->
  NoCreate opts = false ->
  checkout_file R opts entry file w = (Ret e', w') ->
  exists obj,
    Objects.GetObject (store w) (Sha1_of entry) = Ret obj /\
    Z.of_nat (length (Objects.content obj)) = Objects.size obj /\
    FS.ReadFile (tree w') (Prefix opts +:+ file) = Some (Objects.content obj) /\
    (Prefix opts = "" ->
     FS.Stat (tree w') file
     = Some (FS.mkInfo false
               (Z.land (Mode entry) (511 + 2 ^ 23 + 2 ^ 22 + 2 ^ 20))
               (now w))).
Proof.
  intros [Hip Hgo] Hnc Hrun.
  unfold checkout_file in Hrun. rewrite Hip, String.eqb_refl in Hrun.
  simpl in Hrun. unfold bind at 1 in Hrun.
  unfold Checkoutindex.GetObject at 1 in Hrun.
  destruct (Objects.GetObject (store w) (Sha1_of entry)) as [obj|e|p];
    [| |discriminate];
    unfold bind at 1, reading at 1 in Hrun; rewrite Hgo in Hrun;
    [|discriminate].
  rewrite Hnc in Hrun. unfold bind at 1 in Hrun.
  unfold bind at 1, lift at 1 in Hrun.
  pose proof (eq_refl (Objects.GetContent obj)) as Hc.
  unfold Objects.GetContent at 2 in Hc.
  destruct (Z.eqb_spec (Z.of_nat (length (Objects.content obj)))
              (Objects.size obj)) as [Hsize|_];
    rewrite Hc in Hrun; [|discriminate].
  unfold bind at 1, WriteFile at 1 in Hrun.
  destruct (FS.WriteFile (tree w) _ _ (Mode entry) (umask w) (now w)) as [t1|] eqn:Hw;
    [|discriminate].
  unfold Chmod at 1, modify at 1 in Hrun.
  assert (tree w' = FS.Chmod t1 file (Mode entry)) as Ht.
  { destruct (UpdateStat opts && String.eqb (Prefix opts) "").
    - unfold bind, Stat, ret in Hrun.
      match type of Hrun with
      | context [FS.Stat ?t ?f] => destruct (FS.Stat t f)
      end; [|discriminate]. by injection Hrun as _ <-.
    - unfold ret in Hrun. by injection Hrun as _ <-. }
  exists obj. split; [reflexivity|]. split; [exact Hsize|].
  rewrite Ht.
  destruct (ReadFile_WriteFile_same _ _ _ _ _ _ _ Hw) as (m & Hres & _).
  split.
  - apply ReadFile_Chmod. apply ReadFile_Some. eauto.
  - intros Hpre. rewrite Hpre in Hres, Hw.
    change ("" +:+ file) with file in Hres, Hw.
    unfold FS.Stat.
    erewrite resolve_Chmod_same; [reflexivity | | exact Hres].
    eapply WriteFile_components. exact Hw.
Qed.

End MoreCheckoutIndexFacts.

(** ** The order of the results of ls-files *)

Section LessFacts.
Import Lsfiles.

(** The loop of [Less] is the byte-wise "less or equal" of strings. *)
Lemma bytes_less_leb (i j : string) : bytes_less i j = String.leb i j.
Proof.
  unfold String.leb. revert j.
  induction i as [|a i IH]; intros [|b j]; simpl; try reflexivity.
  unfold Ascii.compare.
  destruct (N.ltb_spec (N_of_ascii a) (N_of_ascii b)) as [Hlt|Hge].
  - apply N.compare_lt_iff in Hlt. by rewrite Hlt.
  - destruct (N.ltb_spec (N_of_ascii b) (N_of_ascii a)) as [Hlt'|Hge'].
    + apply N.compare_gt_iff in Hlt'. by rewrite Hlt'.
    + assert (N_of_ascii a = N_of_ascii b) as -> by lia.
      rewrite N.compare_refl. apply IH.
Qed.

Lemma compare_refl (s : string) : String.compare s s = Eq.
Proof.
  induction s as [|a s IH]; simpl; [reflexivity|].
  unfold Ascii.compare. rewrite N.compare_refl. exact IH.
Qed.

(** X9: [lsByPath.Less] is the strict lexicographic order on the pair
    of the path, compared byte by byte (a proper prefix first), and
    the stage. *)
Theorem X9_Less_is_lexicographic (a b : LsFilesResult) :
  Less a b = true <->
  String.compare (PathName (entry_of a)) (PathName (entry_of b)) = Lt \/
  (PathName (entry_of a) = PathName (entry_of b) /\
   Stage (entry_of a) < Stage (entry_of b)).
Proof.
  unfold Less. rewrite bytes_less_leb. unfold String.leb.
  destruct (String.eqb_spec (PathName (entry_of a)) (PathName (entry_of b)))
    as [Heq|Hne].
  - rewrite Heq.
    assert (String.compare (PathName (entry_of b)) (PathName (entry_of b)) = Eq)
      as -> by (apply compare_refl).
    rewrite Z.ltb_lt. split; [auto|]. intros [[=]|[_ H]]. exact H.
  - destruct (String.compare _ _) eqn:Hc.
    + apply String.compare_eq_iff in Hc. contradiction.
    + split; auto.
    + split; [discriminate|]. intros [[=]|[H _]]. contradiction.
Qed.

Lemma compare_Gt_Lt (s t : string) :
  String.compare s t = Gt <-> String.compare t s = Lt.
Proof.
  rewrite (String.compare_antisym t s).
  destruct (String.compare s t); simpl; split; congruence.
Qed.

Lemma compare_Lt_trans (s t u : string) :
  String.compare s t = Lt -> String.compare t u = Lt ->
  String.compare s u = Lt.
Proof.
  intros H1 H2.
  assert (Hst : String.le s t) by (unfold String.le, String.leb; by rewrite H1).
  assert (Htu : String.le t u) by (unfold String.le, String.leb; by rewrite H2).
  assert (Hsu : String.le s u) by (etrans; eauto).
  unfold String.le, String.leb in Hsu.
  destruct (String.compare s u) eqn:Hc; [|done|done].
  apply String.compare_eq_iff in Hc. subst u.
  apply compare_Gt_Lt in H2. congruence.
Qed.

(** A key for the order: how two results compare. *)
Lemma not_after_iff (x y : LsFilesResult) :
  not_after x y <->
  String.compare (PathName (entry_of x)) (PathName (entry_of y)) = Lt \/
  (PathName (entry_of x) = PathName (entry_of y) /\
   Stage (entry_of x) <= Stage (entry_of y)).
Proof.
  unfold not_after. rewrite <- not_true_iff_false, X9_Less_is_lexicographic.
  destruct (String.compare (PathName (entry_of x)) (PathName (entry_of y)))
    eqn:Hc.
  - apply String.compare_eq_iff in Hc. rewrite Hc.
    assert (String.compare (PathName (entry_of y)) (PathName (entry_of y)) = Eq)
      as -> by (apply compare_refl).
    split.
    + intros H. right. split; [done|].
      destruct (Z.le_gt_cases (Stage (entry_of x)) (Stage (entry_of y)));
        [done|]. exfalso. apply H. right. split; [done|lia].
    + intros [[=]|[_ H]] [[=]|[_ H']]. lia.
  - split; [auto|]. intros _ [H|[H _]].
    + apply compare_Gt_Lt in H. congruence.
    + rewrite H in Hc.
      assert (String.compare (PathName (entry_of x)) (PathName (entry_of x)) = Eq)
        by (apply compare_refl). congruence.
  - apply compare_Gt_Lt in Hc. split.
    + intros H. exfalso. apply H. left. exact Hc.
    + intros [[=]|[H _]]. rewrite H in Hc.
      assert (String.compare (PathName (entry_of y)) (PathName (entry_of y)) = Eq)
        by (apply compare_refl). congruence.
Qed.

Lemma not_after_trans (x y z : LsFilesResult) :
  not_after x y -> not_after y z -> not_after x z.
Proof.
  rewrite !not_after_iff.
  intros [H1|[E1 S1]] [H2|[E2 S2]].
  - left. eapply compare_Lt_trans; eauto.
  - left. by rewrite <- E2.
  - left. by rewrite E1.
  - right. split; [congruence|lia].
Qed.

Lemma not_after_total (x y : LsFilesResult) :
  Less y x = true -> not_after y x.
Proof.
  intros H. apply X9_Less_is_lexicographic in H. apply not_after_iff.
  destruct H as [H|[E S]]; [left; done|right; split; [done|lia]].
Qed.

Lemma insert_sorted_sorted (x : LsFilesResult) (l : list LsFilesResult) :
  StronglySorted not_after l -> StronglySorted not_after (insert_sorted x l).
Proof.
  induction 1 as [|y l Hs IH Hall]; simpl.
  - constructor; constructor.
  - destruct (Less y x) eqn:Hyx.
    + constructor; [exact IH|].
      apply List.Forall_forall. intros z Hz.
      apply insert_sorted_In in Hz as [->|Hz].
      * by apply not_after_total.
      * rewrite List.Forall_forall in Hall. by apply Hall.
    + constructor; [by constructor|].
      constructor; [exact Hyx|].
      eapply Forall_impl; [exact Hall|]. simpl. intros z Hz.
      eapply not_after_trans; [exact Hyx|exact Hz].
Qed.

Lemma sort_results_sorted (l : list LsFilesResult) :
  StronglySorted not_after (sort_results l).
Proof.
  unfold sort_results. induction l as [|x l IH]; simpl.
  - constructor.
  - by apply insert_sorted_sorted.
Qed.

End LessFacts.

Section SortedResults.
Import Lsfiles.
Context (R : Repo).

(** X10: the results [LsFiles] returns are in order: no result is less,
    by path bytes and then stage, than one that stands before it,
    whichever modes contributed them. *)
Theorem X10_LsFiles_results_are_sorted
  (opt : LsFilesOptions) (files : list string) (w w' : World)
  (results : list LsFilesResult) :
  LsFiles R opt files w = (Ret results, w') ->
  StronglySorted not_after results.
Proof.
  unfold LsFiles. unfold bind at 1.
  destruct (ReadIndex R w) as [[index|?|?] w0]; [|discriminate..].
  unfold bind at 1.
  destruct (index_loop R opt files index w0) as [[fs|?|?] w1]; [|discriminate..].
  unfold bind at 1.
  match goal with
  | |- context [(if ErrorUnmatch opt then ?a else ?b) w1] =>
      destruct ((if ErrorUnmatch opt then a else b) w1) as [[[]|?|?] w2]
  end; [|discriminate..].
  destruct (Others opt).
  - unfold bind at 1.
    destruct (parse_exclude_files R _ w2) as [[fromFiles|?|?] w3];
      [|discriminate..].
    unfold bind at 1, reading at 1. unfold bind at 1.
    destruct (findUntrackedFilesFromDir R _ _ _ _ _ _ _ _ w3)
      as [[others|?|?] w4]; [|discriminate..].
    unfold bind at 1, lift at 1.
    destruct (others_loop R files others) as [unknown|?|?]; [|discriminate..].
    unfold ret. intros [= <- _]. apply sort_results_sorted.
  - unfold ret. intros [= <- _]. apply sort_results_sorted.
Qed.

End SortedResults.

(** ** What ls-files reads and what it reports *)

Section ReadOnlyFacts.
Import Lsfiles.
Context (R : Repo).

Lemma only_prints_refl w : only_prints w w.
Proof. repeat split. Qed.

Lemma only_prints_trans w1 w2 w3 :
  only_prints w1 w2 -> only_prints w2 w3 -> only_prints w1 w3.
Proof.
  unfold only_prints. intros (?&?&?&?&?&?&?) (?&?&?&?&?&?&?).
  repeat split; congruence.
Qed.

Lemma only_prints_eprint w line : only_prints w (eprint w line).
Proof. repeat split. Qed.

Section Yields.
Context (P : IndexEntry -> Prop).

Lemma yields_ret (l : list IndexEntry) :
  Forall P l -> prints_and_yields P (ret l).
Proof.
  intros Hl w r w' [= <- <-]. split; [apply only_prints_refl|].
  by intros l' [= <-].
Qed.

Lemma yields_bind_reader {A} (m : M A) (k : A -> M (list IndexEntry)) :
  (forall w r w', m w = (r, w') -> only_prints w w') ->
  (forall a, prints_and_yields P (k a)) ->
  prints_and_yields P (bind m k).
Proof.
  intros Hm Hk w r w'. unfold bind.
  destruct (m w) as [r1 w1] eqn:Hmw. specialize (Hm _ _ _ Hmw).
  destruct r1 as [a|e|p].
  - intros Hka. destruct (Hk a _ _ _ Hka) as [Hp Hl].
    split; [eapply only_prints_trans; eauto | exact Hl].
  - intros [= <- <-]. split; [done|discriminate].
  - intros [= <- <-]. split; [done|discriminate].
Qed.

Lemma yields_append (m1 m2 : M (list IndexEntry)) :
  prints_and_yields P m1 -> prints_and_yields P m2 ->
  prints_and_yields P
    (here <- m1 ;; more <- m2 ;; ret (here ++ more))%cmd.
Proof.
  intros H1 H2 w r w'. unfold bind, ret.
  destruct (m1 w) as [r1 w1] eqn:E1. destruct (H1 _ _ _ E1) as [Hp1 Hl1].
  destruct r1 as [here|e|p];
    [|intros [= <- <-]; split; [done|discriminate]..].
  destruct (m2 w1) as [r2 w2] eqn:E2. destruct (H2 _ _ _ E2) as [Hp2 Hl2].
  assert (only_prints w w2) by (eapply only_prints_trans; eauto).
  destruct r2 as [more|e|p];
    [|intros [= <- <-]; split; [done|discriminate]..].
  intros [= <- <-]. split; [done|]. intros l [= <-].
  apply Forall_app. split; [by apply Hl1 | by apply Hl2].
Qed.

End Yields.

Lemma must_IndexPath_reads p w r w' :
  must_IndexPath R p w = (r, w') -> only_prints w w'.
Proof.
  unfold must_IndexPath, ret, lift.
  destruct (IndexPath_of R p); intros [= _ <-]; apply only_prints_refl.
Qed.

Lemma add_dir_excludes_reads excludes dir n : forall patterns w r w',
  add_dir_excludes R excludes dir n patterns w = (r, w') -> only_prints w w'.
Proof.
  induction excludes as [|ignorefile rest IH]; intros patterns w r w'; simpl.
  - unfold ret. intros [= _ <-]. apply only_prints_refl.
  - destruct (FS.resolve n ignorefile); [|apply IH].
    unfold bind, modify, reading.
    destruct (ParseIgnorePatterns R _ _ _) as [ps|e|p].
    + intros H. apply IH in H.
      eapply only_prints_trans; [apply only_prints_eprint|exact H].
    + intros H. apply IH in H.
      eapply only_prints_trans; [apply only_prints_eprint|exact H].
    + unfold lift. intros [= _ <-]. apply only_prints_eprint.
Qed.

Lemma prefix_refl (s : string) : String.prefix s s = true.
Proof.
  induction s as [|a s IH]; simpl; [reflexivity|].
  destruct (Ascii.ascii_dec a a); [exact IH|contradiction].
Qed.

(** A directory that holds no tracked path is not itself a tracked
    path, with or without a closing slash. *)
Lemma dirHasTracked_false (tracked : gset string) (ip : string) :
  dirHasTracked tracked ip = false ->
  (ip ∉ tracked) /\ ((ip +:+ "/") ∉ tracked).
Proof.
  unfold dirHasTracked. intros H.
  assert (Hall : forall path, path ∈ tracked -> HasPrefix path ip = false).
  { intros path Hin. apply elem_of_elements, list_elem_of_In in Hin.
    destruct (HasPrefix path ip) eqn:E; [|done].
    assert (existsb (fun path => HasPrefix path ip) (elements tracked) = true)
      by (apply existsb_exists; eauto).
    congruence. }
  split; intros Hin; apply Hall in Hin; unfold HasPrefix in Hin.
  - by rewrite prefix_refl in Hin.
  - by rewrite prefix_app in Hin.
Qed.

(** The scanner, whatever its options and patterns, at most prints,
    and no entry it returns has a tracked path. *)
Lemma scanner_reads_and_reports_untracked (tracked : gset string) :
  forall n opts root parent dir recursedir patterns,
    prints_and_yields (fun e => PathName e ∉ tracked)
      (findUntrackedFilesFromDir R opts root parent dir n tracked
         recursedir patterns).
Proof.
  intros n. induction n as [d0 m0 t0|es IHes] using node_ind';
    intros opts root parent dir recursedir patterns.
  - apply yields_ret. constructor.
  - simpl. apply yields_bind_reader; [apply add_dir_excludes_reads|].
    intros patterns'.
    induction es as [|[fname child] rest IHrest].
    + apply yields_ret. constructor.
    + apply Forall_cons in IHes as [IHchild IHes]. simpl in IHchild.
      apply yields_append; [|exact (IHrest IHes)].
      destruct (String.eqb fname ".git"); [apply yields_ret; constructor|].
      destruct child as [d0 m0 t0|ces].
      * destruct (ignored R patterns' parent fname false);
          [apply yields_ret; constructor|].
        unfold scan_file.
        apply yields_bind_reader; [apply must_IndexPath_reads|]. intros _.
        destruct (bool_decide_reflect
                    (TrimPrefix (under parent fname) root ∈ tracked)).
        -- apply yields_ret. constructor.
        -- apply yields_ret. constructor; [exact n|constructor].
      * destruct (ignored R patterns' parent fname true);
          [apply yields_ret; constructor|].
        destruct recursedir; [apply IHchild|].
        apply yields_bind_reader; [apply must_IndexPath_reads|].
        intros indexPath.
        destruct (dirHasTracked tracked indexPath) eqn:Hd; [apply IHchild|].
        apply dirHasTracked_false in Hd as [Hd1 Hd2].
        unfold collapsed_dir. destruct (Directory opts).
        -- apply yields_bind_reader.
           { unfold reading. intros ? ? ? [= _ <-]. apply only_prints_refl. }
           intros empty. destruct (NoEmptyDirectory opts && empty).
           ++ apply yields_ret. constructor.
           ++ apply yields_ret. constructor; [exact Hd2|constructor].
        -- apply yields_ret. constructor; [exact Hd1|constructor].
Qed.

Lemma index_loop_reads opt files idx : forall w r w',
  index_loop R opt files idx w = (r, w') -> w' = w.
Proof.
  induction idx as [|entry rest IH]; intros w r w'; simpl.
  - unfold ret. by intros [= _ <-].
  - unfold bind at 1, lift at 1.
    destruct (FilePath_of R (PathName entry)) as [f|?|?];
      [|by intros [= _ <-]..].
    unfold bind at 1, lift at 1.
    destruct (selected R true f files) as [keep|?|?];
      [|by intros [= _ <-]..].
    unfold bind at 1.
    destruct ((if keep then classify R opt entry f else ret []) w)
      as [rh wh] eqn:Hhere.
    assert (wh = w) as ->.
    { destruct keep; [by apply classify_reads in Hhere as [-> _]|].
      unfold ret in Hhere. by injection Hhere as _ <-. }
    destruct rh as [here|?|?]; [|by intros [= _ <-]..].
    unfold bind at 1.
    destruct (index_loop R opt files rest w) as [rm wm] eqn:Hm.
    apply IH in Hm as ->.
    destruct rm; unfold ret; by intros [= _ <-].
Qed.

Lemma parse_exclude_files_reads excludeFiles : forall w r w',
  parse_exclude_files R excludeFiles w = (r, w') -> w' = w.
Proof.
  induction excludeFiles as [|file rest IH]; intros w r w'; simpl.
  - unfold ret. by intros [= _ <-].
  - unfold bind at 1, reading at 1. unfold bind at 1, lift at 1.
    destruct (ParseIgnorePatterns R w file "") as [ps|?|?];
      [|by intros [= _ <-]..].
    unfold bind at 1.
    destruct (parse_exclude_files R rest w) as [rm wm] eqn:Hm.
    apply IH in Hm as ->.
    destruct rm; unfold ret; by intros [= _ <-].
Qed.

Lemma others_loop_members files others unknown :
  others_loop R files others = Ret unknown ->
  forall x, In x unknown ->
    exists file, In file others /\ x = mkResult file "?"%char.
Proof.
  revert unknown. induction others as [|file rest IH]; intros unknown; simpl.
  - intros [= <-] x [].
  - destruct (FilePath_of R (PathName file)) as [f|?|?]; [|discriminate..].
    simpl. destruct (selected R false f files) as [keep|?|?];
      [|discriminate..].
    simpl. destruct (others_loop R files rest) as [more|?|?];
      [|discriminate..].
    simpl. intros [= <-] x Hx. apply in_app_or in Hx as [Hx|Hx].
    + destruct keep; [|destruct Hx]. destruct Hx as [<-|[]]. eauto.
    + destruct (IH more eq_refl x Hx) as (file' & Hin & ->). eauto.
Qed.

Lemma classify_codes opt entry f w l w' :
  classify R opt entry f w = (Ret l, w') ->
  forall x, In x l -> StatusCode x <> "?"%char.
Proof.
  unfold classify, HashFile. unfold_cmd.
  destruct (Cached opt);
    [|destruct (Deleted opt && negb (FS.Exists (tree w) f));
      [|destruct (Unmerged opt && negb (Z.eqb (Stage entry) 0));
        [|destruct (Modified opt);
          [destruct (FS.IsDir (tree w) f);
            [|destruct (FS.Stat (tree w) f);
              [destruct (FS.ReadFile (tree w) f);
                [destruct (bool_decide (hash_blob R b = Sha1_of entry))|]|]]|]]]];
    intros [= <- _] x; simpl;
    first [intros [<-|[]]; simpl; try destruct (SkipWorktree entry); discriminate
          | intros []].
Qed.

(** The pieces of a run of [LsFiles] that returns. *)
Lemma LsFiles_run opt files w results w' :
  LsFiles R opt files w = (Ret results, w') ->
  exists index fs,
    ReadIndex R w = (Ret index, w) /\
    index_loop R opt files index w = (Ret fs, w) /\
    (ErrorUnmatch opt = true ->
     error_unmatch R (list_to_set (map PathName index)) files = Ret tt) /\
    ((Others opt = false /\ results = sort_results fs) \/
     (Others opt = true /\
      exists opt' root patterns w1 others unknown,
        findUntrackedFilesFromDir R opt' root (WorkDir R) (WorkDir R) (tree w)
          (list_to_set (map PathName index)) (negb (Directory opt)) patterns w
        = (Ret others, w1) /\
        others_loop R files others = Ret unknown /\
        results = sort_results (fs ++ unknown))).
Proof.
  unfold LsFiles. unfold bind at 1.
  destruct (ReadIndex R w) as [ri w0] eqn:Hri.
  pose proof (ReadIndex_world _ _ _ _ Hri) as ->.
  destruct ri as [index|?|?]; [|discriminate..].
  unfold bind at 1.
  destruct (index_loop R opt files index w) as [rl w1] eqn:Hloop.
  pose proof (index_loop_reads _ _ _ _ _ _ Hloop) as ->.
  destruct rl as [fs|?|?]; [|discriminate..].
  unfold bind at 1. intros H.
  exists index, fs. split; [done|]. split; [done|].
  destruct (ErrorUnmatch opt) eqn:He.
  - rewrite orb_true_r in H. unfold lift at 1 in H.
    destruct (error_unmatch R _ files) as [[]|?|?] eqn:Heu; [|discriminate..].
    split; [done|].
    destruct (Others opt) eqn:Ho; [|left; unfold ret in H; by injection H as <- _].
    right. split; [done|]. revert H.
    unfold bind at 1.
    destruct (parse_exclude_files R _ w) as [rp wp] eqn:Hp.
    pose proof (parse_exclude_files_reads _ _ _ _ Hp) as ->.
    destruct rp as [fromFiles|?|?]; [|discriminate..].
    unfold bind at 1, reading at 1. unfold bind at 1.
    destruct (findUntrackedFilesFromDir R _ _ _ _ _ _ _ _ w)
      as [[others|?|?] w4] eqn:Hscan; [|discriminate..].
    unfold bind at 1, lift at 1.
    destruct (others_loop R files others) as [unknown|?|?] eqn:Hol;
      [|discriminate..].
    unfold ret. intros [= <- _]. eauto 12.
  - rewrite orb_false_r in H. unfold ret at 1 in H.
    split; [discriminate|].
    destruct (Others opt) eqn:Ho; [|left; unfold ret in H; by injection H as <- _].
    right. split; [done|]. revert H.
    unfold bind at 1.
    destruct (parse_exclude_files R _ w) as [rp wp] eqn:Hp.
    pose proof (parse_exclude_files_reads _ _ _ _ Hp) as ->.
    destruct rp as [fromFiles|?|?]; [|discriminate..].
    unfold bind at 1, reading at 1. unfold bind at 1.
    destruct (findUntrackedFilesFromDir R _ _ _ _ _ _ _ _ w)
      as [[others|?|?] w4] eqn:Hscan; [|discriminate..].
    unfold bind at 1, lift at 1.
    destruct (others_loop R files others) as [unknown|?|?] eqn:Hol;
      [|discriminate..].
    unfold ret. intros [= <- _]. eauto 12.
Qed.

(** X11: [LsFiles] is read-only: whatever the options and however it
    ends, the working directory, the git directory, the refs and the
    object store are as before; it can only have written to the
    standard error. *)
Theorem X11_LsFiles_only_prints
  (opt : LsFilesOptions) (files : list string) (w w' : World)
  (r : outcome (list LsFilesResult)) :
  LsFiles R opt files w = (r, w') -> only_prints w w'.
Proof.
  unfold LsFiles. unfold bind at 1.
  destruct (ReadIndex R w) as [ri w0] eqn:Hri.
  pose proof (ReadIndex_world _ _ _ _ Hri) as ->.
  destruct ri as [index|?|?]; [|intros [= _ <-]; apply only_prints_refl..].
  unfold bind at 1.
  destruct (index_loop R opt files index w) as [rl w1] eqn:Hloop.
  pose proof (index_loop_reads _ _ _ _ _ _ Hloop) as ->.
  destruct rl as [fs|?|?]; [|intros [= _ <-]; apply only_prints_refl..].
  unfold bind at 1.
  match goal with
  | |- context [(if ErrorUnmatch opt then ?a else ?b) w] =>
      destruct ((if ErrorUnmatch opt then a else b) w) as [ru wu] eqn:Hu
  end.
  assert (wu = w) as ->.
  { destruct (ErrorUnmatch opt); unfold lift, ret in Hu; by injection Hu as _ <-. }
  destruct ru as [[]|?|?]; [|intros [= _ <-]; apply only_prints_refl..].
  destruct (Others opt);
    [|unfold ret; intros [= _ <-]; apply only_prints_refl].
  unfold bind at 1.
  destruct (parse_exclude_files R _ w) as [rp wp] eqn:Hp.
  pose proof (parse_exclude_files_reads _ _ _ _ Hp) as ->.
  destruct rp as [fromFiles|?|?]; [|intros [= _ <-]; apply only_prints_refl..].
  unfold bind at 1, reading at 1. unfold bind at 1.
  destruct (findUntrackedFilesFromDir R _ _ _ _ _ _ _ _ w)
    as [rs ws] eqn:Hscan.
  destruct (scanner_reads_and_reports_untracked _ _ _ _ _ _ _ _ _ _ _ Hscan)
    as [Hp' _].
  destruct rs as [others|?|?]; [|by intros [= _ <-]..].
  unfold bind at 1, lift at 1.
  destruct (others_loop R files others); unfold ret; by intros [= _ <-].
Qed.

(** X12: with [Cached] and without [Others] (and [Killed]), the
    results are exactly the entries of the index that pass the filter
    on requested paths, with code [S] for an entry that has the
    skip-worktree flag and [H] otherwise; the other mode flags and the
    working directory have no part in it. *)
Theorem X12_cached_lists_the_index
  (opt : LsFilesOptions) (files : list string) (w w' : World)
  (results : list LsFilesResult) (x : LsFilesResult) :
  Cached opt = true -> Others opt = false ->
  LsFiles R opt files w = (Ret results, w') ->
  (In x results <->
   exists index entry f,
     ReadIndex R w = (Ret index, w) /\ In entry index /\
     FilePath_of R (PathName entry) = Ret f /\
     selected R true f files = Ret true /\
     x = mkResult entry (if SkipWorktree entry then "S" else "H")%char).
Proof.
  intros Hc Ho Hrun.
  destruct (LsFiles_run _ _ _ _ _ Hrun)
    as (index & fs & Hri & Hloop & _ & [[_ ->]|[Ho' _]]); [|congruence].
  apply index_loop_results in Hloop as [_ Hfs].
  rewrite sort_results_In, Hfs.
  assert (Hcl : forall entry f,
            classify R opt entry f w
            = (Ret [mkResult entry (if SkipWorktree entry then "S" else "H")%char], w)).
  { intros entry f. unfold classify. by rewrite Hc. }
  split.
  - intros (entry & f & l & Hin & Hf & Hs & Hl & Hx).
    rewrite Hcl in Hl. injection Hl as <-. destruct Hx as [<-|[]].
    exists index, entry, f. done.
  - intros (index' & entry & f & Hri' & Hin & Hf & Hs & ->).
    rewrite Hri in Hri'. injection Hri' as <-.
    exists entry, f, [mkResult entry (if SkipWorktree entry then "S" else "H")%char].
    repeat split; try done. left. reflexivity.
Qed.

(** X13: without [Cached] (and [Killed]), an entry of the index that
    passes the filter is reported with code [R] exactly when [Deleted]
    is set and its path does not exist, and with code [M] exactly when
    it is not reported with [R], [Unmerged] is set and its stage is
    not 0. *)
Theorem X13_deleted_and_unmerged_codes
  (opt : LsFilesOptions) (files : list string) (w w' : World)
  (index : Index) (results : list LsFilesResult)
  (entry : IndexEntry) (f : string) :
  Cached opt = false ->
  ReadIndex R w = (Ret index, w) ->
  LsFiles R opt files w = (Ret results, w') ->
  In entry index ->
  FilePath_of R (PathName entry) = Ret f ->
  selected R true f files = Ret true ->
  let gone := Deleted opt && negb (FS.Exists (tree w) f) in
  (In (mkResult entry "R"%char) results <-> gone = true) /\
  (In (mkResult entry "M"%char) results <->
   gone = false /\ Unmerged opt = true /\ Stage entry <> 0).
Proof.
  intros Hc Hri Hrun Hin Hf Hsel gone.
  destruct (LsFiles_run _ _ _ _ _ Hrun)
    as (index' & fs & Hri' & Hloop & _ & Hres).
  rewrite Hri in Hri'. injection Hri' as <-.
  apply index_loop_results in Hloop as [_ Hfs].
  assert (Hmem : forall c, c <> "?"%char ->
            (In (mkResult entry c) results <->
             exists l, classify R opt entry f w = (Ret l, w) /\
                       In (mkResult entry c) l)).
  { intros c Hcq.
    assert (In (mkResult entry c) results <-> In (mkResult entry c) fs) as ->.
    { destruct Hres as [[_ ->]|(_ & ? & ? & ? & ? & others & unknown & _ & Hol & ->)];
        rewrite sort_results_In; [done|].
      rewrite in_app_iff. split; [|auto]. intros [H|H]; [done|].
      destruct (others_loop_members _ _ _ Hol _ H) as (? & _ & [= _ E]).
      congruence. }
    rewrite Hfs. split.
    - intros (e & f' & l & Hine & Hf' & _ & Hl & Hx).
      destruct (classify_reads _ _ _ _ _ _ _ Hl) as [_ He].
      specialize (He l _ eq_refl Hx). simpl in He. subst e.
      rewrite Hf in Hf'. injection Hf' as <-. eauto.
    - intros (l & Hl & Hx). exists entry, f, l. done. }
  rewrite !Hmem by discriminate. clear Hmem.
  unfold classify, HashFile. unfold_cmd. rewrite Hc. fold gone.
  destruct gone.
  { split.
    - split; [done|]. intros _. eexists. split; [reflexivity|]. by left.
    - split; [|intros [[=] _]].
      intros (l & [= <-] & [[=]|[]]). }
  split.
  - split; [|discriminate]. intros (l & Hl & Hx). exfalso. revert Hl.
    destruct (Unmerged opt && negb (Z.eqb (Stage entry) 0));
      [|destruct (Modified opt);
        [destruct (FS.IsDir (tree w) f);
          [|destruct (FS.Stat (tree w) f);
            [destruct (FS.ReadFile (tree w) f);
              [destruct (bool_decide (hash_blob R b = Sha1_of entry))|]|]]|]];
      intros [= <-]; simpl in Hx;
      first [destruct Hx as [[=]|[]] | destruct Hx | discriminate].
  - destruct (Unmerged opt) eqn:Hu; simpl.
    + destruct (Z.eqb_spec (Stage entry) 0) as [Hz|Hnz]; simpl.
      * split; [|intros (_ & _ & H); contradiction].
        intros (l & Hl & Hx). exfalso. revert Hl.
        destruct (Modified opt);
          [destruct (FS.IsDir (tree w) f);
            [|destruct (FS.Stat (tree w) f);
              [destruct (FS.ReadFile (tree w) f);
                [destruct (bool_decide (hash_blob R b = Sha1_of entry))|]|]]|];
          intros [= <-]; simpl in Hx;
          first [destruct Hx as [[=]|[]] | destruct Hx | discriminate].
      * split; [done|]. intros _. eexists. split; [reflexivity|]. by left.
    + split; [|intros (_ & [=] & _)].
      intros (l & Hl & Hx). exfalso. revert Hl.
      destruct (Modified opt);
        [destruct (FS.IsDir (tree w) f);
          [|destruct (FS.Stat (tree w) f);
            [destruct (FS.ReadFile (tree w) f);
              [destruct (bool_decide (hash_blob R b = Sha1_of entry))|]|]]|];
        intros [= <-]; simpl in Hx;
        first [destruct Hx as [[=]|[]] | destruct Hx | discriminate].
Qed.

(** X14: no result with code [?] has the path of an entry of the
    index, whatever the options, the patterns and the requested
    paths. *)
Theorem X14_untracked_results_are_not_in_the_index
  (opt : LsFilesOptions) (files : list string) (w w' : World)
  (index : Index) (results : list LsFilesResult) (x : LsFilesResult) :
  ReadIndex R w = (Ret index, w) ->
  LsFiles R opt files w = (Ret results, w') ->
  In x results -> StatusCode x = "?"%char ->
  ~ In (PathName (entry_of x)) (map PathName index).
Proof.
  intros Hri Hrun Hx Hcode.
  destruct (LsFiles_run _ _ _ _ _ Hrun)
    as (index' & fs & Hri' & Hloop & _ & Hres).
  rewrite Hri in Hri'. injection Hri' as <-.
  apply index_loop_results in Hloop as [_ Hfs].
  assert (Hnot : ~ In x fs).
  { intros H. apply Hfs in H as (e & f & l & _ & _ & _ & Hl & Hxl).
    exact (classify_codes _ _ _ _ _ _ Hl _ Hxl Hcode). }
  destruct Hres as [[_ ->]|(_ & opt' & root & patterns & w1 & others & unknown
                            & Hscan & Hol & ->)];
    rewrite sort_results_In in Hx; [contradiction|].
  apply in_app_or in Hx as [Hx|Hx]; [contradiction|].
  destruct (others_loop_members _ _ _ Hol _ Hx) as (file & Hfile & ->).
  simpl.
  destruct (scanner_reads_and_reports_untracked _ _ _ _ _ _ _ _ _ _ _ Hscan)
    as [_ Hy].
  specialize (Hy others eq_refl). rewrite List.Forall_forall in Hy.
  specialize (Hy file Hfile). simpl in Hy.
  rewrite elem_of_list_to_set, list_elem_of_In in Hy. exact Hy.
Qed.

Lemma error_unmatch_ok tracked files :
  error_unmatch R tracked files = Ret tt ->
  forall file, In file files ->
    exists ip, IndexPath_of R file = Ret ip /\ ip ∈ tracked.
Proof.
  induction files as [|file rest IH]; simpl; [intros _ ? []|].
  destruct (IndexPath_of R file) as [ip|?|?] eqn:Hip; [|discriminate..].
  simpl. destruct (bool_decide_reflect (ip ∈ tracked)); [|discriminate].
  intros H file' [<-|Hin]; [eauto|]. by apply IH.
Qed.

(** X15: with [ErrorUnmatch], [LsFiles] returns a result only when
    every requested path, as a path of the index, is the path of an
    entry of the index. *)
Theorem X15_error_unmatch_requires_known_paths
  (opt : LsFilesOptions) (files : list string) (w w' : World)
  (index : Index) (results : list LsFilesResult) (file : string) :
  ErrorUnmatch opt = true ->
  ReadIndex R w = (Ret index, w) ->
  LsFiles R opt files w = (Ret results, w') ->
  In file files ->
  exists ip, IndexPath_of R file = Ret ip /\ In ip (map PathName index).
Proof.
  intros He Hri Hrun Hin.
  destruct (LsFiles_run _ _ _ _ _ Hrun)
    as (index' & fs & Hri' & _ & Heu & _).
  rewrite Hri in Hri'. injection Hri' as <-.
  destruct (error_unmatch_ok _ _ (Heu He) file Hin) as (ip & Hip & Hmem).
  exists ip. split; [done|].
  by rewrite elem_of_list_to_set, list_elem_of_In in Hmem.
Qed.


End ReadOnlyFacts.

(** ** Removing files *)

Section RemovalFacts.
Import FS.

(** A change that only takes entries away makes no path resolve that
    did not. *)
Lemma walk_alter_delete_none cf : forall t cq g t',
  (forall cur r, g cur = Some r -> r = None) ->
  alter_path cf g t = Some t' ->
  walk cq t = None -> walk cq t' = None.
Proof.
  induction cf as [|c cf IH]; intros t cq g t' Hg Ha Hq; [discriminate|].
  destruct t as [|es]; [discriminate|]. simpl in Ha.
  destruct cq as [|c' cq]; [discriminate|]. simpl in Hq.
  destruct cf as [|c2 cf].
  - destruct (g (assoc c es)) as [r|] eqn:Hr; [|discriminate].
    injection Ha as <-. rewrite (Hg _ _ Hr). simpl.
    destruct (String.eqb_spec c c') as [<-|Hcc].
    + by rewrite assoc_del_entry_eq.
    + by rewrite assoc_del_entry_ne.
  - destruct (assoc c es) as [ch|] eqn:Hc; [|discriminate].
    destruct (alter_path (c2 :: cf) g ch) as [ch'|] eqn:Hch; [|discriminate].
    injection Ha as <-. simpl.
    destruct (String.eqb_spec c c') as [<-|Hcc].
    + rewrite assoc_set_entry_eq. rewrite Hc in Hq.
      eapply IH; [exact Hg | exact Hch | exact Hq].
    + by rewrite assoc_set_entry_ne.
Qed.

Lemma alter_delete_same t p g t' :
  (forall cur r, g cur = Some r -> r = None) ->
  alter t p g = Some t' -> resolve t' p = None.
Proof.
  unfold alter, resolve. destruct (components p) as [cf|]; [|done].
  intros Hg Ha. destruct (walk_alter_same cf t g t' Ha) as (r & Hr & Hw).
  by rewrite Hw, (Hg _ _ Hr).
Qed.

Lemma alter_delete_none t p g t' q :
  (forall cur r, g cur = Some r -> r = None) ->
  alter t p g = Some t' -> resolve t q = None -> resolve t' q = None.
Proof.
  unfold alter, resolve. destruct (components p) as [cf|]; [|discriminate].
  intros Hg Ha. destruct (components q) as [cq|]; [|done].
  by apply walk_alter_delete_none with (cf := cf) (g := g).
Qed.

Lemma alter_path_succeeds cf : forall t g n,
  cf <> [] -> walk cf t = Some n -> is_Some (g (Some n)) ->
  is_Some (alter_path cf g t).
Proof.
  induction cf as [|c cf IH]; intros t g n Hne Hw Hg; [contradiction|].
  destruct t as [|es]; [discriminate|]. simpl in Hw. simpl.
  destruct (assoc c es) as [ch|] eqn:Hc; [|discriminate].
  destruct cf as [|c2 cf].
  - simpl in Hw. injection Hw as ->. destruct Hg as [r ->]. eauto.
  - destruct (IH ch g n ltac:(discriminate) Hw Hg) as [ch' ->]. eauto.
Qed.

Lemma Remove_gone t f t' :
  Remove t f = Some t' ->
  resolve t' f = None /\
  forall q, resolve t q = None -> resolve t' q = None.
Proof.
  unfold Remove. intros Ha.
  assert (Hg : forall cur r,
            match cur with
            | Some (File _ _ _) => Some None
            | Some (Dir []) => Some None
            | _ => None
            end = Some r -> r = @None node).
  { intros [[?|[|? ?]]|] r; congruence. }
  split.
  - eapply alter_delete_same; [exact Hg|exact Ha].
  - intros q. eapply alter_delete_none; [exact Hg|exact Ha].
Qed.

Lemma RemoveAll_none t f q :
  resolve t q = None -> resolve (RemoveAll t f) q = None.
Proof.
  unfold RemoveAll. destruct (alter t f _) as [t'|] eqn:Ha; [|done].
  eapply alter_delete_none; [|exact Ha].
  intros [?|] r; congruence.
Qed.

Lemma RemoveAll_gone t f n :
  components f <> Some [] -> resolve t f = Some n ->
  resolve (RemoveAll t f) f = None.
Proof.
  unfold RemoveAll. intros Hne Hres.
  destruct (alter t f _) as [t'|] eqn:Ha.
  - eapply alter_delete_same; [|exact Ha]. intros [?|] r; congruence.
  - exfalso. unfold alter, resolve in *.
    destruct (components f) as [cf|]; [|discriminate].
    destruct (alter_path_succeeds cf t
                (fun cur => match cur with Some _ => Some None | None => None end)
                n ltac:(congruence) Hres ltac:(eauto)) as [t' Ht'].
    congruence.
Qed.

(** Paths of the same components resolve alike. *)
Lemma resolve_same_components t f q :
  components f = components q -> resolve t f = resolve t q.
Proof. unfold resolve. by intros ->. Qed.

End RemovalFacts.

(** ** More on commit-level checkout *)

Section MoreCheckoutFacts.
Import Checkout.
Context (R : Repo) (C : Collaborators).


(** The entries the marker on the entry keeps out of the working
    directory. *)
Lemma mark_entry_plain opts obj idx cf w f :
  Force opts = false ->
  (SkipWorktree obj && negb (IgnoreSkipWorktreeBits opts)) = false ->
  FilePath_of R (PathName obj) = Ret f ->
  mark_entry R C opts [] obj (idx, cf) w = (Ret (idx, cf ++ [f]), w).
Proof.
  intros Hf Hs Hp. unfold mark_entry. unfold bind at 1, lift at 1.
  rewrite Hp, Hs, Hf. reflexivity.
Qed.

(** X17: without [Force] and with nothing staged, the loop over the
    index of the target tree leaves that index as it is and marks, in
    the order of the index, the path of every entry that is not kept
    out by the skip-worktree flag. *)
Theorem X17_nothing_staged_marks_every_entry
  (opts : CheckoutOptions) (objects : list IndexEntry)
  (idx idx' : Index) (cf cf' : list string) (w w' : World) :
  Force opts = false ->
  mark_loop R C opts [] objects (idx, cf) w = (Ret (idx', cf'), w') ->
  idx' = idx /\
  exists fs,
    mapM (fun o => FilePath_of R (PathName o))
      (List.filter
         (fun o => negb (SkipWorktree o && negb (IgnoreSkipWorktreeBits opts)))
         objects) = Ret fs /\
    cf' = cf ++ fs.
Proof.
  intros Hforce. revert cf w.
  induction objects as [|obj rest IH]; intros cf w; cbn [mark_loop List.filter].
  - unfold ret. intros [= <- <- _]. split; [done|].
    exists []. by rewrite app_nil_r.
  - unfold bind at 1.
    destruct (mark_entry R C opts [] obj (idx, cf) w) as [r1 w1] eqn:Hstep.
    destruct r1 as [[idx1 cf1]|?|?]; [|simpl; intros; discriminate..].
    intros Hrest.
    unfold mark_entry in Hstep. unfold bind at 1, lift at 1 in Hstep.
    destruct (FilePath_of R (PathName obj)) as [f|?|?] eqn:Hf; [|discriminate..].
    destruct (SkipWorktree obj && negb (IgnoreSkipWorktreeBits opts)) eqn:Hs;
      simpl.
    + unfold bind at 1, reading at 1 in Hstep. unfold bind at 1 in Hstep.
      destruct ((if FS.Exists (tree w) f then Remove f else ret tt) w)
        as [[[]|?|?] wr]; [|discriminate..].
      unfold ret in Hstep. injection Hstep as <- <- <-.
      exact (IH _ _ Hrest).
    + rewrite Hforce in Hstep. simpl in Hstep. unfold ret in Hstep.
      injection Hstep as <- <- <-.
      destruct (IH _ _ Hrest) as (-> & fs & Hfs & ->).
      split; [done|]. exists (f :: fs). rewrite Hf. simpl. rewrite Hfs.
      split; [done|]. by rewrite <- app_assoc.
Qed.

(** X18: under [Force] the loop marks nothing and re-applies no staged
    change: the index of the target tree and the list of files to
    check out are as before, whatever is staged. *)
Theorem X18_force_marks_nothing
  (opts : CheckoutOptions) (stageddiffs : list HashDiff)
  (objects : list IndexEntry) (st st' : Index * list string) (w w' : World) :
  Force opts = true ->
  mark_loop R C opts stageddiffs objects st w = (Ret st', w') ->
  st' = st.
Proof.
  intros Hforce. revert st w.
  induction objects as [|obj rest IH]; intros st w; cbn [mark_loop].
  - unfold ret. by intros [= <- _].
  - unfold bind at 1.
    destruct (mark_entry R C opts stageddiffs obj st w) as [r1 w1] eqn:Hstep.
    destruct r1 as [st1|?|?]; [|simpl; intros; discriminate..].
    intros Hrest. rewrite (IH _ _ Hrest). clear Hrest IH.
    unfold mark_entry in Hstep. destruct st as [idx cf].
    unfold bind at 1, lift at 1 in Hstep.
    destruct (FilePath_of R (PathName obj)) as [f|?|?]; [|discriminate..].
    destruct (SkipWorktree obj && negb (IgnoreSkipWorktreeBits opts)).
    + unfold bind at 1, reading at 1 in Hstep. unfold bind at 1 in Hstep.
      destruct ((if FS.Exists (tree w) f then Remove f else ret tt) w)
        as [[[]|?|?] wr]; [|discriminate..].
      unfold ret in Hstep. by injection Hstep as <- _.
    + rewrite Hforce in Hstep. simpl in Hstep. unfold ret in Hstep.
      by injection Hstep as <- _.
Qed.

(** An iteration of the loop takes files away at most. *)
Lemma mark_entry_creates_nothing opts stageddiffs obj st w r w' q :
  mark_entry R C opts stageddiffs obj st w = (r, w') ->
  FS.resolve (tree w) q = None -> FS.resolve (tree w') q = None.
Proof.
  unfold mark_entry. destruct st as [idx cf].
  unfold bind at 1, lift at 1.
  destruct (FilePath_of R (PathName obj)) as [f|?|?];
    [|by intros [= _ <-]..].
  destruct (SkipWorktree obj && negb (IgnoreSkipWorktreeBits opts)).
  - unfold bind at 1, reading at 1. unfold bind at 1.
    destruct (FS.Exists (tree w) f).
    + unfold Remove.
      destruct (remove_error w f); [by intros [= _ <-]|].
      destruct (FS.Remove (tree w) f) as [t|] eqn:Hr;
        [|by intros [= _ <-]].
      unfold ret. intros [= _ <-] Hq. simpl.
      by apply (proj2 (Remove_gone _ _ _ Hr)).
    + unfold ret. by intros [= _ <-].
  - destruct (negb (Force opts)); [|unfold ret; by intros [= _ <-]].
    destruct stageddiffs as [|staged more]; [unfold ret; by intros [= _ <-]|].
    unfold bind, lift, ret.
    destruct (AddStage C idx _ _ _ _ _); by intros [= _ <-].
Qed.

Lemma mark_loop_creates_nothing opts stageddiffs objects : forall st w r w' q,
  mark_loop R C opts stageddiffs objects st w = (r, w') ->
  FS.resolve (tree w) q = None -> FS.resolve (tree w') q = None.
Proof.
  induction objects as [|obj rest IH]; intros st w r w' q; cbn [mark_loop].
  - unfold ret. by intros [= _ <-].
  - unfold bind at 1.
    destruct (mark_entry R C opts stageddiffs obj st w) as [r1 w1] eqn:Hstep.
    intros Hrest Hq.
    pose proof (mark_entry_creates_nothing _ _ _ _ _ _ _ _ Hstep Hq) as Hq1.
    destruct r1 as [st1|?|?]; [|by injection Hrest as _ <-..].
    exact (IH _ _ _ _ _ Hrest Hq1).
Qed.

(** X19: when the loop over the index of the target tree returns, the
    path of every entry that has the skip-worktree flag is absent
    from the working directory, unless the flag is to be ignored. *)
Theorem X19_skip_worktree_paths_are_removed
  (opts : CheckoutOptions) (stageddiffs : list HashDiff)
  (objects : list IndexEntry) (st st' : Index * list string) (w w' : World)
  (obj : IndexEntry) (f : string) :
  IgnoreSkipWorktreeBits opts = false ->
  mark_loop R C opts stageddiffs objects st w = (Ret st', w') ->
  In obj objects -> SkipWorktree obj = true ->
  FilePath_of R (PathName obj) = Ret f ->
  FS.Exists (tree w') f = false.
Proof.
  intros Hign Hrun Hin Hskip Hf. revert st w Hrun.
  induction objects as [|o rest IH]; intros st w; cbn [mark_loop]; [destruct Hin|].
  unfold bind at 1.
  destruct (mark_entry R C opts stageddiffs o st w) as [r1 w1] eqn:Hstep.
  destruct r1 as [st1|?|?]; [|simpl; intros; discriminate..].
  intros Hrest. destruct Hin as [->|Hin]; [|exact (IH Hin _ _ Hrest)].
  assert (Hgone : FS.resolve (tree w1) f = None).
  { unfold mark_entry in Hstep. destruct st as [idx cf].
    unfold bind at 1, lift at 1 in Hstep. rewrite Hf, Hskip, Hign in Hstep.
    simpl in Hstep.
    unfold bind at 1, reading at 1 in Hstep. unfold bind at 1 in Hstep.
    unfold FS.Exists in Hstep.
    destruct (FS.resolve (tree w) f) eqn:Hres.
    - unfold Remove in Hstep.
      destruct (remove_error w f); [discriminate|].
      destruct (FS.Remove (tree w) f) as [t|] eqn:Hr; [|discriminate].
      unfold ret in Hstep. injection Hstep as _ <-. simpl.
      exact (proj1 (Remove_gone _ _ _ Hr)).
    - unfold ret in Hstep. by injection Hstep as _ <-. }
  unfold FS.Exists.
  by rewrite (mark_loop_creates_nothing _ _ _ _ _ _ _ _ Hrest Hgone).
Qed.

(** "Delete any old files" creates nothing. *)
Lemma delete_old_entry_creates_nothing newidxmap obj w r w' q :
  delete_old_entry R newidxmap obj w = (r, w') ->
  FS.resolve (tree w) q = None -> FS.resolve (tree w') q = None.
Proof.
  unfold delete_old_entry, RemoveAll. unfold_cmd.
  destruct (negb (Contains newidxmap (PathName obj))); [|by intros [= _ <-]].
  destruct (IsClean R (PathName obj) (Sha1_of obj) w); [|by intros [= _ <-]].
  destruct (FilePath_of R (PathName obj)) as [f|?|?]; [|by intros [= _ <-]..].
  destruct (remove_error w f); [by intros [= _ <-]|].
  intros [= _ <-] Hq. simpl. by apply RemoveAll_none.
Qed.

Lemma delete_old_creates_nothing newidxmap origidx : forall w r w' q,
  delete_old R newidxmap origidx w = (r, w') ->
  FS.resolve (tree w) q = None -> FS.resolve (tree w') q = None.
Proof.
  induction origidx as [|obj rest IH]; intros w r w' q; cbn [delete_old].
  - unfold ret. by intros [= _ <-].
  - unfold bind.
    destruct (delete_old_entry R newidxmap obj w) as [r1 w1] eqn:Hstep.
    intros Hrest Hq.
    pose proof (delete_old_entry_creates_nothing _ _ _ _ _ _ Hstep Hq) as Hq1.
    destruct r1 as [[]|?|?]; [|by injection Hrest as _ <-..].
    exact (IH _ _ _ _ Hrest Hq1).
Qed.

(** An iteration leaves a file as it is or removes it. *)
Lemma delete_old_entry_file_or_gone newidxmap obj w r w' q d m mt :
  delete_old_entry R newidxmap obj w = (r, w') ->
  FS.components q <> Some [] ->
  FS.resolve (tree w) q = Some (FS.File d m mt) ->
  FS.resolve (tree w') q = Some (FS.File d m mt) \/
  FS.resolve (tree w') q = None.
Proof.
  unfold delete_old_entry, IsClean, RemoveAll, FS.ReadFile. unfold_cmd.
  destruct (negb (Contains newidxmap (PathName obj)));
    [|intros [= _ <-]; auto].
  destruct (FilePath_of R (PathName obj)) as [f|?|?];
    [|intros [= _ <-]; auto..].
  destruct (FS.resolve (tree w) f) as [[fd fm fmt|es]|] eqn:Hres;
    [|intros [= _ <-]; auto..].
  destruct (bool_decide (hash_blob R fd = Sha1_of obj));
    [|intros [= _ <-]; auto].
  destruct (remove_error w f); [intros [= _ <-]; auto|].
  intros [= _ <-] Hne Hq. simpl.
  destruct (decide (FS.components f = FS.components q)) as [Heq|Hneq].
  - right. rewrite <- (resolve_same_components _ f q Heq).
    apply RemoveAll_gone with (n := FS.File fd fm fmt); [congruence|done].
  - left. eapply RemoveAll_other; eauto.
Qed.

(** The iteration for a clean file of an entry that the new index
    does not have removes the file, when it returns. *)
Lemma delete_old_entry_removes newidxmap obj w w' f d m mt :
  Contains newidxmap (PathName obj) = false ->
  FilePath_of R (PathName obj) = Ret f ->
  FS.components f <> Some [] ->
  FS.resolve (tree w) f = Some (FS.File d m mt) ->
  hash_blob R d = Sha1_of obj ->
  delete_old_entry R newidxmap obj w = (Ret tt, w') ->
  FS.resolve (tree w') f = None.
Proof.
  intros Hc Hf Hne Hres Hhash.
  unfold delete_old_entry, IsClean, RemoveAll, FS.ReadFile. unfold_cmd.
  rewrite Hc, Hf. cbn [negb]. cbv beta. rewrite Hres.
  rewrite bool_decide_eq_true_2 by done.
  destruct (remove_error w f); [discriminate|].
  intros [= <-]. simpl. eapply RemoveAll_gone; eauto.
Qed.

(** X20: when "Delete any old files" returns, the path of every entry
    of the old index that is absent from the new index and whose file
    had the recorded digest when the loop started is gone from the
    working directory: the loop has removed it, or has returned the
    error of the removal instead. *)
Theorem X20_clean_old_files_are_deleted
  (newidxmap : gmap string IndexEntry) (origidx : Index) (w w' : World)
  (obj : IndexEntry) (f : string) :
  In obj origidx ->
  Contains newidxmap (PathName obj) = false ->
  IsClean R (PathName obj) (Sha1_of obj) w = true ->
  FilePath_of R (PathName obj) = Ret f ->
  FS.components f <> Some [] ->
  delete_old R newidxmap origidx w = (Ret tt, w') ->
  FS.Exists (tree w') f = false.
Proof.
  intros Hin Hc Hclean Hf Hne.
  assert (Hfile : exists d m mt,
            FS.resolve (tree w) f = Some (FS.File d m mt) /\
            hash_blob R d = Sha1_of obj).
  { unfold IsClean in Hclean. rewrite Hf in Hclean.
    destruct (FS.ReadFile (tree w) f) as [d|] eqn:Hr; [|discriminate].
    apply ReadFile_Some in Hr as (m & mt & Hr).
    apply bool_decide_eq_true in Hclean. eauto. }
  destruct Hfile as (d & m & mt & Hres & Hhash).
  clear Hclean. revert w Hres.
  induction origidx as [|o rest IH]; intros w Hres; [destruct Hin|].
  cbn [delete_old]. unfold bind at 1.
  destruct (delete_old_entry R newidxmap o w) as [r1 w1] eqn:Hstep.
  destruct r1 as [[]|?|?]; [|discriminate..].
  intros Hrest.
  assert (Hnone : FS.resolve (tree w1) f = None ->
                  FS.Exists (tree w') f = false).
  { intros Hq. unfold FS.Exists.
    by rewrite (delete_old_creates_nothing _ _ _ _ _ _ Hrest Hq). }
  destruct Hin as [->|Hin].
  - apply Hnone.
    exact (delete_old_entry_removes _ _ _ _ _ _ _ _ Hc Hf Hne Hres Hhash Hstep).
  - destruct (delete_old_entry_file_or_gone _ _ _ _ _ _ _ _ _ Hstep Hne Hres)
      as [Hkeep|Hgone].
    + exact (IH Hin _ Hkeep Hrest).
    + exact (Hnone Hgone).
Qed.

End MoreCheckoutFacts.

(** ** Checkout of named files *)

Section CheckoutFilesFacts.
Import Checkout Checkoutfiles.
Context (R : Repo).
Context (LsTreeFiles : Sha1 -> list string -> World -> outcome (list IndexEntry)).
Context (ReadTreeDry : Sha1 -> M Index).
Context (CheckoutIndexUncommited :
           Index -> Checkoutindex.CheckoutIndexOptions -> list string -> M unit).

Lemma expand_filter opts imap expanded : forall files paths,
  mapM (fun e => FilePath_of R (PathName e)) expanded = Ret paths ->
  exists fs,
    mapM (fun e => FilePath_of R (PathName e))
      (List.filter (passed_on opts imap) expanded) = Ret fs /\
    expand R opts imap expanded files = Ret (files ++ fs).
Proof.
  induction expanded as [|e rest IH]; intros files paths; cbn [mapM expand].
  - intros _. exists []. cbn. by rewrite app_nil_r.
  - destruct (FilePath_of R (PathName e)) as [f|?|?] eqn:Hf;
      [|discriminate..].
    cbn [obind]. destruct (mapM _ rest) as [ps|?|?] eqn:Hps;
      [|discriminate..].
    intros _. cbn [List.filter]. unfold passed_on at 1.
    assert (Hkeep : forall files, exists fs,
              mapM (fun e => FilePath_of R (PathName e))
                (e :: List.filter (passed_on opts imap) rest) = Ret fs /\
              expand R opts imap rest (files ++ [f]) = Ret (files ++ fs)).
    { intros fl. destruct (IH (fl ++ [f]) ps eq_refl) as (fs & Hfs & Hex).
      exists (f :: fs). cbn [mapM]. rewrite Hf. cbn [obind]. rewrite Hfs.
      split; [done|]. by rewrite Hex, <- app_assoc. }
    destruct (IgnoreSkipWorktreeBits opts); [exact (Hkeep files)|].
    cbn [orb]. destruct (imap !! PathName e) as [e'|]; cbn [from_option];
      [|exact (Hkeep files)].
    destruct (SkipWorktree e'); cbn [negb]; [|exact (Hkeep files)].
    exact (IH files ps eq_refl).
Qed.

(** X21: a checkout of named files from a tree hands to the forced
    checkout of the index, in the order of the tree, the path of
    every expanded entry except those for which the index (not the
    tree) has an entry with the skip-worktree flag; with the flags
    ignored it hands over every path. *)
Theorem X21_CheckoutFiles_skips_by_the_flag_of_the_index
  (opts : CheckoutOptions) (tree : Sha1) (files : list string)
  (index : Index) (expanded : list IndexEntry) (paths : list string)
  (w : World) :
  ReadIndex R w = (Ret index, w) ->
  LsTreeFiles tree files w = Ret expanded ->
  mapM (fun e => FilePath_of R (PathName e)) expanded = Ret paths ->
  exists fs,
    mapM (fun e => FilePath_of R (PathName e))
      (List.filter (passed_on opts (GetMap index)) expanded) = Ret fs /\
    CheckoutFiles R LsTreeFiles ReadTreeDry CheckoutIndexUncommited
      opts tree files w
    = (treeidx <- ReadTreeDry tree ;;
       CheckoutIndexUncommited treeidx
         (Checkoutindex.mkOpts true false true false false "") fs)%cmd w.
Proof.
  intros Hidx Hls Hpaths.
  destruct (expand_filter opts (GetMap index) expanded [] paths Hpaths)
    as (fs & Hfs & Hex).
  exists fs. split; [exact Hfs|].
  unfold CheckoutFiles. unfold bind at 1. rewrite Hidx.
  unfold bind at 1, reading at 1. rewrite Hls.
  unfold bind at 1, lift at 1.
  unfold bind at 1, lift at 1. rewrite Hex. reflexivity.
Qed.

End CheckoutFilesFacts.

(** ** The properties on the examples *)

Lemma X2_header_without_zero_is_an_empty_blob_witness :
  Objects.HaveObject Examples.unterminated_store Examples.sha_a
    = (true, false, None) /\
  Objects.objfile Examples.unterminated_store Examples.sha_a
    = Objects.Inflated (bytes_of_string "blob 5") /\
  Objects.GetObject Examples.unterminated_store Examples.sha_a
    = Ret (Objects.mkBlob 0 []) /\
  Objects.GetContent (Objects.mkBlob 0 []) = Ret [].
Proof.
  split; [reflexivity|]. split; [reflexivity|].
  apply (X2_header_without_zero_is_an_empty_blob
           Examples.unterminated_store Examples.sha_a true
           (bytes_of_string "blob 5")); [reflexivity..|].
  repeat constructor; vm_compute; discriminate.
Defined.

Lemma X3_GetObject_returns_only_blobs_witness :
  Objects.GetObject Examples.good_store Examples.sha_a
    = Ret (Objects.mkBlob 3 (bytes_of_string "abc")) /\
  exists found b k,
    Objects.HaveObject Examples.good_store Examples.sha_a
      = (found, false, None) /\
    Objects.objfile Examples.good_store Examples.sha_a = Objects.Inflated b /\
    take 5 b = bytes_of_string "blob " /\
    bytes_of_string "abc" = drop k b.
Proof.
  assert (H : Objects.GetObject Examples.good_store Examples.sha_a
              = Ret (Objects.mkBlob 3 (bytes_of_string "abc")))
    by (vm_compute; reflexivity).
  split; [exact H|].
  exact (X3_GetObject_returns_only_blobs Examples.good_store Examples.sha_a
           (Objects.mkBlob 3 (bytes_of_string "abc")) H).
Defined.

Lemma X4_no_force_keeps_existing_bytes_witness :
  let R := Examples.toy_repo [Examples.readme] Examples.no_match in
  let run :=
    Checkoutindex.CheckoutIndex R Examples.plain_opts ["README"]
      Examples.readme_world in
  Checkoutindex.Force Examples.plain_opts = false /\
  FS.ReadFile (tree Examples.readme_world) "README"
    = Some (bytes_of_string "xyz") /\
  FS.ReadFile (tree (snd run)) "README" = Some (bytes_of_string "xyz").
Proof.
  intros R run. split; [reflexivity|]. split; [reflexivity|].
  apply (X4_no_force_keeps_existing_bytes R Examples.plain_opts ["README"]
           Examples.readme_world (snd run) (fst run) "README"
           (bytes_of_string "xyz")).
  - reflexivity.
  - exact (surjective_pairing run).
  - reflexivity.
Defined.

Lemma X5_no_create_keeps_working_directory_witness :
  let R := Examples.toy_repo [Examples.readme] Examples.no_match in
  let run :=
    Checkoutindex.CheckoutIndex R Examples.no_create_opts ["README"]
      Examples.readme_world in
  Checkoutindex.NoCreate Examples.no_create_opts = true /\
  tree (snd run) = tree Examples.readme_world.
Proof.
  intros R run. split; [reflexivity|].
  apply (X5_no_create_keeps_working_directory R Examples.no_create_opts
           ["README"] Examples.readme_world (snd run) (fst run)).
  - reflexivity.
  - exact (surjective_pairing run).
Defined.

Lemma X6_quiet_prints_nothing_witness :
  let R := Examples.toy_repo [Examples.readme] Examples.no_match in
  let run :=
    Checkoutindex.CheckoutIndex R Examples.quiet_opts ["README"]
      Examples.readme_world in
  Checkoutindex.Quiet Examples.quiet_opts = true /\
  stderr (snd run) = stderr Examples.readme_world.
Proof.
  intros R run. split; [reflexivity|].
  apply (X6_quiet_prints_nothing R Examples.quiet_opts ["README"]
           Examples.readme_world (snd run) (fst run)).
  - reflexivity.
  - exact (surjective_pairing run).
Defined.

Lemma X8_written_file_holds_the_object_witness :
  let R := Examples.toy_repo [Examples.regular] Examples.no_match in
  let w := Examples.world_of Examples.good_store Examples.empty_dir
             [Examples.regular] None in
  let run :=
    Checkoutindex.checkout_file R Examples.update_stat_opts Examples.regular
      "README" w in
  proceeds R Examples.update_stat_opts Examples.regular "README" w /\
  Checkoutindex.NoCreate Examples.update_stat_opts = false /\
  Mode Examples.regular = 33188 /\
  exists obj,
    Objects.GetObject (store w) (Sha1_of Examples.regular) = Ret obj /\
    Z.of_nat (length (Objects.content obj)) = Objects.size obj /\
    FS.ReadFile (tree (snd run)) "README" = Some (Objects.content obj) /\
    FS.Stat (tree (snd run)) "README"
      = Some (FS.mkInfo false 420 (FS.mkTime 1000 5)).
Proof.
  intros R w run.
  assert (Hp : proceeds R Examples.update_stat_opts Examples.regular "README" w)
    by (split; reflexivity).
  split; [exact Hp|]. split; [reflexivity|]. split; [reflexivity|].
  assert (Hrun : run = (Ret (set_mtime Examples.regular (FS.mkTime 1000 5)),
                        snd run))
    by (vm_compute; reflexivity).
  destruct (X8_written_file_holds_the_object R Examples.update_stat_opts
              Examples.regular (set_mtime Examples.regular (FS.mkTime 1000 5))
              "README" w (snd run) Hp eq_refl Hrun)
    as (obj & Hobj & Hlen & Hread & Hstat).
  exists obj. split; [exact Hobj|]. split; [exact Hlen|].
  split; [exact Hread | exact (Hstat eq_refl)].
Defined.

Lemma X10_LsFiles_results_are_sorted_witness :
  let R := Examples.toy_repo [Examples.entry_b; Examples.entry_a]
             Examples.no_match in
  let results :=
    [Lsfiles.mkResult Examples.entry_a "H"%char;
     Lsfiles.mkResult Examples.entry_b "H"%char] in
  Lsfiles.LsFiles R Examples.cached_opts [] Examples.ba_world
    = (Ret results, Examples.ba_world) /\
  StronglySorted not_after results.
Proof.
  intros R results.
  assert (Hrun : Lsfiles.LsFiles R Examples.cached_opts [] Examples.ba_world
                 = (Ret results, Examples.ba_world))
    by (vm_compute; reflexivity).
  split; [exact Hrun|].
  exact (X10_LsFiles_results_are_sorted R Examples.cached_opts []
           Examples.ba_world Examples.ba_world results Hrun).
Defined.

Lemma X11_LsFiles_only_prints_witness :
  only_prints Examples.abc_world (snd Examples.modified_run).
Proof.
  apply (X11_LsFiles_only_prints
           (Examples.toy_repo [Examples.abc_entry] Examples.no_match)
           Examples.modified_opts [] Examples.abc_world
           (snd Examples.modified_run) (fst Examples.modified_run)).
  exact (surjective_pairing Examples.modified_run).
Defined.

Lemma X12_cached_lists_the_index_witness :
  let R := Examples.toy_repo [Examples.entry_b; Examples.entry_a]
             Examples.no_match in
  let results :=
    [Lsfiles.mkResult Examples.entry_a "H"%char;
     Lsfiles.mkResult Examples.entry_b "H"%char] in
  let x := Lsfiles.mkResult Examples.entry_a "H"%char in
  Lsfiles.Cached Examples.cached_opts = true /\
  Lsfiles.Others Examples.cached_opts = false /\
  Lsfiles.LsFiles R Examples.cached_opts [] Examples.ba_world
    = (Ret results, Examples.ba_world) /\
  (In x results <->
   exists index entry f,
     ReadIndex R Examples.ba_world = (Ret index, Examples.ba_world) /\
     In entry index /\
     FilePath_of R (PathName entry) = Ret f /\
     Lsfiles.selected R true f [] = Ret true /\
     x = Lsfiles.mkResult entry
           (if SkipWorktree entry then "S" else "H")%char).
Proof.
  intros R results x.
  assert (Hrun : Lsfiles.LsFiles R Examples.cached_opts [] Examples.ba_world
                 = (Ret results, Examples.ba_world))
    by (vm_compute; reflexivity).
  split; [reflexivity|]. split; [reflexivity|]. split; [exact Hrun|].
  exact (X12_cached_lists_the_index R Examples.cached_opts []
           Examples.ba_world Examples.ba_world results x
           eq_refl eq_refl Hrun).
Defined.

Lemma X13_deleted_and_unmerged_codes_witness :
  let R := Examples.toy_repo [Examples.entry_b; Examples.entry_a]
             Examples.no_match in
  let results := [Lsfiles.mkResult Examples.entry_a "R"%char] in
  Lsfiles.Cached Examples.deleted_opts = false /\
  ReadIndex R Examples.ba_world
    = (Ret [Examples.entry_b; Examples.entry_a], Examples.ba_world) /\
  Lsfiles.LsFiles R Examples.deleted_opts [] Examples.ba_world
    = (Ret results, Examples.ba_world) /\
  In Examples.entry_a [Examples.entry_b; Examples.entry_a] /\
  FilePath_of R (PathName Examples.entry_a) = Ret "a" /\
  Lsfiles.selected R true "a" [] = Ret true /\
  In (Lsfiles.mkResult Examples.entry_a "R"%char) results /\
  ~ In (Lsfiles.mkResult Examples.entry_a "M"%char) results.
Proof.
  intros R results.
  assert (Hri : ReadIndex R Examples.ba_world
                = (Ret [Examples.entry_b; Examples.entry_a], Examples.ba_world))
    by (vm_compute; reflexivity).
  assert (Hrun : Lsfiles.LsFiles R Examples.deleted_opts [] Examples.ba_world
                 = (Ret results, Examples.ba_world))
    by (vm_compute; reflexivity).
  assert (Hin : In Examples.entry_a [Examples.entry_b; Examples.entry_a])
    by (right; left; reflexivity).
  split; [reflexivity|]. split; [exact Hri|]. split; [exact Hrun|].
  split; [exact Hin|]. split; [reflexivity|]. split; [reflexivity|].
  destruct (X13_deleted_and_unmerged_codes R Examples.deleted_opts []
              Examples.ba_world Examples.ba_world
              [Examples.entry_b; Examples.entry_a] results Examples.entry_a "a"
              eq_refl Hri Hrun Hin eq_refl eq_refl) as [HR HM].
  split.
  - apply HR. reflexivity.
  - intros H. apply HM in H as [H _]. vm_compute in H. discriminate.
Defined.

Lemma X14_untracked_results_are_not_in_the_index_witness :
  let R := Examples.toy_repo [Examples.abc_entry] Examples.no_match in
  let x := Lsfiles.mkResult (Lsfiles.entry_for "notes.txt") "?"%char in
  ReadIndex R Examples.notes_world
    = (Ret [Examples.abc_entry], Examples.notes_world) /\
  Lsfiles.LsFiles R others_only [] Examples.notes_world
    = (Ret [x], Examples.notes_world) /\
  In x [x] /\ Lsfiles.StatusCode x = "?"%char /\
  ~ In (PathName (Lsfiles.entry_of x)) (map PathName [Examples.abc_entry]).
Proof.
  intros R x.
  assert (Hri : ReadIndex R Examples.notes_world
                = (Ret [Examples.abc_entry], Examples.notes_world))
    by (vm_compute; reflexivity).
  assert (Hrun : Lsfiles.LsFiles R others_only [] Examples.notes_world
                 = (Ret [x], Examples.notes_world))
    by (vm_compute; reflexivity).
  split; [exact Hri|]. split; [exact Hrun|].
  split; [left; reflexivity|]. split; [reflexivity|].
  exact (X14_untracked_results_are_not_in_the_index R others_only []
           Examples.notes_world Examples.notes_world [Examples.abc_entry]
           [x] x Hri Hrun (or_introl eq_refl) eq_refl).
Defined.

Lemma X15_error_unmatch_requires_known_paths_witness :
  let R := Examples.toy_repo [Examples.abc_entry] Examples.no_match in
  let run :=
    Lsfiles.LsFiles R Examples.error_unmatch_opts ["README"]
      Examples.abc_world in
  Lsfiles.ErrorUnmatch Examples.error_unmatch_opts = true /\
  ReadIndex R Examples.abc_world
    = (Ret [Examples.abc_entry], Examples.abc_world) /\
  run = (Ret [Lsfiles.mkResult Examples.abc_entry "H"%char], snd run) /\
  In "README" ["README"] /\
  exists ip,
    IndexPath_of R "README" = Ret ip /\
    In ip (map PathName [Examples.abc_entry]).
Proof.
  intros R run.
  assert (Hri : ReadIndex R Examples.abc_world
                = (Ret [Examples.abc_entry], Examples.abc_world))
    by (vm_compute; reflexivity).
  assert (Hrun : run = (Ret [Lsfiles.mkResult Examples.abc_entry "H"%char],
                        snd run))
    by (vm_compute; reflexivity).
  split; [reflexivity|]. split; [exact Hri|]. split; [exact Hrun|].
  split; [left; reflexivity|].
  exact (X15_error_unmatch_requires_known_paths R Examples.error_unmatch_opts
           ["README"] Examples.abc_world (snd run) [Examples.abc_entry]
           [Lsfiles.mkResult Examples.abc_entry "H"%char] "README"
           eq_refl Hri Hrun (or_introl eq_refl)).
Defined.


Lemma X17_nothing_staged_marks_every_entry_witness :
  let R := Examples.toy_repo [] Examples.no_match in
  let C := Examples.toy_collab [] [] in
  let objects := [Examples.entry_a; Examples.sparse_b; Examples.abc_entry] in
  Checkout.Force Examples.plain_checkout = false /\
  Checkout.mark_loop R C Examples.plain_checkout [] objects (objects, [])
    Examples.ba_world
  = (Ret (objects, ["a"; "README"]),
     snd (Checkout.mark_loop R C Examples.plain_checkout [] objects
            (objects, []) Examples.ba_world)) /\
  exists fs,
    Checkout.mapM (fun o => FilePath_of R (PathName o))
      (List.filter
         (fun o => negb (SkipWorktree o &&
                         negb (Checkout.IgnoreSkipWorktreeBits
                                 Examples.plain_checkout)))
         objects) = Ret fs /\
    ["a"; "README"] = [] ++ fs.
Proof.
  intros R C objects.
  assert (Hrun :
    Checkout.mark_loop R C Examples.plain_checkout [] objects (objects, [])
      Examples.ba_world
    = (Ret (objects, ["a"; "README"]),
       snd (Checkout.mark_loop R C Examples.plain_checkout [] objects
              (objects, []) Examples.ba_world)))
    by (vm_compute; reflexivity).
  split; [reflexivity|]. split; [exact Hrun|].
  exact (proj2 (X17_nothing_staged_marks_every_entry R C
                  Examples.plain_checkout objects objects objects []
                  ["a"; "README"] Examples.ba_world _ eq_refl Hrun)).
Defined.

Lemma X18_force_marks_nothing_witness :
  let R := Examples.toy_repo [] Examples.no_match in
  let C := Examples.toy_collab [] [Examples.staged_a] in
  let objects := [Examples.entry_a; Examples.entry_b] in
  let run :=
    Checkout.mark_loop R C Examples.force_checkout [Examples.staged_a]
      objects (objects, []) Examples.staged_world in
  let st' := (objects, @nil string) in
  Checkout.Force Examples.force_checkout = true /\
  run = (Ret st', snd run) /\
  st' = (objects, []).
Proof.
  intros R C objects run st'.
  assert (Hrun : run = (Ret st', snd run)) by (vm_compute; reflexivity).
  split; [reflexivity|]. split; [exact Hrun|].
  exact (X18_force_marks_nothing R C Examples.force_checkout
           [Examples.staged_a] objects (objects, []) st'
           Examples.staged_world (snd run) eq_refl Hrun).
Defined.

Lemma X19_skip_worktree_paths_are_removed_witness :
  let R := Examples.toy_repo [] Examples.no_match in
  let C := Examples.toy_collab [] [] in
  let objects := [Examples.entry_a; Examples.sparse_b] in
  let run :=
    Checkout.mark_loop R C Examples.plain_checkout [] objects (objects, [])
      Examples.ba_world in
  Checkout.IgnoreSkipWorktreeBits Examples.plain_checkout = false /\
  run = (Ret (objects, ["a"]), snd run) /\
  In Examples.sparse_b objects /\
  SkipWorktree Examples.sparse_b = true /\
  FS.Exists (tree Examples.ba_world) "b" = true /\
  FS.Exists (tree (snd run)) "b" = false.
Proof.
  intros R C objects run.
  assert (Hrun : run = (Ret (objects, ["a"]), snd run))
    by (vm_compute; reflexivity).
  assert (Hin : In Examples.sparse_b objects) by (right; left; reflexivity).
  split; [reflexivity|]. split; [exact Hrun|]. split; [exact Hin|].
  split; [reflexivity|]. split; [reflexivity|].
  exact (X19_skip_worktree_paths_are_removed R C Examples.plain_checkout []
           objects (objects, []) (objects, ["a"]) Examples.ba_world (snd run)
           Examples.sparse_b "b" eq_refl Hrun Hin eq_refl eq_refl).
Defined.

Lemma X20_clean_old_files_are_deleted_witness :
  let R := Examples.toy_repo [] Examples.no_match in
  let origidx := [Examples.abc_entry; Examples.notes_entry] in
  let run := Checkout.delete_old R ∅ origidx Examples.edited_world in
  In Examples.abc_entry origidx /\
  Checkout.Contains ∅ (PathName Examples.abc_entry) = false /\
  Checkout.IsClean R (PathName Examples.abc_entry)
    (Sha1_of Examples.abc_entry) Examples.edited_world = true /\
  FS.components "README" <> Some [] /\
  run = (Ret tt, snd run) /\
  FS.Exists (tree Examples.edited_world) "README" = true /\
  FS.Exists (tree (snd run)) "README" = false.
Proof.
  intros R origidx run.
  assert (Hin : In Examples.abc_entry origidx) by (left; reflexivity).
  assert (Hc : Checkout.Contains ∅ (PathName Examples.abc_entry) = false)
    by reflexivity.
  assert (Hclean : Checkout.IsClean R (PathName Examples.abc_entry)
                     (Sha1_of Examples.abc_entry) Examples.edited_world = true)
    by (vm_compute; reflexivity).
  assert (Hne : FS.components "README" <> Some [])
    by (vm_compute; discriminate).
  assert (Hrun : run = (Ret tt, snd run)) by (vm_compute; reflexivity).
  split; [exact Hin|]. split; [exact Hc|]. split; [exact Hclean|].
  split; [exact Hne|]. split; [exact Hrun|]. split; [reflexivity|].
  exact (X20_clean_old_files_are_deleted R ∅ origidx Examples.edited_world
           (snd run) Examples.abc_entry "README" Hin Hc Hclean eq_refl Hne
           Hrun).
Defined.

Lemma X21_CheckoutFiles_skips_by_the_flag_of_the_index_witness :
  let index := [Examples.entry_a; Examples.sparse_b] in
  let expanded := [Examples.entry_a; Examples.entry_b] in
  let R := Examples.toy_repo index Examples.no_match in
  let w := Examples.world_of Examples.good_store Examples.empty_dir index
             None in
  let LsTreeFiles :=
    fun (_ : Sha1) (_ : list string) (_ : World) => Ret expanded in
  let ReadTreeDry := fun _ : Sha1 => ret expanded in
  let CheckoutIndexUncommited :=
    fun idx opts files => Checkoutindex.CheckoutIndex R opts files in
  ReadIndex R w = (Ret index, w) /\
  exists fs,
    Checkout.mapM (fun e => FilePath_of R (PathName e))
      (List.filter (passed_on Examples.plain_checkout (Checkout.GetMap index))
         expanded) = Ret fs /\
    Checkoutfiles.CheckoutFiles R LsTreeFiles ReadTreeDry
      CheckoutIndexUncommited Examples.plain_checkout Examples.sha_b ["a"; "b"]
      w
    = (treeidx <- ReadTreeDry Examples.sha_b ;;
       CheckoutIndexUncommited treeidx
         (Checkoutindex.mkOpts true false true false false "") fs)%cmd w.
Proof.
  intros index expanded R w LsTreeFiles ReadTreeDry CheckoutIndexUncommited.
  assert (Hri : ReadIndex R w = (Ret index, w)) by (vm_compute; reflexivity).
  split; [exact Hri|].
  exact (X21_CheckoutFiles_skips_by_the_flag_of_the_index R LsTreeFiles
           ReadTreeDry CheckoutIndexUncommited Examples.plain_checkout
           Examples.sha_b ["a"; "b"] index expanded ["a"; "b"] w
           Hri eq_refl eq_refl).
Defined.
